(** * AnyToolCall: the tool-call text protocol and its streaming transcoder

    A shallow embedding of [index.js]: the randomised delimiter set, the
    text protocol parser ([ToolCallDelimiter.parse]), the request
    transformer ([transformRequest], [mergeAdjacentMessages]), the SSE
    framing ([SseEventParser]), the streaming transformer
    ([createTransparentToolStreamTransformer]) and the non-stream finisher
    of [handleRequest].

    JavaScript strings are sequences of UTF-16 code units; every character
    the program itself writes lies in the Basic Multilingual Plane, so a
    string is a list of code units.  JSON documents are a tree type; a JS
    object is an association list because [JSON.stringify] observes the
    insertion order of keys.  The upstream of a stream is read as bytes:
    [TextDecoder], [Buffer.from] and [Buffer.toString] are the UTF-8
    decoder and encoder of the Encoding Standard. *)

From Stdlib Require Import String Ascii.
From Stdlib Require Import List NArith ZArith QArith Lia Bool Arith.
From Stdlib.Strings Require Byte.
Import ListNotations.

Set Implicit Arguments.
Local Open Scope list_scope.
Local Open Scope nat_scope.

(* ================================================================== *)
(** ** JavaScript strings *)

Module JsString.

Definition jschar := N.
Definition jsstring := list jschar.

(** An ASCII literal of the source text, as code units. *)
Definition lit (s : string) : jsstring := List.map N_of_ascii (list_ascii_of_string s).
Arguments lit s%_string.

Definition LF : jschar := 10%N.

Fixpoint str_eqb (a b : jsstring) : bool :=
  match a, b with
  | [], [] => true
  | x :: a', y :: b' => N.eqb x y && str_eqb a' b'
  | _, _ => false
  end.

(** [s.startsWith(p)] *)
Fixpoint startsWith (p s : jsstring) : bool :=
  match p, s with
  | [], _ => true
  | x :: p', y :: s' => N.eqb x y && startsWith p' s'
  | _ :: _, [] => false
  end.

(** [s.indexOf(p)]; [None] is JavaScript's [-1]. *)
Fixpoint indexOf (p s : jsstring) {struct s} : option nat :=
  if startsWith p s then Some 0
  else match s with
       | [] => None
       | _ :: s' => option_map S (indexOf p s')
       end.

(** [s.slice(0, i)] and [s.slice(i)] for [0 <= i]. *)
Definition slice_to (i : nat) (s : jsstring) : jsstring := firstn i s.
Definition slice_from (i : nat) (s : jsstring) : jsstring := skipn i s.

(** [s.endsWith(p)] *)
Definition endsWith (s p : jsstring) : bool :=
  (length p <=? length s) && str_eqb (skipn (length s - length p) s) p.

(** White space and line terminators: the characters [trim] strips and the
    regular-expression class [\s] matches (the two sets coincide). *)
Definition isWhiteSpace (c : jschar) : bool :=
  ((9 <=? c) && (c <=? 13) || (c =? 32) || (c =? 160) || (c =? 5760)
   || (8192 <=? c) && (c <=? 8202) || (c =? 8232) || (c =? 8233)
   || (c =? 8239) || (c =? 8287) || (c =? 12288) || (c =? 65279))%N.

Fixpoint trimStart (s : jsstring) : jsstring :=
  match s with
  | c :: s' => if isWhiteSpace c then trimStart s' else s
  | [] => []
  end.

Definition trimEnd (s : jsstring) : jsstring := rev (trimStart (rev s)).

Definition trim (s : jsstring) : jsstring := trimEnd (trimStart s).

(** [parts.join(sep)] on strings. *)
Fixpoint join (sep : jsstring) (parts : list jsstring) : jsstring :=
  match parts with
  | [] => []
  | [p] => p
  | p :: ps => p ++ sep ++ join sep ps
  end.

(** [s.split('\n')]: the accumulator holds the current line. *)
Fixpoint split_lines_aux (cur : jsstring) (s : jsstring) : list jsstring :=
  match s with
  | [] => [cur]
  | c :: s' => if N.eqb c LF then cur :: split_lines_aux [] s'
               else split_lines_aux (cur ++ [c]) s'
  end.

Definition split_lines (s : jsstring) : list jsstring := split_lines_aux [] s.

(** Decimal rendering of a non-negative integer, as [String(n)] gives it. *)
Definition digits_of_uint (u : Decimal.uint) : jsstring :=
  (fix go (u : Decimal.uint) : jsstring :=
     match u with
     | Decimal.Nil => []
     | Decimal.D0 u' => 48%N :: go u'
     | Decimal.D1 u' => 49%N :: go u'
     | Decimal.D2 u' => 50%N :: go u'
     | Decimal.D3 u' => 51%N :: go u'
     | Decimal.D4 u' => 52%N :: go u'
     | Decimal.D5 u' => 53%N :: go u'
     | Decimal.D6 u' => 54%N :: go u'
     | Decimal.D7 u' => 55%N :: go u'
     | Decimal.D8 u' => 56%N :: go u'
     | Decimal.D9 u' => 57%N :: go u'
     end) u.

Definition decimal (n : N) : jsstring :=
  match n with
  | N0 => [48%N]
  | _ => digits_of_uint (N.to_uint n)
  end.

(** [p] occurs in [s] as a contiguous substring. *)
Definition Substring (p s : jsstring) : Prop :=
  exists pre post, s = pre ++ p ++ post.

Definition includes (s p : jsstring) : bool :=
  match indexOf p s with Some _ => true | None => false end.

End JsString.
Import JsString.

(* ================================================================== *)
(** ** The delimiter pools and [generateMarkers] *)

Record delimiter_set := { open : jschar; close : jschar; mid : jschar }.

Definition DELIMITER_SETS : list delimiter_set :=
  [ {| open := 0x0F12; close := 0x0F12; mid := 0x0FC7 |};
    {| open := 0xA9C1; close := 0xA9C2; mid := 0x0FD4 |};
    {| open := 0x1392; close := 0x1392; mid := 0x1393 |};
    {| open := 0xA188; close := 0xA188; mid := 0xA2B0 |};
    {| open := 0xAA5C; close := 0xAA5C; mid := 0xAA5F |};
    {| open := 0xA4F8; close := 0xA4F8; mid := 0xA4F9 |} ]%N.

Definition SUFFIX_POOL : list jschar :=
  [ 0x9F98; 0x9750; 0x9F49; 0x9EA4; 0x7228; 0x9A6B; 0x9C7B; 0x7FB4; 0x7287; 0x9A89;
    0x98DD; 0x53B5; 0x9747; 0x98CD; 0x99AB; 0x7065; 0x53BD; 0x53D2; 0x53D5; 0x8294 ]%N.

Record Markers := {
  TC_START : jsstring;
  TC_END : jsstring;
  NAME_START : jsstring;
  NAME_END : jsstring;
  ARGS_START : jsstring;
  ARGS_END : jsstring;
  RESULT_START : jsstring;
  RESULT_END : jsstring
}.

(** The three draws [Math.floor(Math.random() * pool.length)] of
    [generateMarkers] are its arguments: [r1] indexes [DELIMITER_SETS],
    [r2] and [r3] index [SUFFIX_POOL]. *)
Definition pick_set (r1 : nat) : delimiter_set :=
  nth r1 DELIMITER_SETS {| open := 0%N; close := 0%N; mid := 0%N |}.

Definition pick_suffix (r : nat) : jschar := nth r SUFFIX_POOL 0%N.

Definition generateMarkers (r1 r2 r3 : nat) : Markers :=
  let set := pick_set r1 in
  let suffix1 := pick_suffix r2 in
  let suffix2 := pick_suffix r3 in
  {| TC_START := [open set; suffix1; 0x1405%N];
     TC_END := [0x140A%N; suffix1; close set];
     NAME_START := [mid set; 0x25B8%N];
     NAME_END := [0x25C2%N; mid set];
     ARGS_START := [mid set; 0x25B9%N];
     ARGS_END := [0x25C3%N; mid set];
     RESULT_START := [open set; suffix2; 0x27EB%N];
     RESULT_END := [0x27EA%N; suffix2; close set] |}.

(** The eight tokens of a marker set, in the order of the source. *)
Definition tokens (m : Markers) : list jsstring :=
  [ TC_START m; TC_END m; NAME_START m; NAME_END m;
    ARGS_START m; ARGS_END m; RESULT_START m; RESULT_END m ].

(* ================================================================== *)
(** ** JSON documents and the JavaScript operations the program uses on them *)

Module Json.

#[warnings="-register-all"]
Inductive json :=
| JNull
| JBool (b : bool)
| JNum (q : Q)
| JStr (s : jsstring)
| JArr (l : list json)
| JObj (o : list (jsstring * json)).

Definition jsobj := list (jsstring * json).

(** A JavaScript value that may be [undefined] is an [option json]. *)
Definition jsval := option json.

(** Outcome of a statement that may raise a [TypeError]. *)
Inductive completion (A : Type) :=
| Normal (a : A)
| TypeError.
Arguments TypeError {A}.

Definition bind {A B : Type} (c : completion A) (k : A -> completion B) : completion B :=
  match c with
  | Normal a => k a
  | TypeError => TypeError
  end.

Notation "x <- c ;; k" := (bind c (fun x => k))
  (at level 61, c at next level, right associativity).

(** Truthiness ([!!v]). *)
Definition truthy (j : json) : bool :=
  match j with
  | JNull => false
  | JBool b => b
  | JNum q => negb (Qeq_bool q 0)
  | JStr [] => false
  | JStr (_ :: _) => true
  | JArr _ => true
  | JObj _ => true
  end.

Definition truthy_val (v : jsval) : bool :=
  match v with
  | Some j => truthy j
  | None => false
  end.

(** Property keys: a name ([v.name]) or an array index ([v[n]]). *)
Inductive pkey :=
| Key (name : jsstring)
| Index (n : nat).

Definition key_name (k : pkey) : jsstring :=
  match k with
  | Key s => s
  | Index n => decimal (N.of_nat n)
  end.

Fixpoint obj_get (k : jsstring) (o : jsobj) : jsval :=
  match o with
  | [] => None
  | (k', v) :: o' => if str_eqb k' k then Some v else obj_get k o'
  end.

(** Assignment to a property keeps the position of an existing key and
    appends a new one. *)
Fixpoint obj_set (k : jsstring) (x : json) (o : jsobj) : jsobj :=
  match o with
  | [] => [(k, x)]
  | (k', v) :: o' => if str_eqb k' k then (k', x) :: o' else (k', v) :: obj_set k x o'
  end.

Fixpoint obj_delete (k : jsstring) (o : jsobj) : jsobj :=
  match o with
  | [] => []
  | (k', v) :: o' => if str_eqb k' k then obj_delete k o' else (k', v) :: obj_delete k o'
  end.

Fixpoint list_set (n : nat) (x : json) (l : list json) : list json :=
  match n, l with
  | 0, _ :: l' => x :: l'
  | 0, [] => [x]
  | S n', y :: l' => y :: list_set n' x l'
  | S n', [] => JNull :: list_set n' x []
  end.

(** Reading a property of a value that is neither [undefined] nor [null].
    Numbers, booleans and strings have none of the names the program
    reads; a string has its characters at the indices. *)
Definition read (v : json) (k : pkey) : jsval :=
  match v, k with
  | JObj o, _ => obj_get (key_name k) o
  | JArr l, Index n => nth_error l n
  | JStr s, Index n => option_map (fun c => JStr [c]) (nth_error s n)
  | _, _ => None
  end.

(** [v.k]: a [TypeError] on [undefined] and [null]. *)
Definition get (v : jsval) (k : pkey) : completion jsval :=
  match v with
  | None => TypeError
  | Some JNull => TypeError
  | Some j => Normal (read j k)
  end.

(** [v?.k] *)
Definition get_opt (v : jsval) (k : pkey) : jsval :=
  match v with
  | None => None
  | Some JNull => None
  | Some j => read j k
  end.

(** [v.k = x] in strict mode: a [TypeError] on primitives.  A named
    property put on an array is not part of its JSON text, so the array is
    unchanged as a document. *)
Definition write (v : json) (k : pkey) (x : json) : completion json :=
  match v, k with
  | JObj o, _ => Normal (JObj (obj_set (key_name k) x o))
  | JArr l, Index n => Normal (JArr (list_set n x l))
  | JArr l, Key _ => Normal (JArr l)
  | _, _ => TypeError
  end.

(** [delete v.k] on an object or an array. *)
Definition delete (v : json) (k : jsstring) : json :=
  match v with
  | JObj o => JObj (obj_delete k o)
  | _ => v
  end.

(** Assignment through a path, [v.k1.k2...  = ...]: [f] acts on the value
    the path leads to, and the containers on the way are rebuilt. *)
Fixpoint modify (path : list pkey) (f : json -> completion json) (v : json)
  : completion json :=
  match path with
  | [] => f v
  | k :: p =>
      c <- get (Some v) k ;;
      match c with
      | None => TypeError
      | Some c => c' <- modify p f c ;; write v k c'
      end
  end.

(** [typeof v === 'object'] for a truthy [v]. *)
Definition is_object (j : json) : bool :=
  match j with
  | JObj _ | JArr _ => true
  | _ => false
  end.

Definition k_choices := Key (lit "choices").
Definition k_delta := Key (lit "delta").
Definition k_content := Key (lit "content").
Definition k_message := Key (lit "message").
Definition k_finish_reason := Key (lit "finish_reason").
Definition k_tool_calls := Key (lit "tool_calls").

(** [cloneJson]: a deep copy through [JSON.parse(JSON.stringify(obj))].
    Documents are values here, so the copy is the document itself. *)
Definition cloneJson (j : json) : json := j.

End Json.
Import Json.

(** The host: the built-ins of the JavaScript runtime the program calls.
    [Date_now k] is the reading of the clock when the call of ordinal [k]
    is pushed by [parse]. *)
Record Host := {
  JSON_parse : jsstring -> option json;
  JSON_stringify : json -> jsstring;
  Number_toString : Q -> jsstring;
  Date_now : nat -> N
}.

(* ================================================================== *)
(** ** The text protocol parser: [ToolCallDelimiter.parse] *)

(** The regular expression of [parse] is a sequence of three kinds of
    items: an escaped marker (a literal), [\s*] and the lazy capture
    [([\s\S]*?)]. *)
Inductive re_item :=
| Lit (s : jsstring)
| WsStar
| LazyAny.

(** [\s*] followed by the continuation [k]: greedy, giving characters
    back one at a time when [k] fails. *)
Fixpoint greedy_ws {R : Type} (k : jsstring -> option R) (s : jsstring) : option R :=
  match s with
  | c :: s' =>
      if isWhiteSpace c
      then match greedy_ws k s' with
           | Some r => Some r
           | None => k s
           end
      else k s
  | [] => k s
  end.

(** [([\s\S]*?)] followed by [k]: lazy, the capture grows one character
    at a time while [k] fails. *)
Fixpoint lazy_any {R : Type} (k : jsstring -> option R) (s : jsstring)
  : option (jsstring * R) :=
  match k s with
  | Some r => Some ([], r)
  | None =>
      match s with
      | [] => None
      | c :: s' =>
          match lazy_any k s' with
          | Some (cap, r) => Some (c :: cap, r)
          | None => None
          end
      end
  end.

(** Backtracking match of a sequence of items at the head of [s]: the
    captures and the text after the match. *)
Fixpoint re_match (items : list re_item) (s : jsstring)
  : option (list jsstring * jsstring) :=
  match items with
  | [] => Some ([], s)
  | Lit l :: items' =>
      if startsWith l s then re_match items' (skipn (length l) s) else None
  | WsStar :: items' => greedy_ws (re_match items') s
  | LazyAny :: items' =>
      match lazy_any (re_match items') s with
      | Some (cap, (caps, rest)) => Some (cap :: caps, rest)
      | None => None
      end
  end.

(** Leftmost match in [s]: the text before it, the captures, the text after. *)
Fixpoint re_search (items : list re_item) (s : jsstring)
  : option (jsstring * list jsstring * jsstring) :=
  match re_match items s with
  | Some (caps, rest) => Some ([], caps, rest)
  | None =>
      match s with
      | [] => None
      | c :: s' =>
          match re_search items s' with
          | Some (before, caps, rest) => Some (c :: before, caps, rest)
          | None => None
          end
      end
  end.

Record ToolCall := {
  tc_id : jsstring;
  tc_name : jsstring;
  tc_arguments : jsstring
}.

(** [{ id, type: 'function', function: { name, arguments } }] *)
Definition toolCall_json (tc : ToolCall) : json :=
  JObj [ (lit "id", JStr (tc_id tc));
         (lit "type", JStr (lit "function"));
         (lit "function", JObj [ (lit "name", JStr (tc_name tc));
                                  (lit "arguments", JStr (tc_arguments tc)) ]) ].

Record ParseResult := {
  toolCalls : list ToolCall;
  cleanContent : jsstring
}.

Section Parser.

Variable H : Host.
Variable m : Markers.

Definition call_regex : list re_item :=
  [ Lit (TC_START m); WsStar;
    Lit (NAME_START m); LazyAny; Lit (NAME_END m); WsStar;
    Lit (ARGS_START m); LazyAny; Lit (ARGS_END m); WsStar;
    Lit (TC_END m) ].

(** [`call_${Date.now()}_${idx}`] *)
Definition call_id (idx : nat) : jsstring :=
  lit "call_" ++ decimal (Date_now H idx) ++ lit "_" ++ decimal (N.of_nat idx).

(** The [while ((match = regex.exec(content)) !== null)] loop.  The
    global regex resumes after the previous match, that is on [rest];
    a match is never empty because the call-start marker is not, so the
    length of the text bounds the number of rounds. *)
Fixpoint parse_loop (fuel : nat) (s : jsstring) (idx : nat) : list ToolCall :=
  match fuel with
  | 0 => []
  | S fuel' =>
      match re_search call_regex s with
      | None => []
      | Some (_, caps, rest) =>
          let name := trim (nth 0 caps []) in
          let argsStr := trim (nth 1 caps []) in
          match JSON_parse H argsStr with
          | None => parse_loop fuel' rest idx
          | Some _ =>
              {| tc_id := call_id idx; tc_name := name; tc_arguments := argsStr |}
                :: parse_loop fuel' rest (S idx)
          end
      end
  end.

(** [content.replace(regex, '')] *)
Fixpoint replace_loop (fuel : nat) (s : jsstring) : jsstring :=
  match fuel with
  | 0 => s
  | S fuel' =>
      match re_search call_regex s with
      | None => s
      | Some (before, _, rest) => before ++ replace_loop fuel' rest
      end
  end.

(** The calls the loop pushes on [content], the first with ordinal [idx]. *)
Definition find_calls (content : jsstring) (idx : nat) : list ToolCall :=
  parse_loop (S (length content)) content idx.

Definition replace_calls (content : jsstring) : jsstring :=
  replace_loop (S (length content)) content.

Definition parse (content : jsstring) : ParseResult :=
  {| toolCalls := find_calls content 0;
     cleanContent := trim (replace_calls content) |}.

(** *** The non-stream finisher (the tail of [handleRequest]) *)

Definition primary_message_content (data : json) : jsval :=
  get_opt (get_opt (get_opt (get_opt (Some data) k_choices) (Index 0)) k_message) k_content.

Definition finish (requestHasTools : bool) (data : json) : completion json :=
  let content := primary_message_content data in
  if requestHasTools && truthy_val content then
    match content with
    | Some (JStr text) =>
        let r := parse text in
        match toolCalls r with
        | [] => Normal data
        | _ :: _ =>
            d1 <- modify [k_choices; Index 0; k_message]
                    (fun msg => write msg k_tool_calls
                                  (JArr (List.map toolCall_json (toolCalls r)))) data ;;
            d2 <- modify [k_choices; Index 0; k_message]
                    (fun msg => write msg k_content
                                  (match cleanContent r with
                                   | [] => JNull
                                   | _ :: _ => JStr (cleanContent r)
                                   end)) d1 ;;
            modify [k_choices; Index 0]
              (fun c => write c k_finish_reason (JStr (lit "tool_calls"))) d2
        end
    | _ => TypeError
    end
  else Normal data.

End Parser.

(* ================================================================== *)
(** ** Bytes and text: [TextDecoder], [Buffer.from], [Buffer.toString]

    The upstream is read as bytes; [TextDecoder] turns them into strings,
    [transformer.write] turns a string into a [Buffer] (UTF-8) and
    [transform] reads the text of the [Buffer] back.  The codec is the
    UTF-8 decoder and encoder of the Encoding Standard, with replacement
    of errors by U+FFFD. *)

Definition Buffer := list Byte.byte.

Module Utf8.

Local Open Scope N_scope.

Definition REPLACEMENT : N := 0xFFFD.

(** A code point that is not a surrogate. *)
Definition is_scalar (cp : N) : bool :=
  (cp <? 0xD800) || ((0xDFFF <? cp) && (cp <? 0x110000)).

(** The code units of a code point in a JavaScript string. *)
Definition utf16 (cp : N) : jsstring :=
  if cp <? 0x10000 then [cp]
  else [0xD800 + (cp - 0x10000) / 0x400; 0xDC00 + (cp - 0x10000) mod 0x400].

Definition is_high (c : jschar) : bool := (0xD800 <=? c) && (c <=? 0xDBFF).
Definition is_low (c : jschar) : bool := (0xDC00 <=? c) && (c <=? 0xDFFF).

(** The scalar values of a string, as the UTF-8 encoder reads them: a
    surrogate pair is one code point, a lone surrogate is U+FFFD. *)
Fixpoint scalar_values (s : jsstring) : list N :=
  match s with
  | [] => []
  | c :: s' =>
      if is_high c then
        match s' with
        | d :: s'' =>
            if is_low d
            then (0x10000 + (c - 0xD800) * 0x400 + (d - 0xDC00)) :: scalar_values s''
            else REPLACEMENT :: scalar_values s'
        | [] => [REPLACEMENT]
        end
      else if is_low c then REPLACEMENT :: scalar_values s'
      else c :: scalar_values s'
  end.

Definition byte_of (n : N) : Byte.byte :=
  match Byte.of_N n with
  | Some b => b
  | None => Byte.x00
  end.

(** The UTF-8 bytes of a scalar value. *)
Definition encode (cp : N) : Buffer :=
  if cp <? 0x80 then [byte_of cp]
  else if cp <? 0x800 then
    [byte_of (0xC0 + cp / 64); byte_of (0x80 + cp mod 64)]
  else if cp <? 0x10000 then
    [byte_of (0xE0 + cp / 4096); byte_of (0x80 + (cp / 64) mod 64);
     byte_of (0x80 + cp mod 64)]
  else
    [byte_of (0xF0 + cp / 262144); byte_of (0x80 + (cp / 4096) mod 64);
     byte_of (0x80 + (cp / 64) mod 64); byte_of (0x80 + cp mod 64)].

(** The state of the UTF-8 decoder. *)
Record decoder := {
  code_point : N;
  bytes_seen : N;
  bytes_needed : N;
  lower_boundary : N;
  upper_boundary : N
}.

Definition start : decoder :=
  {| code_point := 0; bytes_seen := 0; bytes_needed := 0;
     lower_boundary := 0x80; upper_boundary := 0xBF |}.

(** A byte met when no sequence is open: the new state and the code
    points emitted.  [byte mod 32] is [byte & 0x1F], and so on. *)
Definition lead (byte : N) : decoder * list N :=
  if byte <=? 0x7F then (start, [byte])
  else if (0xC2 <=? byte) && (byte <=? 0xDF) then
    ({| code_point := byte mod 32; bytes_seen := 0; bytes_needed := 1;
        lower_boundary := 0x80; upper_boundary := 0xBF |}, [])
  else if (0xE0 <=? byte) && (byte <=? 0xEF) then
    ({| code_point := byte mod 16; bytes_seen := 0; bytes_needed := 2;
        lower_boundary := if byte =? 0xE0 then 0xA0 else 0x80;
        upper_boundary := if byte =? 0xED then 0x9F else 0xBF |}, [])
  else if (0xF0 <=? byte) && (byte <=? 0xF4) then
    ({| code_point := byte mod 8; bytes_seen := 0; bytes_needed := 3;
        lower_boundary := if byte =? 0xF0 then 0x90 else 0x80;
        upper_boundary := if byte =? 0xF4 then 0x8F else 0xBF |}, [])
  else (start, [REPLACEMENT]).

(** The handler of the decoder for one byte.  A byte outside the
    boundaries ends the open sequence with an error and is read again as
    the first byte of a sequence; [code_point * 64 + byte mod 64] is
    [(code_point << 6) | (byte & 0x3F)]. *)
Definition handler (d : decoder) (byte : N) : decoder * list N :=
  if bytes_needed d =? 0 then lead byte
  else if (byte <? lower_boundary d) || (upper_boundary d <? byte) then
    let '(d', out) := lead byte in (d', REPLACEMENT :: out)
  else
    let cp := code_point d * 64 + byte mod 64 in
    if bytes_seen d + 1 =? bytes_needed d then (start, [cp])
    else ({| code_point := cp; bytes_seen := bytes_seen d + 1;
             bytes_needed := bytes_needed d;
             lower_boundary := 0x80; upper_boundary := 0xBF |}, []).

Fixpoint decode_bytes (d : decoder) (bytes : Buffer) : decoder * list N :=
  match bytes with
  | [] => (d, [])
  | b :: bytes' =>
      let '(d1, out1) := handler d (Byte.to_N b) in
      let '(d2, out2) := decode_bytes d1 bytes' in
      (d2, out1 ++ out2)
  end.

End Utf8.

(** [new TextDecoder()]: the UTF-8 decoder and the flag that tells
    whether the first code point, a byte order mark or not, has passed. *)
Record TextDecoder := {
  td_decoder : Utf8.decoder;
  BOM_seen : bool
}.

Definition TextDecoder_new : TextDecoder :=
  {| td_decoder := Utf8.start; BOM_seen := false |}.

(** The byte order mark is dropped when it is the first code point. *)
Definition strip_BOM (seen : bool) (cps : list N) : list N :=
  if seen then cps
  else match cps with
       | cp :: rest => if N.eqb cp 0xFEFF then rest else cps
       | [] => []
       end.

(** [decoder.decode(value, { stream: true })]: an unfinished sequence at
    the end of [value] stays in the decoder. *)
Definition TextDecoder_decode (td : TextDecoder) (value : Buffer)
  : TextDecoder * jsstring :=
  let '(d, cps) := Utf8.decode_bytes (td_decoder td) value in
  ({| td_decoder := d; BOM_seen := match cps with [] => BOM_seen td | _ :: _ => true end |},
   flat_map Utf8.utf16 (strip_BOM (BOM_seen td) cps)).

(** [Buffer.from(s, 'utf8')], the conversion [write] makes of a string. *)
Definition Buffer_from (s : jsstring) : Buffer :=
  flat_map Utf8.encode (Utf8.scalar_values s).

(** [chunk.toString('utf8')]: the whole buffer is decoded, an unfinished
    sequence at its end is an error. *)
Definition Buffer_toString (chunk : Buffer) : jsstring :=
  let '(d, cps) := Utf8.decode_bytes Utf8.start chunk in
  flat_map Utf8.utf16
    (cps ++ if N.eqb (Utf8.bytes_needed d) 0 then [] else [Utf8.REPLACEMENT]).

(* ================================================================== *)
(** ** SSE framing: [SseEventParser], [sseEncodeData], [sseEncodeJson] *)

Definition NLNL : jsstring := [LF; LF].

(** The [while (true)] loop of [pushText]: every round removes at least
    the two characters of the separator from the buffer. *)
Fixpoint pushText_loop (fuel : nat) (buffer : jsstring) : list jsstring * jsstring :=
  match fuel with
  | 0 => ([], buffer)
  | S fuel' =>
      match indexOf NLNL buffer with
      | None => ([], buffer)
      | Some idx =>
          let rawEvent := slice_to idx buffer in
          let '(events, buffer') := pushText_loop fuel' (slice_from (idx + 2) buffer) in
          (rawEvent :: events, buffer')
      end
  end.

(** [pushText(text)]: the events completed by [text] and the new buffer. *)
Definition pushText (buffer text : jsstring) : list jsstring * jsstring :=
  pushText_loop (length (buffer ++ text)) (buffer ++ text).

Definition extractDataLines (rawEvent : jsstring) : list jsstring :=
  flat_map (fun line =>
              if startsWith (lit "data:") line
              then [trimStart (slice_from 5 line)]
              else [])
           (split_lines rawEvent).

Definition DONE : jsstring := lit "[DONE]".

Definition isDoneEvent (rawEvent : jsstring) : bool :=
  match extractDataLines rawEvent with
  | [d] => str_eqb d DONE
  | _ => false
  end.

Definition sseEncodeData (data : jsstring) : jsstring :=
  lit "data: " ++ data ++ NLNL.

Section Transcoder.

Variable H : Host.
Variable m : Markers.

(** [parseJsonFromEvent]: JavaScript's [null] is [JNull]. *)
Definition parseJsonFromEvent (rawEvent : jsstring) : json :=
  match extractDataLines rawEvent with
  | [] => JNull
  | datas =>
      if isDoneEvent rawEvent then JObj [(lit "__done", JBool true)]
      else match JSON_parse H (join [LF] datas) with
           | Some j => j
           | None => JObj [(lit "__raw", JStr rawEvent)]
           end
  end.

Definition sseEncodeJson (obj : json) : jsstring :=
  sseEncodeData (JSON_stringify H obj).

(** What the transformer hands to [this.push]: the encoding of a JSON
    event, or text. *)
Inductive pushed :=
| PushJson (evt : json)
| PushText (s : jsstring).

Definition wire (p : pushed) : jsstring :=
  match p with
  | PushJson evt => sseEncodeJson evt
  | PushText s => s
  end.

(** *** The state of one transformer *)

Record TState := {
  pendingText : jsstring;
  bufferingTool : bool;
  toolBuffer : jsstring;
  lastEnvelope : json       (* null until an envelope is seen *)
}.

Definition initial : TState :=
  {| pendingText := []; bufferingTool := false;
     toolBuffer := []; lastEnvelope := JNull |}.

Definition startMarker : jsstring := TC_START m.

Fixpoint findPartial_loop (i : nat) (text marker : jsstring) : nat :=
  match i with
  | 0 => length text
  | S i' =>
      if endsWith text (slice_to i marker) then length text - i
      else findPartial_loop i' text marker
  end.

Definition findPartialMatchEndIndex (text marker : jsstring) : nat :=
  findPartial_loop (length marker - 1) text marker.

Definition splitByMarker (text marker : jsstring) : option (jsstring * jsstring) :=
  match indexOf marker text with
  | None => None
  | Some idx => Some (slice_to idx text, slice_from idx text)
  end.

(** [evt.choices[0].delta = evt.choices[0].delta || {};
     evt.choices[0].delta.content = text] *)
Definition patch_content (evt : json) (text : jsstring) : completion json :=
  modify [k_choices; Index 0]
    (fun c0 =>
       d <- get (Some c0) k_delta ;;
       let d' := match d with
                 | Some dv => if truthy dv then dv else JObj []
                 | None => JObj []
                 end in
       c1 <- write c0 k_delta d' ;;
       d'' <- write d' k_content (JStr text) ;;
       write c1 k_delta d'')
    evt.

(** [if (outEvt.choices?.[0]?.delta && typeof outEvt.choices[0].delta === 'object')
       delete outEvt.choices[0].delta.content] *)
Definition remove_content (outEvt : json) : completion json :=
  match get_opt (get_opt (get_opt (Some outEvt) k_choices) (Index 0)) k_delta with
  | Some d =>
      if truthy d && is_object d
      then modify [k_choices; Index 0; k_delta]
             (fun d => Normal (delete d (lit "content"))) outEvt
      else Normal outEvt
  | None => Normal outEvt
  end.

Definition default_choice : json :=
  JObj [ (lit "index", JNum 0); (lit "delta", JObj []); (lit "finish_reason", JNull) ].

(** [toolCalls.map((tc, i) => ({ index: i, ...tc }))] *)
Fixpoint indexed_calls (i : nat) (tcs : list ToolCall) : list json :=
  match tcs with
  | [] => []
  | tc :: tcs' =>
      match toolCall_json tc with
      | JObj fields => JObj ((lit "index", JNum (inject_Z (Z.of_nat i))) :: fields)
      | j => j
      end :: indexed_calls (S i) tcs'
  end.

Definition injectToolCallsEvent (baseEvent : json) (tcs : list ToolCall)
  : completion json :=
  let evt := if truthy (cloneJson baseEvent) then cloneJson baseEvent else JObj [] in
  ec <- match read evt k_choices with
        | Some (JArr (c :: l)) => Normal (evt, c :: l)
        | _ => evt' <- write evt k_choices (JArr [default_choice]) ;;
               Normal (evt', [default_choice])
        end ;;
  let '(evt1, choices) := ec in
  let choice0 := match choices with
                 | c :: _ => if truthy c then c else default_choice
                 | [] => default_choice
                 end in
  let d' := match read choice0 k_delta with
            | Some dv => if truthy dv && is_object dv then dv else JObj []
            | None => JObj []
            end in
  c1 <- write choice0 k_delta d' ;;
  d'' <- write d' k_tool_calls (JArr (indexed_calls 0 tcs)) ;;
  c2 <- write c1 k_delta d'' ;;
  c3 <- write c2 k_finish_reason JNull ;;
  write evt1 k_choices (JArr (list_set 0 c3 choices)).

(** *** Outcomes: the pushes made, and the next state unless a
    [TypeError] escaped the handler.  An escaped error leaves the stream
    wedged: nothing more is pushed, and [flush] never runs. *)

Record outcome := {
  pushes : list pushed;
  next : option TState
}.

(** The pushes of a handler, statement by statement, up to the first
    statement that throws. *)
Fixpoint emit_all (steps : list (completion (list pushed))) : list pushed * bool :=
  match steps with
  | [] => ([], true)
  | Normal ps :: steps' =>
      let '(qs, completed) := emit_all steps' in (ps ++ qs, completed)
  | TypeError :: _ => ([], false)
  end.

Definition emit (st' : TState) (steps : list (completion (list pushed))) : outcome :=
  let '(ps, completed) := emit_all steps in
  {| pushes := ps; next := if completed then Some st' else None |}.

Definition push_evt (c : completion json) : completion (list pushed) :=
  evt <- c ;; Normal [PushJson evt].

Definition nonempty {A : Type} (s : list A) : bool :=
  match s with
  | [] => false
  | _ :: _ => true
  end.

(** The [[DONE]] branch of [transform]. *)
Definition on_done (st : TState) : outcome :=
  let sentinel := Normal [PushText (sseEncodeData DONE)] in
  if nonempty (toolBuffer st) then
    let r := parse H m (toolBuffer st) in
    emit st
      [ if nonempty (cleanContent r) && truthy (lastEnvelope st) then
          let evt := cloneJson (lastEnvelope st) in
          if truthy_val (read evt k_choices)
             && truthy_val (get_opt (read evt k_choices) (Index 0))
          then push_evt (patch_content evt (cleanContent r))
          else Normal [PushJson evt]
        else Normal [];
        if nonempty (toolCalls r) && truthy (lastEnvelope st) then
          push_evt (injectToolCallsEvent (lastEnvelope st) (toolCalls r))
        else Normal [];
        sentinel ]
  else if nonempty (pendingText st) && truthy (lastEnvelope st) then
    emit st
      [ push_evt (patch_content (cloneJson (lastEnvelope st)) (pendingText st));
        sentinel ]
  else emit st [ sentinel ].

Definition set_lastEnvelope (st : TState) (parsed : json) : TState :=
  {| pendingText := pendingText st;
     bufferingTool := bufferingTool st; toolBuffer := toolBuffer st;
     lastEnvelope := parsed |}.

(** The rewrite of [delta.content]: to [text], or removed when [text] is empty. *)
Definition rewrite_content (parsed : json) (text : jsstring) : completion (list pushed) :=
  if nonempty text
  then push_evt (patch_content (cloneJson parsed) text)
  else push_evt (remove_content (cloneJson parsed)).

(** A JSON envelope whose [choices[0].delta.content] is the non-empty
    string [content]; [st] already records the envelope. *)
Definition on_content (st : TState) (parsed : json) (content : jsstring) : outcome :=
  if bufferingTool st then
    emit {| pendingText := pendingText st;
            bufferingTool := true;
            toolBuffer := toolBuffer st ++ content;
            lastEnvelope := lastEnvelope st |}
         [ push_evt (remove_content (cloneJson parsed)) ]
  else
    let combined := pendingText st ++ content in
    match splitByMarker combined startMarker with
    | Some (before, after) =>
        emit {| pendingText := [];
                bufferingTool := true;
                toolBuffer := after;
                lastEnvelope := lastEnvelope st |}
             [ rewrite_content parsed before ]
    | None =>
        let safeEnd := findPartialMatchEndIndex combined startMarker in
        let safeText := slice_to safeEnd combined in
        let tail := slice_from safeEnd combined in
        emit {| pendingText := tail;
                bufferingTool := false;
                toolBuffer := toolBuffer st;
                lastEnvelope := lastEnvelope st |}
             [ rewrite_content parsed safeText ]
    end.

(** The body of the [for (const rawEvent of rawEvents)] loop. *)
Definition on_event (st : TState) (rawEvent : jsstring) : outcome :=
  if isDoneEvent rawEvent then on_done st
  else
    let parsed := parseJsonFromEvent rawEvent in
    if negb (truthy parsed) || truthy_val (read parsed (Key (lit "__raw")))
    then emit st [ Normal [PushText (rawEvent ++ NLNL)] ]
    else
      let st1 := set_lastEnvelope st parsed in
      match read parsed k_choices with
      | Some (JArr (c0 :: _)) =>
          match get_opt (get_opt (Some c0) k_delta) k_content with
          | Some (JStr (c :: content')) => on_content st1 parsed (c :: content')
          | _ => emit st1 [ Normal [PushJson parsed] ]
          end
      | _ => emit st1 [ Normal [PushJson parsed] ]
      end.

(** The events of one chunk, in order, until a handler throws. *)
Fixpoint on_events (st : TState) (rawEvents : list jsstring) : outcome :=
  match rawEvents with
  | [] => {| pushes := []; next := Some st |}
  | rawEvent :: rest =>
      let o := on_event st rawEvent in
      match next o with
      | Some st' =>
          let o' := on_events st' rest in
          {| pushes := pushes o ++ pushes o'; next := next o' |}
      | None => o
      end
  end.

(** [transform(chunk, encoding, callback)]: [chunk] is a [Buffer] and
    [buffer] is [parser.buffer]. *)
Definition transform (buffer : jsstring) (st : TState) (chunk : Buffer)
  : jsstring * outcome :=
  let text := Buffer_toString chunk in
  let '(rawEvents, buffer') := pushText buffer text in
  (buffer', on_events st rawEvents).

(** [transformer.write(s)]: the stream makes a [Buffer] of the string
    and calls [transform] with it. *)
Definition transformer_write (buffer : jsstring) (st : TState) (s : jsstring)
  : jsstring * outcome :=
  transform buffer st (Buffer_from s).

(** [flush(callback)] *)
Definition flush (st : TState) : outcome :=
  let r := parse H m (toolBuffer st) in
  emit st
    ( (if nonempty (pendingText st) && truthy (lastEnvelope st)
          && negb (bufferingTool st)
       then push_evt (patch_content (cloneJson (lastEnvelope st)) (pendingText st))
       else Normal [])
      :: (if nonempty (toolBuffer st) && truthy (lastEnvelope st)
          then [ if nonempty (cleanContent r)
                 then push_evt (patch_content (cloneJson (lastEnvelope st)) (cleanContent r))
                 else Normal [];
                 if nonempty (toolCalls r)
                 then push_evt (injectToolCallsEvent (lastEnvelope st) (toolCalls r))
                 else Normal [] ]
          else []) ).

(** The loop of [handleRequest] over the chunks read from the upstream:
    [transformer.write(decoder.decode(value, { stream: true }))]. *)
Fixpoint feed (decoder : TextDecoder) (buffer : jsstring) (st : TState)
         (values : list Buffer) : outcome :=
  match values with
  | [] => {| pushes := []; next := Some st |}
  | value :: rest =>
      let '(decoder', s) := TextDecoder_decode decoder value in
      let '(buffer', o) := transformer_write buffer st s in
      match next o with
      | Some st' =>
          let o' := feed decoder' buffer' st' rest in
          {| pushes := pushes o ++ pushes o'; next := next o' |}
      | None => o
      end
  end.

(** A whole stream: the chunks of the upstream, then its end
    ([transformer.end()], which runs [flush]). *)
Definition run (values : list Buffer) : list pushed :=
  let o := feed TextDecoder_new [] initial values in
  match next o with
  | Some st => pushes o ++ pushes (flush st)
  | None => pushes o
  end.

(** The bytes the client receives. *)
Definition wire_output (ps : list pushed) : jsstring :=
  concat (List.map wire ps).

End Transcoder.

(* ================================================================== *)
(** ** The request transformer: [transformRequest], [mergeAdjacentMessages] *)

Definition dq : jsstring := [34%N].

Definition str (s : string) : json := JStr (lit s).
Arguments str s%_string.

Definition k_role := Key (lit "role").
Definition k_messages := Key (lit "messages").
Definition k_tools := Key (lit "tools").
Definition k_function := Key (lit "function").
Definition k_name := Key (lit "name").

Definition SCIFI_TOOL_NAME : jsstring := lit "hyper_dimensional_resonance_calibrator".

Definition SCIFI_TOOL_DEF : json :=
  JObj
    [ (lit "type", str "function");
      (lit "function",
       JObj
         [ (lit "name", JStr SCIFI_TOOL_NAME);
           (lit "description",
            str "Calibrates cross-dimensional subspace resonance frequencies to stabilize the quantum flux of Einstein-Rosen bridges. Use only when dimensional rift fluctuation values exceed 5.0.");
           (lit "parameters",
            JObj
              [ (lit "type", str "object");
                (lit "properties",
                 JObj
                   [ (lit "dimension_id",
                      JObj [ (lit "type", str "string");
                             (lit "description",
                              str "Target dimension coordinates, e.g. 'C-137'") ]);
                     (lit "flux_threshold",
                      JObj [ (lit "type", str "number");
                             (lit "description",
                              str "Maximum allowable flux fluctuation threshold") ]);
                     (lit "stabilization_mode",
                      JObj [ (lit "type", str "string");
                             (lit "enum",
                              JArr [str "static"; str "dynamic"; str "hybrid"]);
                             (lit "default", str "static") ]) ]);
                (lit "required",
                 JArr [str "dimension_id"; str "flux_threshold"]) ]) ]) ].

(** [v === 'literal'] *)
Definition is_str (v : jsval) (s : jsstring) : bool :=
  match v with
  | Some (JStr t) => str_eqb t s
  | _ => false
  end.

(** [Array.isArray(v) && v.length > 0] *)
Definition is_nonempty_array (v : jsval) : bool :=
  match v with
  | Some (JArr (_ :: _)) => true
  | _ => false
  end.

Definition array_items (v : jsval) : list json :=
  match v with
  | Some (JArr l) => l
  | _ => []
  end.

Definition hasToolHistory (body : json) : bool :=
  match get_opt (Some body) k_messages with
  | Some (JArr msgs) =>
      existsb (fun msg =>
                 is_str (get_opt (Some msg) k_role) (lit "tool")
                 || (is_str (get_opt (Some msg) k_role) (lit "assistant")
                     && is_nonempty_array (get_opt (Some msg) k_tool_calls)))
              msgs
  | _ => false
  end.

(** [a === b] on JSON values: two distinct objects or arrays are never
    identical. *)
Definition strict_eq (a b : jsval) : bool :=
  match a, b with
  | None, None => true
  | Some JNull, Some JNull => true
  | Some (JBool x), Some (JBool y) => Bool.eqb x y
  | Some (JNum x), Some (JNum y) => Qeq_bool x y
  | Some (JStr x), Some (JStr y) => str_eqb x y
  | _, _ => false
  end.

(** The own enumerable properties copied by [{ ...v }]. *)
Fixpoint index_entries {A : Type} (f : A -> json) (i : nat) (l : list A) : jsobj :=
  match l with
  | [] => []
  | x :: l' => (decimal (N.of_nat i), f x) :: index_entries f (S i) l'
  end.

Definition spread (v : json) : jsobj :=
  match v with
  | JObj o => o
  | JArr l => index_entries (fun x => x) 0 l
  | JStr s => index_entries (fun c => JStr [c]) 0 s
  | _ => []
  end.

(** Iterating a string yields its code points: a surrogate pair stays together. *)
Fixpoint code_points (s : jsstring) : list jsstring :=
  match s with
  | [] => []
  | c :: s' =>
      match s' with
      | d :: s'' =>
          if ((0xD800 <=? c) && (c <=? 0xDBFF) && (0xDC00 <=? d) && (d <=? 0xDFFF))%N
          then match code_points s' with
               | _ :: cps => [c; d] :: cps
               | [] => [[c; d]]
               end
          else [c] :: code_points s'
      | [] => [[c]]
      end
  end.

Fixpoint map_completion {A B : Type} (f : A -> completion B) (l : list A)
  : completion (list B) :=
  match l with
  | [] => Normal []
  | x :: l' => y <- f x ;; ys <- map_completion f l' ;; Normal (y :: ys)
  end.

Section Request.

Variable H : Host.
Variable m : Markers.

(** String conversion, as a template literal or [+] with a string does it. *)
Fixpoint ToString (j : json) : jsstring :=
  match j with
  | JNull => lit "null"
  | JBool true => lit "true"
  | JBool false => lit "false"
  | JNum q => Number_toString H q
  | JStr s => s
  | JArr l =>
      join (lit ",")
           (List.map (fun x => match x with
                               | JNull => []
                               | _ => ToString x
                               end) l)
  | JObj _ => lit "[object Object]"
  end.

(** [`${v}`] *)
Definition template (v : jsval) : jsstring :=
  match v with
  | None => lit "undefined"
  | Some j => ToString j
  end.

(** [`${v || ''}`] *)
Definition or_empty (v : jsval) : jsstring :=
  match v with
  | Some j => if truthy j then ToString j else []
  | None => []
  end.

(** [`${JSON.stringify(v)}`]; [JSON.stringify(undefined)] is [undefined]. *)
Definition stringified (v : jsval) : jsstring :=
  match v with
  | None => lit "undefined"
  | Some j => JSON_stringify H j
  end.

Definition exampleToolName : jsstring := lit "get_current_weather".

Definition exampleArgs : jsstring :=
  lit "{" ++ dq ++ lit "location" ++ dq ++ lit ": " ++ dq ++ lit "Tokyo" ++ dq
  ++ lit ", " ++ dq ++ lit "unit" ++ dq ++ lit ": " ++ dq ++ lit "celsius" ++ dq ++ lit "}".

(** One entry of the tool list of the prompt. *)
Definition tool_line (t : json) : completion jsstring :=
  f <- get (Some t) k_function ;;
  name <- get f k_name ;;
  description <- get f (Key (lit "description")) ;;
  parameters <- get f (Key (lit "parameters")) ;;
  Normal (lit "- **" ++ template name ++ lit "**: "
          ++ (if truthy_val description then template description
              else lit "No description")
          ++ [LF] ++ lit "  Parameters: " ++ stringified parameters).

Definition prompt_lines (toolLines : jsstring) : list jsstring :=
    [ [];
      lit "## Tool Usage Protocol";
      [];
      lit "You are equipped with the following functional tools. You must use them to fulfill user requests when appropriate.";
      [];
      lit "### Available Tools";
      toolLines;
      [];
      lit "### " ++ [0x26A0%N] ++ [0xFE0F%N] ++ lit " IMPORTANT: Protocol for Invoking Tools";
      [];
      lit "To call a tool, you **MUST** follow this strict protocol. ";
      lit "**DO NOT** return raw JSON. ";
      lit "**DO NOT** use Markdown code blocks (like ```json).";
      lit "You **MUST** wrap the function call in the exact delimiters shown below.";
      [];
      lit "#### " ++ [0x2705%N] ++ lit " Correct Format Example (Demonstration)";
      [];
      lit "User: " ++ dq ++ lit "What's the weather in Tokyo?" ++ dq;
      lit "Assistant:";
      TC_START m;
      NAME_START m ++ exampleToolName ++ NAME_END m;
      ARGS_START m ++ exampleArgs ++ ARGS_END m;
      TC_END m;
      [];
      lit "#### " ++ [0x274C%N] ++ lit " Incorrect Formats (Do NOT do this)";
      lit "- {" ++ dq ++ lit "name" ++ dq ++ lit ": " ++ dq ++ exampleToolName ++ dq ++ lit ", ...}  (Raw JSON is forbidden)";
      lit "- ```json ... ``` (Markdown blocks are forbidden)";
      [];
      lit "### Your Output Template";
      lit "When you decide to call a tool, append this block to the END of your response:";
      [];
      TC_START m;
      NAME_START m ++ lit "function_name" ++ NAME_END m;
      ARGS_START m ++ lit "{" ++ dq ++ lit "param_key" ++ dq ++ lit ": " ++ dq ++ lit "param_value" ++ dq ++ lit "}" ++ ARGS_END m;
      TC_END m;
      [];
      lit "### Operational Rules";
      lit "1. **Priority**: These formatting rules override any style guidelines regarding " ++ dq ++ lit "code blocks" ++ dq ++ lit " or " ++ dq ++ lit "json output" ++ dq ++ lit " in other system prompts.";
      lit "2. **Placement**: Tool calls must appear at the very **END** of your message.";
      lit "3. **Integrity**: Copy the start/end delimiters EXACTLY as shown. They are specialized characters.";
      lit "4. **Validity**: The arguments inside " ++ ARGS_START m ++ lit "..." ++ ARGS_END m ++ lit " must be valid, parseable JSON.";
      [] ].

Definition getSystemPrompt (tools : list json) : completion jsstring :=
  entries <- map_completion tool_line tools ;;
  Normal (trim (join [LF] (prompt_lines (join [LF] entries)))).

(** A message as the transformer builds it: [{ role, content }]. *)
Definition message (role content : jsstring) : jsobj :=
  [ (lit "role", JStr role); (lit "content", JStr content) ].

(** The call block appended for one entry of [msg.tool_calls]. *)
Definition call_block (tc : json) : completion jsstring :=
  f <- get (Some tc) k_function ;;
  name <- get f k_name ;;
  arguments <- get f (Key (lit "arguments")) ;;
  Normal ([LF] ++ TC_START m ++ [LF]
          ++ NAME_START m ++ template name ++ NAME_END m ++ [LF]
          ++ ARGS_START m ++ template arguments ++ ARGS_END m ++ [LF]
          ++ TC_END m).

(** [tc.function?.name] *)
Definition called_name (tc : json) : completion jsval :=
  f <- get (Some tc) k_function ;;
  Normal (get_opt f k_name).

(** The body of the loop over [rawMessages]. *)
Definition rewrite_message (hasTools : bool) (toolSystemPrompt : jsstring) (msg : json)
  : completion jsobj :=
  role <- get (Some msg) k_role ;;
  if is_str role (lit "system") then
    Normal (message (lit "system")
              (or_empty (read msg k_content)
               ++ (if nonempty toolSystemPrompt
                   then NLNL ++ toolSystemPrompt else [])))
  else if is_str role (lit "assistant") && is_nonempty_array (read msg k_tool_calls) then
    let content := or_empty (read msg k_content) in
    let tool_calls := array_items (read msg k_tool_calls) in
    if hasTools then
      blocks <- map_completion call_block tool_calls ;;
      Normal (message (lit "assistant") (content ++ concat blocks))
    else
      names <- map_completion called_name tool_calls ;;
      Normal (message (lit "assistant")
                (content ++ NLNL ++ lit "[Called tools: "
                 ++ join (lit ", ") (List.map template (filter truthy_val names))
                 ++ lit "]"))
  else if is_str role (lit "tool") then
    let name :=
      if truthy_val (read msg k_name) then read msg k_name
      else if truthy_val (read msg (Key (lit "tool_call_id")))
           then read msg (Key (lit "tool_call_id"))
           else Some (str "unknown") in
    let result :=
      match read msg k_content with
      | Some (JStr s) => s
      | v => stringified v
      end in
    if hasTools then
      Normal (message (lit "user")
                (RESULT_START m ++ lit "[" ++ template name ++ lit "]" ++ [LF]
                 ++ result ++ RESULT_END m))
    else
      Normal (message (lit "user")
                (lit "[Tool result: " ++ template name ++ lit "]" ++ [LF] ++ result))
  else Normal (spread msg).

(** The [for] loop of [mergeAdjacentMessages]. *)
Fixpoint merge_loop (current : jsobj) (messages : list jsobj) : list jsobj :=
  match messages with
  | [] => [current]
  | msg :: rest =>
      if strict_eq (obj_get (lit "role") msg) (obj_get (lit "role") current)
      then merge_loop
             (obj_set (lit "content")
                (JStr (or_empty (obj_get (lit "content") current)
                       ++ NLNL ++ or_empty (obj_get (lit "content") msg)))
                current)
             rest
      else current :: merge_loop msg rest
  end.

(** [mergeAdjacentMessages] on the array of objects [transformRequest]
    passes to it. *)
Definition mergeAdjacentMessages (messages : list jsobj) : list jsobj :=
  match messages with
  | [] => []
  | first :: rest => merge_loop first rest
  end.

Definition fakeCallArgs : jsstring :=
  JSON_stringify H
    (JObj [ (lit "dimension_id", str "C-137");
            (lit "flux_threshold", JNum 5);
            (lit "stabilization_mode", str "static") ]).

Definition fakeAssistantContent : jsstring :=
  lit "Detected abnormal dimensional rift fluctuation (current value 5.2), immediate calibration of C-137 quadrant stability required."
  ++ [LF] ++ TC_START m ++ [LF]
  ++ NAME_START m ++ SCIFI_TOOL_NAME ++ NAME_END m ++ [LF]
  ++ ARGS_START m ++ fakeCallArgs ++ ARGS_END m ++ [LF]
  ++ TC_END m.

Definition fakeResultContent : jsstring :=
  JSON_stringify H
    (JObj [ (lit "status", str "calibrated");
            (lit "new_flux_index", JNum (42 # 100));
            (lit "entropy_delta", str "-3.14e-9");
            (lit "message", str "Resonance stabilized.") ]).

Definition fakeToolResult : jsstring :=
  RESULT_START m ++ lit "[" ++ SCIFI_TOOL_NAME ++ lit "]" ++ [LF]
  ++ fakeResultContent ++ RESULT_END m.

(** [outMessages.splice(outMessages.length - 1, 0, a, u)] when the last
    message has the role [user]. *)
Definition inject_one_shot (outMessages : list jsobj) : list jsobj :=
  match rev outMessages with
  | [] => outMessages
  | lastOutMsg :: before_rev =>
      if is_str (obj_get (lit "role") lastOutMsg) (lit "user")
      then rev before_rev
           ++ [ message (lit "assistant") fakeAssistantContent;
                message (lit "user") fakeToolResult;
                lastOutMsg ]
      else outMessages
  end.

(** What [for (const msg of rawMessages)] iterates over. *)
Definition iterate (rawMessages : json) : completion (list json) :=
  match rawMessages with
  | JArr msgs => Normal msgs
  | JStr s => Normal (List.map JStr (code_points s))
  | _ => TypeError
  end.

Definition transformRequest (request : json) (hasTools : bool) : completion json :=
  messages <- get (Some request) k_messages ;;
  let rawMessages := match messages with
                     | Some j => if truthy j then j else JArr []
                     | None => JArr []
                     end in
  let lastMsg := match rawMessages with
                 | JArr msgs => last (List.map Some msgs) None
                 | _ => None
                 end in
  let historyExists := hasToolHistory request in
  let shouldInjectOneShot :=
    hasTools && negb historyExists && is_str (get_opt lastMsg k_role) (lit "user") in
  let activeTools :=
    array_items (read request k_tools)
    ++ (if shouldInjectOneShot then [SCIFI_TOOL_DEF] else []) in
  toolSystemPrompt <- (if hasTools && nonempty activeTools
                       then getSystemPrompt activeTools else Normal []) ;;
  msgs <- iterate rawMessages ;;
  outMessages <- map_completion (rewrite_message hasTools toolSystemPrompt) msgs ;;
  let hasSystem :=
    existsb (fun msg => is_str (get_opt (Some msg) k_role) (lit "system")) msgs in
  let outMessages1 :=
    if negb hasSystem && nonempty toolSystemPrompt
    then message (lit "system") toolSystemPrompt :: outMessages
    else outMessages in
  let outMessages2 :=
    if shouldInjectOneShot then inject_one_shot outMessages1 else outMessages1 in
  let merged := mergeAdjacentMessages outMessages2 in
  Normal (JObj (obj_delete (lit "tool_choice")
                  (obj_delete (lit "tools")
                     (obj_set (lit "messages") (JArr (List.map JObj merged))
                        (spread request))))).

(** The part of [handleRequest] that prepares the body sent upstream. *)
Definition requestHasTools (isChatCompletions : bool) (body : json) : bool :=
  isChatCompletions && is_nonempty_array (get_opt (Some body) k_tools).

Definition upstream_body (isChatCompletions : bool) (body : json) : completion json :=
  let hasTools := requestHasTools isChatCompletions body in
  let requestHasToolHistory := isChatCompletions && hasToolHistory body in
  if isChatCompletions && (hasTools || requestHasToolHistory)
  then transformRequest body hasTools
  else Normal body.

End Request.

(* ================================================================== *)
(** ** A reference host

    An executable [JSON.parse] / [JSON.stringify] for the JSON grammar of
    RFC 8259 (numbers as exact rationals), used to run the definitions
    above on concrete inputs.  The theorems below hold for every host. *)

Module RefHost.

Definition is_json_ws (c : jschar) : bool :=
  ((c =? 32) || (c =? 9) || (c =? 10) || (c =? 13))%N.

Fixpoint skip_ws (s : jsstring) : jsstring :=
  match s with
  | c :: s' => if is_json_ws c then skip_ws s' else s
  | [] => []
  end.

Definition is_digit (c : jschar) : bool := ((48 <=? c) && (c <=? 57))%N.

Definition hex_value (c : jschar) : option N :=
  if ((48 <=? c) && (c <=? 57))%N then Some (c - 48)%N
  else if ((97 <=? c) && (c <=? 102))%N then Some (c - 87)%N
  else if ((65 <=? c) && (c <=? 70))%N then Some (c - 55)%N
  else None.

(** The characters of a string literal after its opening quote. *)
Fixpoint string_body (s : jsstring) : option (jsstring * jsstring) :=
  match s with
  | [] => None
  | 34%N :: rest => Some ([], rest)
  | 92%N :: 117%N :: a :: b :: c :: d :: rest =>
      match hex_value a, hex_value b, hex_value c, hex_value d, string_body rest with
      | Some x, Some y, Some z, Some w, Some (body, rest') =>
          Some ((x * 4096 + y * 256 + z * 16 + w)%N :: body, rest')
      | _, _, _, _, _ => None
      end
  | 92%N :: e :: rest =>
      let unescaped :=
        if (e =? 34)%N then Some 34%N
        else if (e =? 92)%N then Some 92%N
        else if (e =? 47)%N then Some 47%N
        else if (e =? 98)%N then Some 8%N
        else if (e =? 102)%N then Some 12%N
        else if (e =? 110)%N then Some 10%N
        else if (e =? 114)%N then Some 13%N
        else if (e =? 116)%N then Some 9%N
        else None in
      match unescaped, string_body rest with
      | Some c, Some (body, rest') => Some (c :: body, rest')
      | _, _ => None
      end
  | c :: rest =>
      if (c <? 32)%N then None
      else match string_body rest with
           | Some (body, rest') => Some (c :: body, rest')
           | None => None
           end
  end.

(** A run of digits: its value, its length, the rest. *)
Fixpoint digits (acc : N) (n : nat) (s : jsstring) : N * nat * jsstring :=
  match s with
  | c :: s' => if is_digit c then digits (acc * 10 + (c - 48))%N (S n) s' else (acc, n, s)
  | [] => (acc, n, [])
  end.

Definition pow10 (n : nat) : positive := Pos.pow 10 (Pos.of_nat n).

Definition scale (q : Q) (negative : bool) (e : N) : Q :=
  let p := Z.pow 10 (Z.of_N e) in
  if negative then (q / inject_Z p)%Q else (q * inject_Z p)%Q.

(** [-? int frac? exp?] *)
Definition number (s : jsstring) : option (Q * jsstring) :=
  let '(neg, s1) := match s with
                    | 45%N :: s' => (true, s')
                    | _ => (false, s)
                    end in
  let '(ip, n, s2) := digits 0 0 s1 in
  let leading_zero := match s1 with
                      | 48%N :: _ => Nat.ltb 1 n
                      | _ => false
                      end in
  if Nat.eqb n 0 || leading_zero then None
  else
    let fraction :=
      match s2 with
      | 46%N :: s' =>
          let '(fp, k, s3) := digits 0 0 s' in
          if Nat.eqb k 0 then None
          else Some ((Z.of_N fp # 1) / (Z.pos (Pos.pow 10 (Pos.of_nat k)) # 1), s3)%Q
      | _ => Some (0%Q, s2)
      end in
    match fraction with
    | None => None
    | Some (fq, s3) =>
        let mantissa := ((Z.of_N ip # 1) + fq)%Q in
        let signed := if neg then (- mantissa)%Q else mantissa in
        match s3 with
        | c :: s4 =>
            if ((c =? 101) || (c =? 69))%N then
              let '(eneg, s5) := match s4 with
                                 | 45%N :: s' => (true, s')
                                 | 43%N :: s' => (false, s')
                                 | _ => (false, s4)
                                 end in
              let '(ev, k, s6) := digits 0 0 s5 in
              if Nat.eqb k 0 then None
              else Some (Qred (scale signed eneg ev), s6)
            else Some (Qred signed, s3)
        | [] => Some (Qred signed, [])
        end
    end.

(** Recursive descent; the fuel bounds the nesting and the number of items. *)
Fixpoint value (fuel : nat) (s : jsstring) : option (json * jsstring) :=
  match fuel with
  | 0 => None
  | S fuel' =>
      let elements :=
        fix elements (n : nat) (s : jsstring) : option (list json * jsstring) :=
          match n with
          | 0 => None
          | S n' =>
              match value fuel' s with
              | Some (v, rest) =>
                  match skip_ws rest with
                  | 44%N :: rest' =>
                      match elements n' rest' with
                      | Some (vs, rest'') => Some (v :: vs, rest'')
                      | None => None
                      end
                  | 93%N :: rest' => Some ([v], rest')
                  | _ => None
                  end
              | None => None
              end
          end in
      let members :=
        fix members (n : nat) (s : jsstring) : option (jsobj * jsstring) :=
          match n with
          | 0 => None
          | S n' =>
              match skip_ws s with
              | 34%N :: s1 =>
                  match string_body s1 with
                  | Some (k, s2) =>
                      match skip_ws s2 with
                      | 58%N :: s3 =>
                          match value fuel' s3 with
                          | Some (v, rest) =>
                              match skip_ws rest with
                              | 44%N :: rest' =>
                                  match members n' rest' with
                                  | Some (o, rest'') => Some ((k, v) :: o, rest'')
                                  | None => None
                                  end
                              | 125%N :: rest' => Some ([(k, v)], rest')
                              | _ => None
                              end
                          | None => None
                          end
                      | _ => None
                      end
                  | None => None
                  end
              | _ => None
              end
          end in
      match skip_ws s with
      | 110%N :: 117%N :: 108%N :: 108%N :: rest => Some (JNull, rest)
      | 116%N :: 114%N :: 117%N :: 101%N :: rest => Some (JBool true, rest)
      | 102%N :: 97%N :: 108%N :: 115%N :: 101%N :: rest => Some (JBool false, rest)
      | 34%N :: rest =>
          match string_body rest with
          | Some (body, rest') => Some (JStr body, rest')
          | None => None
          end
      | 91%N :: rest =>
          match skip_ws rest with
          | 93%N :: rest' => Some (JArr [], rest')
          | _ =>
              match elements (length rest) rest with
              | Some (vs, rest') => Some (JArr vs, rest')
              | None => None
              end
          end
      | 123%N :: rest =>
          match skip_ws rest with
          | 125%N :: rest' => Some (JObj [], rest')
          | _ =>
              match members (length rest) rest with
              | Some (o, rest') =>
                  Some (JObj (fold_left (fun acc kv => obj_set (fst kv) (snd kv) acc) o []),
                        rest')
              | None => None
              end
          end
      | c :: rest =>
          if is_digit c || (c =? 45)%N then
            match number (c :: rest) with
            | Some (q, rest') => Some (JNum q, rest')
            | None => None
            end
          else None
      | [] => None
      end
  end.

Definition parse_json (s : jsstring) : option json :=
  match value (S (length s)) s with
  | Some (j, rest) =>
      match skip_ws rest with
      | [] => Some j
      | _ :: _ => None
      end
  | None => None
  end.

Definition hex_digit (n : N) : jschar :=
  if (n <? 10)%N then (48 + n)%N else (87 + n)%N.

Definition quote_char (c : jschar) : jsstring :=
  if (c =? 34)%N then [92; 34]%N
  else if (c =? 92)%N then [92; 92]%N
  else if (c =? 10)%N then [92; 110]%N
  else if (c =? 13)%N then [92; 114]%N
  else if (c =? 9)%N then [92; 116]%N
  else if (c =? 8)%N then [92; 98]%N
  else if (c =? 12)%N then [92; 102]%N
  else if (c <? 32)%N then [92; 117; 48; 48; hex_digit (c / 16); hex_digit (c mod 16)]%N
  else [c].

Definition quote (s : jsstring) : jsstring :=
  dq ++ flat_map quote_char s ++ dq.

(** The digits after the decimal point of [r / d], while they last. *)
Fixpoint fraction_digits (fuel : nat) (r d : N) : jsstring :=
  match fuel with
  | 0 => []
  | S fuel' =>
      if (r =? 0)%N then []
      else (48 + (r * 10) / d)%N :: fraction_digits fuel' ((r * 10) mod d)%N d
  end.

Definition number_to_string (q : Q) : jsstring :=
  let n := Z.abs_N (Qnum q) in
  let d := Npos (Qden q) in
  (if (Qnum q <? 0)%Z then lit "-" else [])
  ++ decimal (n / d)%N
  ++ match fraction_digits 20 (n mod d)%N d with
     | [] => []
     | ds => lit "." ++ ds
     end.

Fixpoint stringify (j : json) : jsstring :=
  match j with
  | JNull => lit "null"
  | JBool true => lit "true"
  | JBool false => lit "false"
  | JNum q => number_to_string q
  | JStr s => quote s
  | JArr l => lit "[" ++ join (lit ",") (List.map stringify l) ++ lit "]"
  | JObj o =>
      lit "{"
      ++ join (lit ",")
           (List.map (fun kv => quote (fst kv) ++ lit ":" ++ stringify (snd kv)) o)
      ++ lit "}"
  end.

Definition host : Host :=
  {| JSON_parse := parse_json;
     JSON_stringify := stringify;
     Number_toString := number_to_string;
     Date_now := fun _ => 1700000000000%N |}.

(** The marker set of the draws [(3, 0, 1)]. *)
Definition markers : Markers := generateMarkers 3 0 1.

End RefHost.

(* ================================================================== *)
(** ** Observations on what the client receives *)

(** The complete frames of a buffer, and what is left of it. *)
Definition frames (b : jsstring) : list jsstring * jsstring :=
  pushText_loop (length b) b.

(** The states of the decoder between two bytes. *)
Definition decoder_ok (d : Utf8.decoder) : Prop :=
  (0x80 <= Utf8.lower_boundary d /\ Utf8.upper_boundary d <= 0xBF)%N
  /\ (Utf8.bytes_needed d = 0
      \/ (Utf8.bytes_needed d = 1 /\ Utf8.bytes_seen d = 0
          /\ 2 <= Utf8.code_point d <= 31)
      \/ (Utf8.bytes_needed d = 2 /\ Utf8.bytes_seen d = 0
          /\ Utf8.code_point d <= 15
          /\ (Utf8.code_point d = 0 -> 0xA0 <= Utf8.lower_boundary d)
          /\ (Utf8.code_point d = 13 -> Utf8.upper_boundary d <= 0x9F))
      \/ (Utf8.bytes_needed d = 2 /\ Utf8.bytes_seen d = 1
          /\ 0x20 <= Utf8.code_point d <= 0x3FF
          /\ (Utf8.code_point d < 0x360 \/ 0x37F < Utf8.code_point d))
      \/ (Utf8.bytes_needed d = 3 /\ Utf8.bytes_seen d = 0
          /\ Utf8.code_point d <= 4
          /\ (Utf8.code_point d = 0 -> 0x90 <= Utf8.lower_boundary d)
          /\ (Utf8.code_point d = 4 -> Utf8.upper_boundary d <= 0x8F))
      \/ (Utf8.bytes_needed d = 3 /\ Utf8.bytes_seen d = 1
          /\ 0x10 <= Utf8.code_point d <= 0x10F)
      \/ (Utf8.bytes_needed d = 3 /\ Utf8.bytes_seen d = 2
          /\ 0x400 <= Utf8.code_point d <= 0x43FF))%N.

(** The text of a stream: what [TextDecoder] makes of its bytes. *)
Definition received_text (values : list Buffer) : jsstring :=
  snd (TextDecoder_decode TextDecoder_new (concat values)).

(** Sequencing of outcomes: [k] runs unless a [TypeError] escaped. *)
Definition continue (o : outcome) (k : TState -> outcome) : outcome :=
  match next o with
  | Some st' => {| pushes := pushes o ++ pushes (k st'); next := next (k st') |}
  | None => o
  end.

(** [text] ends with the prefix of length [i] of [marker], a proper prefix. *)
Definition EndsWithPrefix (marker text : jsstring) (i : nat) : Prop :=
  i < length marker /\ exists a, text = a ++ firstn i marker.

(** The text seen so far by a transformer that is still scanning is
    [e ++ p]: [e] was forwarded, [p] is held back and is the longest
    proper prefix of the marker the text ends with; the marker does not
    occur in the text. *)
Record Held (marker e p : jsstring) : Prop := {
  held_prefix : exists h, h < length marker /\ p = firstn h marker;
  held_longest : forall j, EndsWithPrefix marker (e ++ p) j -> j <= length p;
  held_free : indexOf marker (e ++ p) = None
}.

(** The state of a transformer after the text [T] arrived in the text
    fields of its frames and [E] was delivered: scanning, or buffering
    from the first occurrence of the marker on. *)
Inductive Tracks (marker T E : jsstring) (st : TState) : Prop :=
| Tracks_scanning :
    bufferingTool st = false ->
    toolBuffer st = [] ->
    Held marker E (pendingText st) ->
    T = E ++ pendingText st ->
    Tracks marker T E st
| Tracks_buffering (idx : nat) :
    bufferingTool st = true ->
    pendingText st = [] ->
    indexOf marker T = Some idx ->
    E = firstn idx T ->
    toolBuffer st = skipn idx T ->
    Tracks marker T E st.

(** [v?.k1?.k2 ...] *)
Definition get_path (v : jsval) (path : list pkey) : jsval :=
  fold_left get_opt path v.

(** The text field the transcoder inspects in an event: [choices] is a
    non-empty array and [choices[0]?.delta?.content] is a string. *)
Definition primary_content (evt : json) : jsstring :=
  match read evt k_choices with
  | Some (JArr (c0 :: _)) =>
      match get_opt (get_opt (Some c0) k_delta) k_content with
      | Some (JStr s) => s
      | _ => []
      end
  | _ => []
  end.

(** The [delta.tool_calls] of the first choice of an event. *)
Definition primary_tool_calls (evt : json) : jsval :=
  match read evt k_choices with
  | Some (JArr (c0 :: _)) => get_opt (get_opt (Some c0) k_delta) k_tool_calls
  | _ => None
  end.

Definition pushed_content (p : pushed) : jsstring :=
  match p with
  | PushJson evt => primary_content evt
  | PushText _ => []
  end.

(** The text delivered by a sequence of pushes. *)
Definition delivered_text (ps : list pushed) : jsstring :=
  concat (List.map pushed_content ps).

Definition is_json_push (p : pushed) : bool :=
  match p with
  | PushJson _ => true
  | PushText _ => false
  end.

(** The text of the events that are not tool-call events: the residual
    content a client assembles. *)
Definition carries_tool_calls (p : pushed) : bool :=
  match p with
  | PushJson evt =>
      match primary_tool_calls evt with
      | Some _ => true
      | None => false
      end
  | PushText _ => false
  end.

(** The calls an event carries in its first choice. *)
Definition pushed_tool_calls (p : pushed) : jsval :=
  match p with
  | PushJson evt => primary_tool_calls evt
  | PushText _ => None
  end.


(** A raw event that is not decoded as a JSON envelope: the sentinel, or
    a frame forwarded as it came. *)
Definition not_envelope (H : Host) (rawEvent : jsstring) : bool :=
  isDoneEvent rawEvent
  || negb (truthy (parseJsonFromEvent H rawEvent))
  || truthy_val (read (parseJsonFromEvent H rawEvent) (Key (lit "__raw"))).

(** The last envelope a transformer has seen after the raw events [evs]. *)
Definition last_envelope (H : Host) (evs : list jsstring) (env : json) : json :=
  fold_left (fun env e => if not_envelope H e then env else parseJsonFromEvent H e)
            evs env.

(** The text a raw event brings to the transformer. *)
Definition frame_text (H : Host) (rawEvent : jsstring) : jsstring :=
  if not_envelope H rawEvent then []
  else primary_content (parseJsonFromEvent H rawEvent).

(** A raw event decoded as an envelope whose text field is [content]. *)
Definition carries (H : Host) (rawEvent : jsstring) (content : jsstring) : Prop :=
  not_envelope H rawEvent = false
  /\ exists c0 rest,
       read (parseJsonFromEvent H rawEvent) k_choices = Some (JArr (c0 :: rest))
       /\ get_opt (get_opt (Some c0) k_delta) k_content = Some (JStr content).

(** Decision of [carries], and of a stream of frames against their texts. *)
Definition carriesb (H : Host) (rawEvent : jsstring) (content : jsstring) : bool :=
  negb (not_envelope H rawEvent)
  && match read (parseJsonFromEvent H rawEvent) k_choices with
     | Some (JArr (c0 :: _)) =>
         match get_opt (get_opt (Some c0) k_delta) k_content with
         | Some (JStr s) => str_eqb s content
         | _ => false
         end
     | _ => false
     end.

Fixpoint all_carry (H : Host) (evs texts : list jsstring) : bool :=
  match evs, texts with
  | [], [] => true
  | e :: evs', s :: texts' => carriesb H e s && all_carry H evs' texts'
  | _, _ => false
  end.


(** An envelope the end of the stream can patch: its first choice is an
    object whose [delta] is absent, [null] or an object. *)
Definition delta_ok (choice : jsobj) : bool :=
  match obj_get (lit "delta") choice with
  | None | Some JNull | Some (JObj _) => true
  | Some _ => false
  end.

Definition Patchable (j : json) : Prop :=
  exists choice rest,
    read j k_choices = Some (JArr (JObj choice :: rest)) /\ delta_ok choice = true.

(** The text that arrives in the text fields of a sequence of frames. *)
Definition stream_text (H : Host) (evs : list jsstring) : jsstring :=
  concat (List.map (frame_text H) evs).

(** Well-formedness of what a client sends: a tool entry has a
    [function] that is not [null], a message is not [null]. *)
Definition is_null (j : json) : bool :=
  match j with
  | JNull => true
  | _ => false
  end.

Definition tool_ok (t : json) : bool :=
  match read t k_function with
  | Some f => negb (is_null f)
  | None => false
  end.

(** A message of a tool exchange: a tool result, or an assistant message
    with calls (the test of [hasToolHistory]). *)
Definition in_history (msg : json) : bool :=
  is_str (get_opt (Some msg) k_role) (lit "tool")
  || (is_str (get_opt (Some msg) k_role) (lit "assistant")
      && is_nonempty_array (get_opt (Some msg) k_tool_calls)).

(** The text of a message built or merged by the transformer. *)
Definition content_text (msg : jsobj) : jsstring :=
  match obj_get (lit "content") msg with
  | Some (JStr s) => s
  | _ => []
  end.

(** A field that is absent, [null] or a string, and the text it holds. *)
Definition opt_string (v : jsval) : bool :=
  match v with
  | None | Some JNull | Some (JStr _) => true
  | _ => false
  end.

Definition text_of (v : jsval) : jsstring :=
  match v with
  | Some (JStr s) => s
  | _ => []
  end.

Definition is_string (v : jsval) : bool :=
  match v with
  | Some (JStr _) => true
  | _ => false
  end.

Definition is_absent (v : jsval) : bool :=
  match v with
  | None => true
  | Some _ => false
  end.

(** [tc.function?.name] for an entry [tc] that is not [null]. *)
Definition function_name (tc : json) : jsval :=
  get_opt (read tc k_function) k_name.

Definition call_ok (tc : json) : bool :=
  negb (is_null tc) && opt_string (function_name tc).

(** A message of an OpenAI-style conversation, as far as the transformer
    reads it: an object whose [content] is absent, [null] or a string; a
    tool result has a string [content] and optional strings [name] and
    [tool_call_id]; [tool_calls] occurs only as the non-empty array of
    calls of an assistant message. *)
Definition message_ok (msg : json) : bool :=
  match msg with
  | JObj o =>
      if is_str (obj_get (lit "role") o) (lit "tool") then
        is_string (obj_get (lit "content") o)
        && opt_string (obj_get (lit "name") o)
        && opt_string (obj_get (lit "tool_call_id") o)
      else if is_str (obj_get (lit "role") o) (lit "assistant")
              && is_nonempty_array (obj_get (lit "tool_calls") o) then
        opt_string (obj_get (lit "content") o)
        && forallb call_ok (array_items (obj_get (lit "tool_calls") o))
      else
        opt_string (obj_get (lit "content") o)
        && is_absent (obj_get (lit "tool_calls") o)
  | _ => false
  end.

(** A text without any of the eight delimiter tokens. *)
Definition free_of (m : Markers) (s : jsstring) : bool :=
  forallb (fun tok => negb (includes s tok)) (tokens m).

Definition Free (tok s : jsstring) : Prop := ~ Substring tok s.

(** The texts of a message that the transformer copies into its output. *)
Definition message_texts (msg : json) : list jsstring :=
  [ text_of (read msg k_content);
    text_of (read msg k_name);
    text_of (read msg (Key (lit "tool_call_id"))) ]
  ++ List.map (fun tc => text_of (function_name tc))
              (array_items (read msg k_tool_calls)).

Definition message_clean (m : Markers) (msg : json) : bool :=
  forallb (free_of m) (message_texts msg).

(** Tokens made of characters outside ASCII, as [generateMarkers] draws
    them. *)
Definition is_ascii (s : jsstring) : bool := forallb (fun c => (c <? 128)%N) s.

Definition non_ascii (s : jsstring) : bool := forallb (fun c => (128 <=? c)%N) s.

Definition markers_non_ascii (m : Markers) : bool := forallb non_ascii (tokens m).

Definition all_draws_non_ascii : bool :=
  forallb (fun r1 =>
    forallb (fun r2 =>
      forallb (fun r3 => markers_non_ascii (generateMarkers r1 r2 r3))
              (seq 0 (length SUFFIX_POOL)))
            (seq 0 (length SUFFIX_POOL)))
          (seq 0 (length DELIMITER_SETS)).

(** The note that stands for the calls of an assistant message when tools
    are off: the non-empty function names of its calls. *)
Definition called_names (msg : json) : list jsstring :=
  List.map text_of
    (filter truthy_val
       (List.map function_name (array_items (read msg k_tool_calls)))).

Definition calls_note (msg : json) : jsstring :=
  lit "[Called tools: " ++ join (lit ", ") (called_names msg) ++ lit "]".

(** The note that stands for a tool result when tools are off. *)
Definition result_name (msg : json) : jsstring :=
  if nonempty (text_of (read msg k_name)) then text_of (read msg k_name)
  else if nonempty (text_of (read msg (Key (lit "tool_call_id"))))
       then text_of (read msg (Key (lit "tool_call_id")))
       else lit "unknown".

Definition result_note (msg : json) : jsstring :=
  lit "[Tool result: " ++ result_name msg ++ lit "]" ++ [LF]
  ++ text_of (read msg k_content).

(** A message without structured tool fields: its [content] is absent,
    [null] or a string, it has no [tool_calls] and its role is not
    [tool]. *)
Definition plain_message (o : jsobj) : bool :=
  opt_string (obj_get (lit "content") o)
  && is_absent (obj_get (lit "tool_calls") o)
  && negb (is_str (obj_get (lit "role") o) (lit "tool")).

(** An assistant message with calls, as [transformRequest] tests it. *)
Definition has_calls (msg : json) : bool :=
  is_str (read msg k_role) (lit "assistant")
  && is_nonempty_array (read msg k_tool_calls).

(** No two consecutive messages have identical roles. *)
Fixpoint roles_alternate (messages : list jsobj) : bool :=
  match messages with
  | a :: (b :: _) as rest =>
      negb (strict_eq (obj_get (lit "role") b) (obj_get (lit "role") a))
      && roles_alternate rest
  | _ => true
  end.

(** An entry of [tool_calls] as a client sends it back, and an assistant
    message with such calls. *)
Definition call_entry (id : jsstring) (call : jsstring * jsstring) : json :=
  JObj [ (lit "id", JStr id);
         (lit "type", JStr (lit "function"));
         (lit "function", JObj [ (lit "name", JStr (fst call));
                                  (lit "arguments", JStr (snd call)) ]) ].

Definition assistant_message (content : jsstring)
           (calls : list (jsstring * (jsstring * jsstring))) : json :=
  JObj [ (lit "role", JStr (lit "assistant"));
         (lit "content", JStr content);
         (lit "tool_calls",
          JArr (List.map (fun c => call_entry (fst c) (snd c)) calls)) ].

(** The split of a text at the first occurrence of the call-start marker. *)
Definition before_marker (m : Markers) (text : jsstring) : jsstring :=
  match indexOf (TC_START m) text with
  | Some idx => firstn idx text
  | None => text
  end.

Definition from_marker (m : Markers) (text : jsstring) : jsstring :=
  match indexOf (TC_START m) text with
  | Some idx => skipn idx text
  | None => []
  end.

(** The suffixes a marker set was built with. *)
Definition suffix1_of (mk : Markers) : jschar := nth 1 (TC_START mk) 0%N.
Definition suffix2_of (mk : Markers) : jschar := nth 1 (RESULT_START mk) 0%N.

(** Decision of the token invariant. *)
Fixpoint distinctb (l : list jsstring) : bool :=
  match l with
  | [] => true
  | x :: l' => negb (existsb (str_eqb x) l') && distinctb l'
  end.

Definition tokens_ok (mk : Markers) : bool :=
  distinctb (tokens mk)
  && forallb (fun a => forallb (fun b => str_eqb a b || negb (includes b a)) (tokens mk))
             (tokens mk).

Definition all_draws_ok : bool :=
  forallb (fun r1 =>
    forallb (fun r2 =>
      forallb (fun r3 => tokens_ok (generateMarkers r1 r2 r3))
              (seq 0 (length SUFFIX_POOL)))
            (seq 0 (length SUFFIX_POOL)))
          (seq 0 (length DELIMITER_SETS)).

(** Tokens that are not empty and do not begin with white space, as
    [generateMarkers] draws them. *)
Definition solid (tok : jsstring) : bool :=
  match tok with
  | c :: _ => negb (isWhiteSpace c)
  | [] => false
  end.

Definition markers_solid (m : Markers) : bool := forallb solid (tokens m).

Definition all_draws_solid : bool :=
  forallb (fun r1 =>
    forallb (fun r2 =>
      forallb (fun r3 => markers_solid (generateMarkers r1 r2 r3))
              (seq 0 (length SUFFIX_POOL)))
            (seq 0 (length SUFFIX_POOL)))
          (seq 0 (length DELIMITER_SETS)).

(** A call block as the prompt asks the model to write it. *)
Definition call_text (m : Markers) (name args : jsstring) : jsstring :=
  TC_START m ++ [LF] ++ NAME_START m ++ name ++ NAME_END m ++ [LF]
  ++ ARGS_START m ++ args ++ ARGS_END m ++ [LF] ++ TC_END m.

(** A call block inside a text: the text that precedes it, and the name,
    the arguments and the three stretches of white space of the region. *)
Record Block := {
  blk_before : jsstring;
  blk_ws1 : jsstring;
  blk_name : jsstring;
  blk_ws2 : jsstring;
  blk_args : jsstring;
  blk_ws3 : jsstring
}.

Definition region_text (m : Markers) (b : Block) : jsstring :=
  TC_START m ++ blk_ws1 b ++ NAME_START m ++ blk_name b ++ NAME_END m ++ blk_ws2 b
  ++ ARGS_START m ++ blk_args b ++ ARGS_END m ++ blk_ws3 b ++ TC_END m.

(** A text made of call blocks, each after the text that precedes it;
    [tail] follows the last block. *)
Fixpoint blocks_text (m : Markers) (blocks : list Block) (tail : jsstring)
  : jsstring :=
  match blocks with
  | [] => tail
  | b :: blocks' => blk_before b ++ region_text m b ++ blocks_text m blocks' tail
  end.

(** The first occurrence of [tok] in [s ++ tok] is the one at the end:
    [tok] does not occur in [s], nor across the end of [s]. *)
Definition ends_at_first (tok s : jsstring) : bool :=
  match indexOf tok (s ++ tok) with
  | Some i => Nat.eqb i (length s)
  | None => false
  end.

(** A region whose name and arguments end at the first name-end and
    arguments-end token. *)
Definition region_ok (m : Markers) (b : Block) : bool :=
  forallb isWhiteSpace (blk_ws1 b)
  && forallb isWhiteSpace (blk_ws2 b)
  && forallb isWhiteSpace (blk_ws3 b)
  && ends_at_first (NAME_END m) (blk_name b)
  && ends_at_first (ARGS_END m) (blk_args b).

(** The arguments of a block are JSON, once trimmed. *)
Definition valid_args (H : Host) (b : Block) : bool :=
  match JSON_parse H (trim (blk_args b)) with
  | Some _ => true
  | None => false
  end.

(** The marker grammar: the eight-part shape of a tool-call region. *)
Definition Grammar (m : Markers) (region name args : jsstring) : Prop :=
  exists w1 w2 w3,
    forallb isWhiteSpace w1 = true /\ forallb isWhiteSpace w2 = true
    /\ forallb isWhiteSpace w3 = true
    /\ region = TC_START m ++ w1 ++ NAME_START m ++ name ++ NAME_END m ++ w2
                ++ ARGS_START m ++ args ++ ARGS_END m ++ w3 ++ TC_END m.

(** A text in which no region of the grammar occurs. *)
Definition region_free (m : Markers) (s : jsstring) : Prop :=
  forall region name args, Grammar m region name args -> ~ Substring region s.

(** The calls of a sequence of blocks: one for each block whose
    arguments are JSON, in order, numbered from [idx]. *)
Fixpoint block_calls (H : Host) (blocks : list Block) (idx : nat) : list ToolCall :=
  match blocks with
  | [] => []
  | b :: blocks' =>
      if valid_args H b
      then {| tc_id := call_id H idx;
              tc_name := trim (blk_name b);
              tc_arguments := trim (blk_args b) |}
             :: block_calls H blocks' (S idx)
      else block_calls H blocks' idx
  end.

(** The text outside the blocks, joined. *)
Definition outside (blocks : list Block) (tail : jsstring) : jsstring :=
  concat (List.map blk_before blocks) ++ tail.

(** The call block of a call sent back by the client: a line feed, then
    the region. *)
Definition block_of_call (call : jsstring * jsstring) : Block :=
  {| blk_before := [LF];
     blk_ws1 := [LF];
     blk_name := fst call;
     blk_ws2 := [LF];
     blk_args := snd call;
     blk_ws3 := [LF] |}.

(** The texts a sequence of items matches, with their captures. *)
Fixpoint Matches (items : list re_item) (region : jsstring) (caps : list jsstring)
  : Prop :=
  match items with
  | [] => region = [] /\ caps = []
  | Lit l :: items' => exists r, region = l ++ r /\ Matches items' r caps
  | WsStar :: items' =>
      exists w r, forallb isWhiteSpace w = true /\ region = w ++ r
                  /\ Matches items' r caps
  | LazyAny :: items' =>
      exists cap caps' r, caps = cap :: caps' /\ region = cap ++ r
                          /\ Matches items' r caps'
  end.

(* ================================================================== *)
(** ** Concrete inputs, on the reference host *)

Module Examples.

Definition H := RefHost.host.
Definition M := RefHost.markers.





(** A call block as [call_text] writes it, after the text [before]. *)
Definition block (before name args : jsstring) : Block :=
  {| blk_before := before;
     blk_ws1 := [LF];
     blk_name := name;
     blk_ws2 := [LF];
     blk_args := args;
     blk_ws3 := [LF] |}.

(** [hi <call g({oops)> then <call f({})>], followed by a text that
    quotes the call-start marker. *)
Definition blocks_two : list Block :=
  [ block (lit "hi ") (lit "g") (lit "{oops");
    block (lit " then ") (lit "f") (lit "{}") ].

Definition tail_quoting_marker : jsstring :=
  lit " see " ++ TC_START M ++ lit " here ".

(** The decomposition of [text_spliced]: the first character of an outer
    block, the inner block, the rest of the outer block. *)
Definition blocks_spliced : list Block :=
  [ block (firstn 1 (call_text M (lit "g") (lit "{}"))) (lit "f") (lit "{}") ].

Definition tail_spliced : jsstring := skipn 1 (call_text M (lit "g") (lit "{}")).

(** A call block split in two around another call block: removing the
    inner block joins the two halves. *)
Definition text_spliced : jsstring :=
  firstn 1 (call_text M (lit "g") (lit "{}"))
  ++ call_text M (lit "f") (lit "{}")
  ++ skipn 1 (call_text M (lit "g") (lit "{}")).

(** A chat completion whose message calls [f] after some prose. *)
Definition body_with_call : json :=
  JObj [ (lit "id", str "chatcmpl-1");
         (lit "choices",
          JArr [ JObj [ (lit "index", JNum 0);
                        (lit "message",
                         JObj [ (lit "role", str "assistant");
                                (lit "content",
                                 JStr (lit "Let me check. "
                                       ++ call_text M (lit "f") (lit "{}"))) ]);
                        (lit "finish_reason", str "stop") ] ]) ].

(** A stream in which no frame is a JSON envelope. *)
Definition chunks_no_envelope : list jsstring :=
  [ lit ": keep-alive" ++ NLNL ++ lit "data: not js";
    lit "on" ++ NLNL ++ lit "data: [DONE]" ++ NLNL ].

(** A streaming envelope whose text field is [content], and its frame. *)
Definition envelope (content : jsstring) : json :=
  JObj [ (lit "id", str "chatcmpl-1");
         (lit "choices",
          JArr [ JObj [ (lit "index", JNum 0);
                        (lit "delta", JObj [ (lit "content", JStr content) ]);
                        (lit "finish_reason", JNull) ] ]) ].

Definition frame (content : jsstring) : jsstring :=
  lit "data: " ++ RefHost.stringify (envelope content).

Definition done_frame : jsstring := lit "data: [DONE]".

(** A text fed one character per frame, then the sentinel. *)
Definition one_char_frames (text : jsstring) : list jsstring :=
  List.map (fun c => frame [c]) text.

(** Prose, then a call, the call-start marker cut between two frames. *)
Definition frames_split_marker : list jsstring :=
  [ frame (lit "Hello " ++ firstn 2 (TC_START M));
    frame (skipn 2 (TC_START M) ++ [LF] ++ NAME_START M ++ lit "f" ++ NAME_END M);
    frame ([LF] ++ ARGS_START M ++ lit "{}" ++ ARGS_END M ++ [LF] ++ TC_END M) ].

(** The stream made of the frames of [frames_split_marker] and the
    sentinel, sent as one chunk. *)
Definition chunks_with_call : list jsstring :=
  [ concat (List.map (fun e => e ++ NLNL) (frames_split_marker ++ [done_frame])) ].




(** Prose and a complete call block in one frame, then the sentinel. *)
Definition frame_with_block : jsstring :=
  frame (lit "Hello " ++ call_text M (lit "f") (lit "{}")).

Definition chunks_block_in_one_frame : list jsstring :=
  [ frame_with_block ++ NLNL; done_frame ++ NLNL ].



Definition body_of (text : jsstring) : json :=
  JObj [ (lit "choices",
          JArr [ JObj [ (lit "index", JNum 0);
                        (lit "message",
                         JObj [ (lit "role", str "assistant");
                                (lit "content", JStr text) ]);
                        (lit "finish_reason", str "stop") ] ]) ].

(** A request with one tool, no tool history and a final user message. *)
Definition weather_tool : json :=
  JObj [ (lit "type", str "function");
         (lit "function",
          JObj [ (lit "name", str "get_weather");
                 (lit "description", str "Current weather of a city");
                 (lit "parameters",
                  JObj [ (lit "type", str "object");
                         (lit "properties",
                          JObj [ (lit "city", JObj [ (lit "type", str "string") ]) ]) ]) ]) ].

Definition request_one_shot : json :=
  JObj [ (lit "model", str "some-model");
         (lit "messages",
          JArr [ JObj [ (lit "role", str "user"); (lit "content", str "Hi") ];
                 JObj [ (lit "role", str "assistant"); (lit "content", str "Hello!") ];
                 JObj [ (lit "role", str "user");
                        (lit "content", str "Weather in Paris?") ] ]);
         (lit "tools", JArr [ weather_tool ]);
         (lit "tool_choice", str "auto") ].

(** A request without tools whose history holds a tool call and its
    result, and that ends with the user's text [question]. *)
Definition history_request (question : jsstring) : json :=
  JObj [ (lit "model", str "some-model");
         (lit "messages",
          JArr [ JObj [ (lit "role", str "user"); (lit "content", str "Weather in Paris?") ];
                 JObj [ (lit "role", str "assistant");
                        (lit "content", JNull);
                        (lit "tool_calls",
                         JArr [ JObj [ (lit "id", str "call_1");
                                       (lit "type", str "function");
                                       (lit "function",
                                        JObj [ (lit "name", str "get_weather");
                                               (lit "arguments",
                                                JStr (lit "{" ++ dq ++ lit "city" ++ dq
                                                      ++ lit ":" ++ dq ++ lit "Paris"
                                                      ++ dq ++ lit "}")) ]) ] ]) ];
                 JObj [ (lit "role", str "tool");
                        (lit "tool_call_id", str "call_1");
                        (lit "content", str "18 degrees") ];
                 JObj [ (lit "role", str "user"); (lit "content", JStr question) ] ]);
         (lit "tools", JArr []) ].

Definition request_history : json :=
  history_request (lit "Thanks. What does " ++ TC_START M ++ lit " mean?").

Definition request_history_clean : json := history_request (lit "Thanks!").

End Examples.

(* ================================================================== *)
(** * Properties *)

Unset Implicit Arguments.

(** ** Strings *)

Lemma str_eqb_eq (a b : jsstring) : str_eqb a b = true <-> a = b.
Proof.
  revert b; induction a as [|x a IH]; intros [|y b]; simpl; split; intro E;
    try reflexivity; try discriminate.
  - apply andb_true_iff in E as [E1 E2]. apply N.eqb_eq in E1. apply IH in E2.
    congruence.
  - injection E as -> ->. rewrite N.eqb_refl. simpl. now apply IH.
Qed.

Lemma str_eqb_refl (a : jsstring) : str_eqb a a = true.
Proof. now apply str_eqb_eq. Qed.

Lemma str_eqb_neq (a b : jsstring) : str_eqb a b = false <-> a <> b.
Proof.
  split.
  - intros E Heq. apply str_eqb_eq in Heq. congruence.
  - intro N. destruct (str_eqb a b) eqn:E; [|reflexivity].
    apply str_eqb_eq in E. contradiction.
Qed.

Lemma startsWith_app (p t : jsstring) : startsWith p (p ++ t) = true.
Proof. induction p as [|x p IH]; simpl; [reflexivity|]. now rewrite N.eqb_refl. Qed.

Lemma startsWith_spec (p s : jsstring) :
  startsWith p s = true <-> exists t, s = p ++ t.
Proof.
  split.
  - revert s; induction p as [|x p IH]; intros s E.
    + now exists s.
    + destruct s as [|y s]; simpl in E; [discriminate|].
      apply andb_true_iff in E as [E1 E2]. apply N.eqb_eq in E1.
      destruct (IH _ E2) as [t ->]. exists t. simpl. congruence.
  - intros [t ->]. apply startsWith_app.
Qed.

Lemma startsWith_skipn (p s : jsstring) :
  startsWith p s = true -> s = p ++ skipn (length p) s.
Proof.
  intro E. apply startsWith_spec in E as [t ->].
  now rewrite skipn_app, skipn_all, Nat.sub_diag.
Qed.

Lemma indexOf_Some_split (p s : jsstring) (i : nat) :
  indexOf p s = Some i ->
  i <= length s /\ startsWith p (skipn i s) = true.
Proof.
  revert i; induction s as [|c s IH]; intros i; simpl.
  - destruct (startsWith p []) eqn:E; [|discriminate].
    intros [= <-]. simpl. split; [lia|assumption].
  - destruct (startsWith p (c :: s)) eqn:E.
    + intros [= <-]. simpl. split; [lia|assumption].
    + destruct (indexOf p s) as [j|] eqn:Ej; simpl; [|discriminate].
      intros [= <-]. destruct (IH j eq_refl) as [L S]. simpl. split; [lia|assumption].
Qed.

Lemma indexOf_Some_first (p s : jsstring) (i : nat) :
  indexOf p s = Some i ->
  forall j, j < i -> startsWith p (skipn j s) = false.
Proof.
  revert i; induction s as [|c s IH]; intros i; simpl.
  - destruct (startsWith p []); [|discriminate]. intros [= <-] j Hj. lia.
  - destruct (startsWith p (c :: s)) eqn:E.
    + intros [= <-] j Hj. lia.
    + destruct (indexOf p s) as [k|] eqn:Ek; simpl; [|discriminate].
      intros [= <-] [|j] Hj; simpl; [assumption|].
      apply (IH k eq_refl). lia.
Qed.

Lemma indexOf_None_all (p s : jsstring) :
  indexOf p s = None -> forall j, startsWith p (skipn j s) = false.
Proof.
  induction s as [|c s IH]; simpl.
  - destruct (startsWith p []) eqn:E; [discriminate|].
    intros _ [|j]; simpl; assumption.
  - destruct (startsWith p (c :: s)) eqn:E; [discriminate|].
    destruct (indexOf p s) eqn:Ek; simpl; [discriminate|].
    intros _ [|j]; simpl; [assumption|]. now apply IH.
Qed.

Lemma indexOf_None_iff (p s : jsstring) :
  indexOf p s = None <-> ~ Substring p s.
Proof.
  split.
  - intros E [pre [post ->]].
    pose proof (indexOf_None_all _ _ E (length pre)) as F.
    rewrite skipn_app, skipn_all, Nat.sub_diag in F. simpl in F.
    now rewrite startsWith_app in F.
  - intro N. destruct (indexOf p s) as [i|] eqn:E; [|reflexivity].
    exfalso. apply N. destruct (indexOf_Some_split _ _ _ E) as [_ S].
    apply startsWith_spec in S as [t Ht].
    exists (firstn i s), t. rewrite <- Ht. symmetry. apply firstn_skipn.
Qed.

Lemma includes_true_iff (s p : jsstring) :
  includes s p = true <-> Substring p s.
Proof.
  unfold includes. destruct (indexOf p s) eqn:E.
  - split; [|reflexivity]. intros _.
    destruct (indexOf_Some_split _ _ _ E) as [_ S].
    apply startsWith_spec in S as [t Ht].
    exists (firstn n s), t. rewrite <- Ht. symmetry. apply firstn_skipn.
  - split; [discriminate|]. intro S. apply indexOf_None_iff in E. contradiction.
Qed.
Lemma Substring_trans (a b c : jsstring) :
  Substring a b -> Substring b c -> Substring a c.
Proof.
  intros (p1 & q1 & ->) (p2 & q2 & ->).
  exists (p2 ++ p1), (q1 ++ q2). now rewrite <- !app_assoc.
Qed.

(** ** The marker set *)

Lemma distinctb_NoDup (l : list jsstring) : distinctb l = true -> NoDup l.
Proof.
  induction l as [|x l IH]; simpl; intro E; [constructor|].
  apply andb_true_iff in E as [E1 E2]. constructor; [|now apply IH].
  intro Hin. apply negb_true_iff in E1.
  assert (existsb (str_eqb x) l = true) as F; [|congruence].
  apply existsb_exists. exists x. split; [assumption|apply str_eqb_refl].
Qed.

Lemma tokens_ok_sound (mk : Markers) :
  tokens_ok mk = true ->
  NoDup (tokens mk)
  /\ forall a b, In a (tokens mk) -> In b (tokens mk) -> a <> b -> ~ Substring a b.
Proof.
  unfold tokens_ok. intro E. apply andb_true_iff in E as [E1 E2]. split.
  - now apply distinctb_NoDup.
  - intros a b Ha Hb Hab Hsub.
    rewrite forallb_forall in E2. specialize (E2 a Ha).
    rewrite forallb_forall in E2. specialize (E2 b Hb).
    apply orb_true_iff in E2 as [E2|E2].
    + apply str_eqb_eq in E2. contradiction.
    + apply negb_true_iff in E2. apply includes_true_iff in Hsub. congruence.
Qed.

Lemma all_draws_checked : all_draws_ok = true.
Proof. vm_compute. reflexivity. Qed.

(** C9 (as amended): for every outcome of the three random draws of
    [generateMarkers], the eight tokens of the marker set are pairwise
    distinct and none is a substring of another.  The two decorative
    suffixes are drawn independently and need not differ. *)
Theorem generateMarkers_tokens_distinct (r1 r2 r3 : nat) :
  r1 < length DELIMITER_SETS ->
  r2 < length SUFFIX_POOL ->
  r3 < length SUFFIX_POOL ->
  NoDup (tokens (generateMarkers r1 r2 r3))
  /\ forall a b,
       In a (tokens (generateMarkers r1 r2 r3)) ->
       In b (tokens (generateMarkers r1 r2 r3)) ->
       a <> b -> ~ Substring a b.
Proof.
  intros H1 H2 H3. apply tokens_ok_sound.
  pose proof all_draws_checked as A. unfold all_draws_ok in A.
  assert (forall n k, n < k -> In n (seq 0 k)) as S by (intros; apply in_seq; lia).
  rewrite forallb_forall in A. specialize (A r1 (S _ _ H1)).
  rewrite forallb_forall in A. specialize (A r2 (S _ _ H2)).
  rewrite forallb_forall in A. exact (A r3 (S _ _ H3)).
Qed.

Lemma generateMarkers_tokens_distinct_witness :
  NoDup (tokens (generateMarkers 3 0 1))
  /\ forall a b,
       In a (tokens (generateMarkers 3 0 1)) ->
       In b (tokens (generateMarkers 3 0 1)) ->
       a <> b -> ~ Substring a b.
Proof.
  apply (generateMarkers_tokens_distinct 3 0 1); simpl; lia.
Defined.

(** C9, the part that fails: the draws [(2, 7, 7)] are a possible outcome
    and give a marker set whose two suffixes are the same character. *)
Lemma generateMarkers_suffixes_coincide :
  2 < length DELIMITER_SETS /\ 7 < length SUFFIX_POOL
  /\ ~ (suffix1_of (generateMarkers 2 7 7) <> suffix2_of (generateMarkers 2 7 7)).
Proof.
  repeat split; simpl; try lia. intro N. apply N. reflexivity.
Qed.
(** ** The regular expression of [parse] *)

Lemma greedy_ws_sound {R : Type} (k : jsstring -> option R) (s : jsstring) (r : R) :
  greedy_ws k s = Some r ->
  exists w t, forallb isWhiteSpace w = true /\ s = w ++ t /\ k t = Some r.
Proof.
  revert r; induction s as [|c s IH]; intros r; simpl.
  - intro E. exists [], []. auto.
  - destruct (isWhiteSpace c) eqn:W.
    + destruct (greedy_ws k s) as [r'|] eqn:G.
      * intros [= <-]. destruct (IH r' eq_refl) as (w & t & Hw & -> & Hk).
        exists (c :: w), t. simpl. rewrite W. auto.
      * intro E. exists [], (c :: s). auto.
    + intro E. exists [], (c :: s). auto.
Qed.

Lemma lazy_any_sound {R : Type} (k : jsstring -> option R) (s cap : jsstring) (r : R) :
  lazy_any k s = Some (cap, r) ->
  exists t, s = cap ++ t /\ k t = Some r.
Proof.
  revert cap r; induction s as [|c s IH]; intros cap r; simpl.
  - destruct (k []) eqn:K; [|discriminate]. intros [= <- <-]. exists []. auto.
  - destruct (k (c :: s)) eqn:K.
    + intros [= <- <-]. exists (c :: s). auto.
    + destruct (lazy_any k s) as [[cap' r']|] eqn:L; [|discriminate].
      intros [= <- <-]. destruct (IH _ _ eq_refl) as (t & -> & Hk).
      exists t. auto.
Qed.

Lemma re_match_sound (items : list re_item) (s : jsstring) caps rest :
  re_match items s = Some (caps, rest) ->
  exists region, s = region ++ rest /\ Matches items region caps.
Proof.
  revert s caps rest; induction items as [|[l| |] items IH]; intros s caps rest; simpl.
  - intros [= <- <-]. exists []. auto.
  - destruct (startsWith l s) eqn:S; [|discriminate]. intro E.
    destruct (IH _ _ _ E) as (region & Hs & Hm).
    exists (l ++ region). split.
    + rewrite <- app_assoc, <- Hs. now apply startsWith_skipn.
    + exists region. auto.
  - intro E. apply greedy_ws_sound in E as (w & t & Hw & -> & Hk).
    destruct (IH _ _ _ Hk) as (region & -> & Hm).
    exists (w ++ region). split; [now rewrite app_assoc|].
    exists w, region. auto.
  - destruct (lazy_any (re_match items) s) as [[cap [caps' rest']]|] eqn:L; [|discriminate].
    intros [= <- <-]. apply lazy_any_sound in L as (t & -> & Hk).
    destruct (IH _ _ _ Hk) as (region & -> & Hm).
    exists (cap ++ region). split; [now rewrite app_assoc|].
    exists cap, caps', region. auto.
Qed.

Lemma re_search_sound (items : list re_item) (s before : jsstring) caps rest :
  re_search items s = Some (before, caps, rest) ->
  exists region, s = before ++ region ++ rest /\ Matches items region caps.
Proof.
  revert before; induction s as [|c s IH]; intros before; simpl.
  - destruct (re_match items []) as [[caps' rest']|] eqn:M; [|discriminate].
    intros [= <- <- <-]. now apply re_match_sound.
  - destruct (re_match items (c :: s)) as [[caps' rest']|] eqn:M.
    + intros [= <- <- <-]. now apply re_match_sound.
    + destruct (re_search items s) as [[[b caps'] rest']|] eqn:F; [|discriminate].
      intros [= <- <- <-]. destruct (IH _ eq_refl) as (region & -> & Hm).
      exists region. auto.
Qed.

(** A match of the call regex is a region of the marker grammar. *)
Lemma call_regex_Matches (m : Markers) (region : jsstring) caps :
  Matches (call_regex m) region caps ->
  exists name args, caps = [name; args] /\ Grammar m region name args.
Proof.
  unfold call_regex. simpl.
  intros (r1 & -> & w1 & r2 & Hw1 & -> & r3 & -> & name & caps1 & r4 & -> & ->
          & r5 & -> & w2 & r6 & Hw2 & -> & r7 & -> & args & caps2 & r8 & -> & ->
          & r9 & -> & w3 & r10 & Hw3 & -> & r11 & -> & -> & ->).
  exists name, args. split; [reflexivity|].
  exists w1, w2, w3. repeat split; try assumption.
  now rewrite app_nil_r.
Qed.

Lemma call_regex_needs_start (m : Markers) (s : jsstring) :
  startsWith (TC_START m) s = false -> re_match (call_regex m) s = None.
Proof. intro E. unfold call_regex. simpl. now rewrite E. Qed.

Lemma re_search_call_sound (m : Markers) (s before : jsstring) caps rest :
  re_search (call_regex m) s = Some (before, caps, rest) ->
  exists region name args,
    caps = [name; args] /\ s = before ++ region ++ rest /\ Grammar m region name args.
Proof.
  intro E. apply re_search_sound in E as (region & Hs & Hm).
  apply call_regex_Matches in Hm as (name & args & -> & G).
  exists region, name, args. auto.
Qed.

Lemma re_search_unfold (items : list re_item) (s : jsstring) :
  re_search items s
  = match re_match items s with
    | Some (caps, rest) => Some ([], caps, rest)
    | None =>
        match s with
        | [] => None
        | c :: s' =>
            match re_search items s' with
            | Some (before, caps, rest) => Some (c :: before, caps, rest)
            | None => None
            end
        end
    end.
Proof. destruct s; reflexivity. Qed.

(** Where the call-start marker does not occur, nothing matches. *)
Lemma re_search_no_start (m : Markers) (s : jsstring) :
  indexOf (TC_START m) s = None -> re_search (call_regex m) s = None.
Proof.
  intro E. pose proof (indexOf_None_all _ _ E) as A. clear E.
  induction s as [|c s IH]; rewrite re_search_unfold.
  - now rewrite (call_regex_needs_start m [] (A 0)).
  - rewrite (call_regex_needs_start m (c :: s) (A 0)).
    rewrite IH; [reflexivity|]. intro j. apply (A (S j)).
Qed.

(** The search skips a prefix in which the marker does not start. *)
Lemma re_search_skip (m : Markers) (pre s : jsstring) :
  (forall j, j < length pre -> startsWith (TC_START m) (skipn j (pre ++ s)) = false) ->
  re_search (call_regex m) (pre ++ s)
  = match re_search (call_regex m) s with
    | Some (before, caps, rest) => Some (pre ++ before, caps, rest)
    | None => None
    end.
Proof.
  induction pre as [|c pre IH]; intro Hno.
  - simpl. destruct (re_search (call_regex m) s) as [[[b caps] rest]|]; reflexivity.
  - simpl app. rewrite re_search_unfold.
    rewrite call_regex_needs_start by (apply (Hno 0); simpl; lia).
    rewrite IH.
    + destruct (re_search (call_regex m) s) as [[[b caps] rest]|]; reflexivity.
    + intros j Hj. apply (Hno (S j)). simpl. lia.
Qed.

Section ParserFacts.

Variable H : Host.
Variable m : Markers.
Hypothesis start_nonempty : TC_START m <> [].

Lemma Grammar_length (region name args : jsstring) :
  Grammar m region name args -> 0 < length region.
Proof.
  intros (w1 & w2 & w3 & _ & _ & _ & ->).
  rewrite length_app. destruct (TC_START m); [contradiction|simpl; lia].
Qed.

Lemma re_search_shorter (s before : jsstring) caps rest :
  re_search (call_regex m) s = Some (before, caps, rest) ->
  length rest < length s.
Proof.
  intro E. apply re_search_call_sound in E as (region & name & args & _ & -> & G).
  apply Grammar_length in G. rewrite !length_app. lia.
Qed.

(** The loops never run out of fuel: more fuel than the length of the
    text changes nothing. *)
Lemma parse_loop_fuel (fuel : nat) (s : jsstring) (idx : nat) :
  length s < fuel -> parse_loop H m fuel s idx = find_calls H m s idx.
Proof.
  unfold find_calls.
  assert (forall n f1 f2 s idx, length s < n -> n <= f1 -> n <= f2 ->
            parse_loop H m f1 s idx = parse_loop H m f2 s idx) as G.
  { induction n as [|n IH]; intros f1 f2 s' idx' L L1 L2; [lia|].
    destruct f1 as [|f1]; [lia|]. destruct f2 as [|f2]; [lia|]. simpl.
    destruct (re_search (call_regex m) s') as [[[b caps] rest]|] eqn:E; [|reflexivity].
    pose proof (re_search_shorter _ _ _ _ E) as Sh.
    destruct (JSON_parse H _).
    - f_equal. apply IH; lia.
    - apply IH; lia. }
  intro L. apply (G (S (length s))); lia.
Qed.

Lemma replace_loop_fuel (fuel : nat) (s : jsstring) :
  length s < fuel -> replace_loop m fuel s = replace_calls m s.
Proof.
  unfold replace_calls.
  assert (forall n f1 f2 s, length s < n -> n <= f1 -> n <= f2 ->
            replace_loop m f1 s = replace_loop m f2 s) as G.
  { induction n as [|n IH]; intros f1 f2 s' L L1 L2; [lia|].
    destruct f1 as [|f1]; [lia|]. destruct f2 as [|f2]; [lia|]. simpl.
    destruct (re_search (call_regex m) s') as [[[b caps] rest]|] eqn:E; [|reflexivity].
    pose proof (re_search_shorter _ _ _ _ E) as Sh.
    f_equal. apply IH; lia. }
  intro L. apply (G (S (length s))); lia.
Qed.

(** One round of the [exec] loop and of [replace]. *)
Lemma find_calls_step (s : jsstring) (idx : nat) :
  find_calls H m s idx
  = match re_search (call_regex m) s with
    | None => []
    | Some (_, caps, rest) =>
        match JSON_parse H (trim (nth 1 caps [])) with
        | None => find_calls H m rest idx
        | Some _ =>
            {| tc_id := call_id H idx;
               tc_name := trim (nth 0 caps []);
               tc_arguments := trim (nth 1 caps []) |}
              :: find_calls H m rest (S idx)
        end
    end.
Proof.
  unfold find_calls at 1. simpl.
  destruct (re_search (call_regex m) s) as [[[b caps] rest]|] eqn:E; [|reflexivity].
  pose proof (re_search_shorter _ _ _ _ E) as Sh.
  rewrite !parse_loop_fuel by lia. reflexivity.
Qed.

Lemma replace_calls_step (s : jsstring) :
  replace_calls m s
  = match re_search (call_regex m) s with
    | None => s
    | Some (before, _, rest) => before ++ replace_calls m rest
    end.
Proof.
  unfold replace_calls at 1. simpl.
  destruct (re_search (call_regex m) s) as [[[b caps] rest]|] eqn:E; [|reflexivity].
  pose proof (re_search_shorter _ _ _ _ E) as Sh.
  now rewrite replace_loop_fuel by lia.
Qed.

Lemma parse_no_start (text : jsstring) :
  indexOf (TC_START m) text = None ->
  parse H m text = {| toolCalls := []; cleanContent := trim text |}.
Proof.
  intro E. unfold parse.
  rewrite find_calls_step, replace_calls_step, re_search_no_start by assumption.
  reflexivity.
Qed.

End ParserFacts.

(** ** JSON documents *)

Lemma obj_get_set_same (k : jsstring) (x : json) (o : jsobj) :
  obj_get k (obj_set k x o) = Some x.
Proof.
  induction o as [|[k' v] o IH]; simpl.
  - now rewrite str_eqb_refl.
  - destruct (str_eqb k' k) eqn:E; simpl; rewrite E; [reflexivity|assumption].
Qed.

Lemma obj_get_set_other (k k' : jsstring) (x : json) (o : jsobj) :
  k <> k' -> obj_get k' (obj_set k x o) = obj_get k' o.
Proof.
  intro N. induction o as [|[k0 v] o IH]; simpl.
  - destruct (str_eqb k k') eqn:E; [|reflexivity]. apply str_eqb_eq in E. contradiction.
  - destruct (str_eqb k0 k) eqn:E; simpl.
    + apply str_eqb_eq in E. subst k0.
      destruct (str_eqb k k') eqn:E'; [|reflexivity].
      apply str_eqb_eq in E'. contradiction.
    + destruct (str_eqb k0 k'); [reflexivity|assumption].
Qed.

Lemma nth_error_list_set (n : nat) (x : json) (l : list json) :
  nth_error (list_set n x l) n = Some x.
Proof.
  revert l; induction n as [|n IH]; intros [|y l]; simpl; auto.
Qed.

Lemma get_path_None (path : list pkey) : get_path None path = None.
Proof. induction path as [|k p IH]; simpl; auto. Qed.

Lemma get_path_cons (v : jsval) (k : pkey) (path : list pkey) :
  get_path v (k :: path) = get_path (get_opt v k) path.
Proof. reflexivity. Qed.

Lemma get_path_app (v : jsval) (p q : list pkey) :
  get_path v (p ++ q) = get_path (get_path v p) q.
Proof. unfold get_path. apply fold_left_app. Qed.

Lemma get_path_string (path : list pkey) (s : jsstring) (c : json) :
  get_path (Some (JStr s)) path = Some c -> exists s', c = JStr s'.
Proof.
  revert s; induction path as [|k p IH]; intros s; simpl.
  - intros [= <-]. now exists s.
  - destruct k as [name|n]; simpl.
    + change (get_path None p = Some c -> exists s', c = JStr s').
      rewrite get_path_None. discriminate.
    + destruct (nth_error s n) as [ch|]; simpl.
      * apply IH.
      * change (get_path None p = Some c -> exists s', c = JStr s').
        rewrite get_path_None. discriminate.
Qed.

(** Writing back a property that was read. *)
Lemma write_read_back (v : json) (k : pkey) (child x : json) :
  read v k = Some child ->
  (forall s, v <> JStr s) ->
  exists v', write v k x = Normal v' /\ read v' k = Some x
             /\ forall k', key_name k <> key_name k' ->
                           (forall o, v = JObj o -> read v' k' = read v k').
Proof.
  intros R NS. destruct v as [| | | s | l | o]; try discriminate.
  - exfalso. now apply (NS s).
  - destruct k as [name|n]; [discriminate|]. simpl in *.
    exists (JArr (list_set n x l)). split; [reflexivity|]. split.
    + apply nth_error_list_set.
    + intros k' _ o [=].
  - simpl in *. exists (JObj (obj_set (key_name k) x o)). split; [reflexivity|].
    split; [apply obj_get_set_same|].
    intros k' N o' _. simpl. now apply obj_get_set_other.
Qed.

Lemma modify_cons (k : pkey) (p : list pkey) (f : json -> completion json) (v : json) :
  modify (k :: p) f v
  = bind (get (Some v) k)
         (fun c => match c with
                   | None => TypeError
                   | Some c => bind (modify p f c) (fun c' => write v k c')
                   end).
Proof. reflexivity. Qed.

(** An assignment through a path that leads to an object succeeds, and
    the path then leads to the new value. *)
Lemma modify_get_path (path : list pkey) (f : json -> completion json)
      (v : json) (o : jsobj) (c' : json) :
  get_path (Some v) path = Some (JObj o) ->
  f (JObj o) = Normal c' ->
  exists v', modify path f v = Normal v' /\ get_path (Some v') path = Some c'.
Proof.
  revert v; induction path as [|k p IH]; intros v G F.
  - simpl in G. injection G as ->. exists c'. auto.
  - rewrite get_path_cons in G.
    destruct (get_opt (Some v) k) as [child|] eqn:R;
      [|rewrite get_path_None in G; discriminate].
    assert (v <> JNull) as NN by (intros ->; discriminate).
    assert (read v k = Some child) as R'.
    { destruct v; try contradiction; exact R. }
    assert (forall s, v <> JStr s) as NS.
    { intros s ->. destruct k as [name|n]; [discriminate|]. simpl in R'.
      destruct (nth_error s n) as [ch|]; [|discriminate]. simpl in R'.
      injection R' as <-. apply get_path_string in G as [s' [=]]. }
    destruct (IH child G F) as (child' & M & G').
    destruct (write_read_back v k child child' R' NS) as (v' & W & Rb & _).
    exists v'. split.
    + assert (get (Some v) k = Normal (Some child)) as Gk.
      { destruct v; try contradiction; simpl; now rewrite <- R'. }
      rewrite modify_cons, Gk. simpl. rewrite M. exact W.
    + rewrite get_path_cons.
      assert (get_opt (Some v') k = Some child') as E.
      { destruct v'; exact Rb. }
      rewrite E. exact G'.
Qed.
(** ** The non-stream finisher *)

Lemma get_opt_key_object (v : jsval) (name : jsstring) (x : json) :
  get_opt v (Key name) = Some x -> exists o, v = Some (JObj o) /\ obj_get name o = Some x.
Proof.
  destruct v as [[| | | | |o]|]; try discriminate.
  simpl. intro E. now exists o.
Qed.

Lemma get_path_snoc_key (v : jsval) (path : list pkey) (name : jsstring) (x : json) :
  get_path v (path ++ [Key name]) = Some x ->
  exists o, get_path v path = Some (JObj o) /\ obj_get name o = Some x.
Proof.
  rewrite get_path_app. simpl. apply get_opt_key_object.
Qed.

(** What the finisher does to a body whose primary message contains text. *)
Lemma finish_spec (H : Host) (m : Markers) (data : json) (text : jsstring) :
  primary_message_content data = Some (JStr text) ->
  text <> [] ->
  (toolCalls (parse H m text) <> [] ->
   exists data',
     finish H m true data = Normal data'
     /\ get_path (Some data') [k_choices; Index 0; k_message; k_tool_calls]
        = Some (JArr (List.map toolCall_json (toolCalls (parse H m text))))
     /\ primary_message_content data'
        = Some (match cleanContent (parse H m text) with
                | [] => JNull
                | _ :: _ => JStr (cleanContent (parse H m text))
                end)
     /\ get_path (Some data') [k_choices; Index 0; k_finish_reason]
        = Some (JStr (lit "tool_calls")))
  /\ (toolCalls (parse H m text) = [] -> finish H m true data = Normal data)
  /\ finish H m false data = Normal data
  /\ (forall other hasTools,
        truthy_val (primary_message_content other) = false ->
        finish H m hasTools other = Normal other).
Proof.
  intros P NE.
  assert (truthy_val (primary_message_content data) = true) as T.
  { rewrite P. destruct text; [contradiction|reflexivity]. }
  split; [|split; [|split]].
  - intro Calls. unfold finish. rewrite T, P. simpl andb. cbv iota zeta.
    destruct (toolCalls (parse H m text)) as [|tc tcs] eqn:ETC; [contradiction|].
    set (X := JArr (List.map toolCall_json (tc :: tcs))).
    set (Y := match cleanContent (parse H m text) with
              | [] => JNull
              | _ :: _ => JStr (cleanContent (parse H m text))
              end).
    set (Z := JStr (lit "tool_calls")).
    change (primary_message_content data)
      with (get_path (Some data) ([k_choices; Index 0; k_message] ++ [k_content])) in P.
    apply get_path_snoc_key in P as (mo & Pm & Pc).
    destruct (modify_get_path [k_choices; Index 0; k_message]
                (fun msg => write msg k_tool_calls X) data mo
                (JObj (obj_set (lit "tool_calls") X mo)) Pm eq_refl)
      as (d1 & M1 & G1).
    destruct (modify_get_path [k_choices; Index 0; k_message]
                (fun msg => write msg k_content Y) d1 _
                (JObj (obj_set (lit "content") Y (obj_set (lit "tool_calls") X mo)))
                G1 eq_refl)
      as (d2 & M2 & G2).
    pose proof G2 as G2'.
    change [k_choices; Index 0; k_message]
      with ([k_choices; Index 0] ++ [k_message]) in G2'.
    apply get_path_snoc_key in G2' as (co & Pco & Pmsg).
    destruct (modify_get_path [k_choices; Index 0]
                (fun c => write c k_finish_reason Z) d2 co
                (JObj (obj_set (lit "finish_reason") Z co)) Pco eq_refl)
      as (d3 & M3 & G3).
    exists d3. rewrite M1. unfold bind at 1. rewrite M2. unfold bind at 1. rewrite M3.
    split; [reflexivity|].
    assert (get_path (Some d3) [k_choices; Index 0; k_message]
            = Some (JObj (obj_set (lit "content") Y (obj_set (lit "tool_calls") X mo))))
      as G3m.
    { change [k_choices; Index 0; k_message]
        with ([k_choices; Index 0] ++ [k_message]).
      rewrite get_path_app, G3. simpl.
      rewrite obj_get_set_other by (intro E; vm_compute in E; discriminate).
      exact Pmsg. }
    split; [|split].
    + change [k_choices; Index 0; k_message; k_tool_calls]
        with ([k_choices; Index 0; k_message] ++ [k_tool_calls]).
      rewrite get_path_app, G3m. simpl.
      rewrite obj_get_set_other by (intro E; vm_compute in E; discriminate).
      apply obj_get_set_same.
    + change (primary_message_content d3)
        with (get_path (Some d3) ([k_choices; Index 0; k_message] ++ [k_content])).
      rewrite get_path_app, G3m. simpl. apply obj_get_set_same.
    + change [k_choices; Index 0; k_finish_reason]
        with ([k_choices; Index 0] ++ [k_finish_reason]).
      rewrite get_path_app, G3. simpl. apply obj_get_set_same.
  - intro Calls. unfold finish. rewrite T, P. simpl andb. cbv iota zeta.
    now rewrite Calls.
  - reflexivity.
  - intros other hasTools F. unfold finish. rewrite F.
    now rewrite andb_false_r.
Qed.

(** C5: for a response body whose primary message contains text, on a
    request that had tools the finisher runs [parse] over that text; if
    calls were found the result carries them as [tool_calls] on the
    message, the message text is the residual ([null] when the residual is
    empty) and the finish reason is ['tool_calls']; with no calls found,
    without tools, or with no text at all the body is returned unchanged. *)
Theorem finish_attaches_calls (H : Host) (m : Markers) (data : json) (text : jsstring) :
  primary_message_content data = Some (JStr text) ->
  text <> [] ->
  (toolCalls (parse H m text) <> [] ->
   exists data',
     finish H m true data = Normal data'
     /\ get_path (Some data') [k_choices; Index 0; k_message; k_tool_calls]
        = Some (JArr (List.map toolCall_json (toolCalls (parse H m text))))
     /\ primary_message_content data'
        = Some (match cleanContent (parse H m text) with
                | [] => JNull
                | _ :: _ => JStr (cleanContent (parse H m text))
                end)
     /\ get_path (Some data') [k_choices; Index 0; k_finish_reason]
        = Some (JStr (lit "tool_calls")))
  /\ (toolCalls (parse H m text) = [] -> finish H m true data = Normal data)
  /\ finish H m false data = Normal data
  /\ (forall other hasTools,
        truthy_val (primary_message_content other) = false ->
        finish H m hasTools other = Normal other).
Proof. exact (finish_spec H m data text). Qed.

Lemma finish_attaches_calls_witness :
  primary_message_content Examples.body_with_call
  = Some (JStr (lit "Let me check. " ++ call_text Examples.M (lit "f") (lit "{}")))
  /\ lit "Let me check. " ++ call_text Examples.M (lit "f") (lit "{}") <> []
  /\ toolCalls (parse Examples.H Examples.M
                  (lit "Let me check. " ++ call_text Examples.M (lit "f") (lit "{}"))) <> []
  /\ exists data',
       finish Examples.H Examples.M true Examples.body_with_call = Normal data'
       /\ primary_message_content data' = Some (JStr (lit "Let me check."))
       /\ get_path (Some data') [k_choices; Index 0; k_finish_reason]
          = Some (JStr (lit "tool_calls")).
Proof.
  assert (primary_message_content Examples.body_with_call
          = Some (JStr (lit "Let me check. " ++ call_text Examples.M (lit "f") (lit "{}"))))
    as P by reflexivity.
  assert (lit "Let me check. " ++ call_text Examples.M (lit "f") (lit "{}") <> [])
    as NE by discriminate.
  assert (toolCalls (parse Examples.H Examples.M
                       (lit "Let me check. " ++ call_text Examples.M (lit "f") (lit "{}")))
          <> []) as C by (vm_compute; discriminate).
  split; [exact P|]. split; [exact NE|]. split; [exact C|].
  destruct (finish_attaches_calls Examples.H Examples.M _ _ P NE) as (F & _).
  destruct (F C) as (data' & F1 & _ & F3 & F4).
  exists data'. split; [exact F1|]. split; [|exact F4].
  rewrite F3. vm_compute. reflexivity.
Defined.
(** ** SSE framing is independent of the chunking *)

Lemma startsWith_length (p s : jsstring) :
  startsWith p s = true -> length p <= length s.
Proof.
  intro E. apply startsWith_spec in E as [t ->]. rewrite length_app. lia.
Qed.

Lemma startsWith_app_long (p s t : jsstring) :
  length p <= length s -> startsWith p (s ++ t) = startsWith p s.
Proof.
  revert s; induction p as [|x p IH]; intros [|y s] L; simpl in *; try reflexivity.
  - lia.
  - destruct (N.eqb x y); [|reflexivity]. apply IH. lia.
Qed.

Lemma startsWith_app_true (p s t : jsstring) :
  startsWith p s = true -> startsWith p (s ++ t) = true.
Proof.
  intro E. apply startsWith_spec in E as [u ->]. rewrite <- app_assoc.
  apply startsWith_app.
Qed.

Lemma indexOf_unfold (p s : jsstring) :
  indexOf p s
  = if startsWith p s then Some 0
    else match s with
         | [] => None
         | _ :: s' => option_map S (indexOf p s')
         end.
Proof. destruct s; reflexivity. Qed.

Lemma indexOf_bound (p s : jsstring) (i : nat) :
  indexOf p s = Some i -> i + length p <= length s.
Proof.
  intro E. destruct (indexOf_Some_split _ _ _ E) as [L S].
  apply startsWith_length in S. rewrite length_skipn in S. lia.
Qed.

(** An occurrence found in a text is still the first one when more text
    is appended. *)
Lemma indexOf_app_Some (p s t : jsstring) (i : nat) :
  indexOf p s = Some i -> indexOf p (s ++ t) = Some i.
Proof.
  revert i; induction s as [|c s IH]; intros i E.
  - rewrite indexOf_unfold in E. destruct (startsWith p []) eqn:S; [|discriminate].
    injection E as <-. simpl app. rewrite indexOf_unfold.
    destruct p; [reflexivity|discriminate].
  - pose proof (indexOf_bound _ _ _ E) as B.
    rewrite indexOf_unfold in E. simpl app. rewrite indexOf_unfold.
    destruct (startsWith p (c :: s)) eqn:S.
    + change (c :: s ++ t) with ((c :: s) ++ t).
      now rewrite (startsWith_app_true _ _ t S).
    + destruct (indexOf p s) as [j|] eqn:J; [|discriminate].
      simpl in E. injection E as <-.
      change (c :: s ++ t) with ((c :: s) ++ t).
      rewrite startsWith_app_long by lia. rewrite S.
      now rewrite (IH j eq_refl).
Qed.

Lemma pushText_loop_unfold (fuel : nat) (buffer : jsstring) :
  pushText_loop (S fuel) buffer
  = match indexOf NLNL buffer with
    | None => ([], buffer)
    | Some idx =>
        let '(events, buffer') := pushText_loop fuel (slice_from (idx + 2) buffer) in
        (slice_to idx buffer :: events, buffer')
    end.
Proof. reflexivity. Qed.

(** The loop of [pushText] never runs out of fuel. *)
Lemma pushText_loop_fuel (fuel : nat) (b : jsstring) :
  length b <= fuel -> pushText_loop fuel b = pushText_loop (length b) b.
Proof.
  assert (forall n f1 f2 b, length b <= n -> n <= f1 -> n <= f2 ->
            pushText_loop f1 b = pushText_loop f2 b) as G.
  { induction n as [|n IH]; intros f1 f2 b' L L1 L2.
    - destruct b'; [|simpl in L; lia].
      destruct f1, f2; reflexivity.
    - destruct f1 as [|f1]; [lia|]. destruct f2 as [|f2]; [lia|].
      rewrite !pushText_loop_unfold.
      destruct (indexOf NLNL b') as [idx|] eqn:E; [|reflexivity].
      apply indexOf_bound in E. simpl in E.
      rewrite (IH f1 f2); [reflexivity| |lia|lia].
      unfold slice_from. rewrite length_skipn. lia. }
  intro L. apply (G (length b)); lia.
Qed.

Lemma frames_step (b : jsstring) :
  frames b
  = match indexOf NLNL b with
    | None => ([], b)
    | Some idx =>
        let '(events, b') := frames (skipn (idx + 2) b) in
        (firstn idx b :: events, b')
    end.
Proof.
  unfold frames. destruct b as [|c b].
  - reflexivity.
  - simpl length. rewrite pushText_loop_unfold.
    destruct (indexOf NLNL (c :: b)) as [idx|] eqn:E; [|reflexivity].
    apply indexOf_bound in E. simpl in E.
    unfold slice_from, slice_to. rewrite pushText_loop_fuel; [reflexivity|].
    rewrite length_skipn. cbn [length]. lia.
Qed.

Lemma frames_app (s t : jsstring) :
  frames (s ++ t)
  = let '(e1, r1) := frames s in
    let '(e2, r2) := frames (r1 ++ t) in
    (e1 ++ e2, r2).
Proof.
  remember (length s) as n eqn:Hn. revert s Hn.
  induction n as [n IH] using lt_wf_ind. intros s Hn.
  rewrite (frames_step s).
  destruct (indexOf NLNL s) as [idx|] eqn:E.
  - pose proof (indexOf_bound _ _ _ E) as B. simpl in B.
    rewrite (frames_step (s ++ t)), (indexOf_app_Some _ _ t _ E).
    rewrite skipn_app, firstn_app.
    replace (idx + 2 - length s) with 0 by lia.
    replace (idx - length s) with 0 by lia. simpl skipn. simpl firstn.
    rewrite app_nil_r.
    assert (length (skipn (idx + 2) s) < n) as Lt by (rewrite length_skipn; lia).
    rewrite (IH _ Lt _ eq_refl).
    destruct (frames (skipn (idx + 2) s)) as [e1 r1].
    destruct (frames (r1 ++ t)) as [e2 r2]. reflexivity.
  - destruct (frames (s ++ t)) as [e2 r2]. reflexivity.
Qed.

(** What [pushText] leaves in the buffer holds no complete frame. *)
Lemma frames_rest (b : jsstring) : indexOf NLNL (snd (frames b)) = None.
Proof.
  remember (length b) as n eqn:Hn. revert b Hn.
  induction n as [n IH] using lt_wf_ind. intros b Hn.
  rewrite (frames_step b).
  destruct (indexOf NLNL b) as [idx|] eqn:E; [|exact E].
  pose proof (indexOf_bound _ _ _ E) as B. simpl in B.
  assert (length (skipn (idx + 2) b) < n) as Lt by (rewrite length_skipn; lia).
  pose proof (IH _ Lt _ eq_refl) as R.
  destruct (frames (skipn (idx + 2) b)) as [e r]. exact R.
Qed.

Lemma frames_none (b : jsstring) : indexOf NLNL b = None -> frames b = ([], b).
Proof. intro E. now rewrite frames_step, E. Qed.

Lemma pushText_frames (buffer text : jsstring) :
  pushText buffer text = frames (buffer ++ text).
Proof. reflexivity. Qed.

(** ** Bytes and text *)

Ltac dlia := zify; Z.to_euclidean_division_equations; lia.

(** Settle the comparisons of the goal that arithmetic decides. *)
Ltac decide_cmp :=
  repeat match goal with
         | |- context [N.leb ?a ?b] =>
             first [ rewrite (proj2 (N.leb_le a b)) by dlia
                   | rewrite (proj2 (N.leb_gt a b)) by dlia ]
         | |- context [N.ltb ?a ?b] =>
             first [ rewrite (proj2 (N.ltb_lt a b)) by dlia
                   | rewrite (proj2 (N.ltb_ge a b)) by dlia ]
         | |- context [N.eqb ?a ?b] =>
             first [ rewrite (proj2 (N.eqb_eq a b)) by dlia
                   | rewrite (proj2 (N.eqb_neq a b)) by dlia ]
         end;
  cbn [andb orb negb].

(** The test [bytes_seen + 1 = bytes_needed] on a state that is written out. *)
Ltac seen_step :=
  cbn [Utf8.bytes_seen Utf8.bytes_needed Utf8.code_point];
  repeat match goal with
         | |- context [N.eqb (?a + 1)%N ?b] =>
             let v := eval vm_compute in (N.eqb (a + 1)%N b) in
             change (N.eqb (a + 1)%N b) with v
         end;
  cbv iota.

Section Utf8Facts.

Import Utf8.
Local Open Scope N_scope.

Lemma to_N_byte_of (n : N) : n <= 255 -> Byte.to_N (byte_of n) = n.
Proof.
  intro L. unfold byte_of. destruct (Byte.of_N n) as [b|] eqn:E.
  - now apply Byte.to_of_N.
  - apply Byte.of_N_None_iff in E. lia.
Qed.

Lemma is_scalar_spec (cp : N) :
  is_scalar cp = true <-> cp < 0xD800 \/ (0xDFFF < cp /\ cp < 0x110000).
Proof.
  unfold is_scalar. rewrite orb_true_iff, andb_true_iff, !N.ltb_lt. tauto.
Qed.

Lemma lead_1 (byte : N) : byte <= 0x7F -> lead byte = (start, [byte]).
Proof. intro L. unfold lead. now decide_cmp. Qed.

Lemma lead_2 (byte : N) :
  0xC2 <= byte <= 0xDF ->
  lead byte
  = ({| code_point := byte mod 32; bytes_seen := 0; bytes_needed := 1;
        lower_boundary := 0x80; upper_boundary := 0xBF |}, []).
Proof. intro L. unfold lead. now decide_cmp. Qed.

Lemma lead_3 (byte : N) :
  0xE0 <= byte <= 0xEF ->
  lead byte
  = ({| code_point := byte mod 16; bytes_seen := 0; bytes_needed := 2;
        lower_boundary := if byte =? 0xE0 then 0xA0 else 0x80;
        upper_boundary := if byte =? 0xED then 0x9F else 0xBF |}, []).
Proof. intro L. unfold lead. now decide_cmp. Qed.

Lemma lead_4 (byte : N) :
  0xF0 <= byte <= 0xF4 ->
  lead byte
  = ({| code_point := byte mod 8; bytes_seen := 0; bytes_needed := 3;
        lower_boundary := if byte =? 0xF0 then 0x90 else 0x80;
        upper_boundary := if byte =? 0xF4 then 0x8F else 0xBF |}, []).
Proof. intro L. unfold lead. now decide_cmp. Qed.

Lemma lead_error (byte : N) :
  0x80 <= byte <= 0xC1 \/ 0xF5 <= byte ->
  lead byte = (start, [REPLACEMENT]).
Proof. intros [L|L]; unfold lead; now decide_cmp. Qed.

Lemma start_ok : decoder_ok start.
Proof. split; [cbn; lia|]. left. reflexivity. Qed.

Lemma lead_ok (byte : N) :
  decoder_ok (fst (lead byte)) /\ forallb is_scalar (snd (lead byte)) = true.
Proof.
  assert (byte <= 0x7F \/ 0x80 <= byte <= 0xC1 \/ 0xC2 <= byte <= 0xDF
          \/ 0xE0 <= byte <= 0xEF \/ 0xF0 <= byte <= 0xF4 \/ 0xF5 <= byte)
    as [L|[L|[L|[L|[L|L]]]]] by lia.
  - rewrite (lead_1 _ L). split; [apply start_ok|]. cbn [snd forallb].
    rewrite andb_true_r. apply is_scalar_spec. lia.
  - rewrite lead_error by tauto. split; [apply start_ok|reflexivity].
  - rewrite (lead_2 _ L). split; [|reflexivity]. split; [cbn; lia|].
    right. left. cbn. dlia.
  - rewrite (lead_3 _ L). split; [|reflexivity]. cbn [fst].
    split; [cbn; destruct (N.eqb_spec byte 0xE0), (N.eqb_spec byte 0xED); lia|].
    right. right. left. cbn.
    destruct (N.eqb_spec byte 0xE0), (N.eqb_spec byte 0xED); dlia.
  - rewrite (lead_4 _ L). split; [|reflexivity]. cbn [fst].
    split; [cbn; destruct (N.eqb_spec byte 0xF0), (N.eqb_spec byte 0xF4); lia|].
    do 4 right. left. cbn.
    destruct (N.eqb_spec byte 0xF0), (N.eqb_spec byte 0xF4); dlia.
  - rewrite lead_error by tauto. split; [apply start_ok|reflexivity].
Qed.

(** A byte inside the boundaries of an open sequence. *)
Lemma handler_continue (d : decoder) (byte : N) :
  bytes_needed d <> 0 ->
  lower_boundary d <= byte <= upper_boundary d ->
  handler d byte
  = if bytes_seen d + 1 =? bytes_needed d
    then (start, [code_point d * 64 + byte mod 64])
    else ({| code_point := code_point d * 64 + byte mod 64;
             bytes_seen := bytes_seen d + 1;
             bytes_needed := bytes_needed d;
             lower_boundary := 0x80; upper_boundary := 0xBF |}, []).
Proof. intros N0 L. unfold handler. now decide_cmp. Qed.

Lemma handler_ok (d : decoder) (byte : N) :
  decoder_ok d ->
  decoder_ok (fst (handler d byte))
  /\ forallb is_scalar (snd (handler d byte)) = true.
Proof.
  intros [[Lo Hi] K].
  destruct (N.eq_dec (bytes_needed d) 0) as [Z|NZ].
  { unfold handler. rewrite Z. cbn [N.eqb]. apply lead_ok. }
  destruct K as [K|K]; [contradiction|].
  assert (byte < lower_boundary d \/ upper_boundary d < byte
          \/ lower_boundary d <= byte <= upper_boundary d) as [O|[O|I]] by lia.
  1,2: unfold handler; rewrite (proj2 (N.eqb_neq _ _) NZ);
       assert ((byte <? lower_boundary d) || (upper_boundary d <? byte) = true) as ->
         by (apply orb_true_iff; rewrite !N.ltb_lt; tauto);
       destruct (lead_ok byte) as [A B]; destruct (lead byte) as [d' out];
       split; [exact A|exact B].
  rewrite (handler_continue d byte NZ I).
  destruct K as [(E1 & E2 & C)|[(E1 & E2 & C & B1 & B2)|[(E1 & E2 & C & B)|
                 [(E1 & E2 & C & B1 & B2)|[(E1 & E2 & C)|(E1 & E2 & C)]]]]];
    rewrite E1, E2; cbn [N.add N.eqb Pos.add Pos.eqb Pos.succ fst snd forallb];
    rewrite ?andb_true_r.
  - split; [apply start_ok|]. apply is_scalar_spec. dlia.
  - split; [|reflexivity]. split; [cbn; lia|]. right. right. right. left.
    cbn. repeat split; dlia.
  - split; [apply start_ok|]. apply is_scalar_spec. dlia.
  - split; [|reflexivity]. split; [cbn; lia|]. do 5 right. left.
    cbn. repeat split; dlia.
  - split; [|reflexivity]. split; [cbn; lia|]. do 5 right.
    cbn. repeat split; dlia.
  - split; [apply start_ok|]. apply is_scalar_spec. dlia.
Qed.

Lemma decode_bytes_ok (bytes : Buffer) (d : decoder) :
  decoder_ok d ->
  decoder_ok (fst (decode_bytes d bytes))
  /\ forallb is_scalar (snd (decode_bytes d bytes)) = true.
Proof.
  revert d. induction bytes as [|b bytes IH]; intros d Ok.
  - split; [exact Ok|reflexivity].
  - cbn [decode_bytes].
    destruct (handler_ok d (Byte.to_N b) Ok) as [Ok1 S1].
    destruct (handler d (Byte.to_N b)) as [d1 out1]. cbn [fst snd] in *.
    destruct (IH d1 Ok1) as [Ok2 S2].
    destruct (decode_bytes d1 bytes) as [d2 out2]. cbn [fst snd] in *.
    split; [exact Ok2|]. rewrite forallb_app, S1, S2. reflexivity.
Qed.

Lemma decode_bytes_app (a b : Buffer) (d : decoder) :
  decode_bytes d (a ++ b)
  = let '(d1, out1) := decode_bytes d a in
    let '(d2, out2) := decode_bytes d1 b in
    (d2, out1 ++ out2).
Proof.
  revert d. induction a as [|x a IH]; intro d.
  - cbn [app decode_bytes]. now destruct (decode_bytes d b).
  - cbn [app decode_bytes]. destruct (handler d (Byte.to_N x)) as [d1 out1].
    rewrite IH. destruct (decode_bytes d1 a) as [d2 out2].
    destruct (decode_bytes d2 b) as [d3 out3]. now rewrite app_assoc.
Qed.

(** A scalar value survives the way from a string to bytes and back. *)
Lemma scalar_values_utf16 (cp : N) (s : jsstring) :
  is_scalar cp = true -> scalar_values (utf16 cp ++ s) = cp :: scalar_values s.
Proof.
  intro S. apply is_scalar_spec in S. unfold utf16.
  destruct (N.ltb_spec cp 0x10000) as [L|L].
  - cbn [app scalar_values]. unfold is_high, is_low.
    destruct S as [S|S]; decide_cmp; reflexivity.
  - cbn [app scalar_values]. unfold is_high, is_low. decide_cmp.
    f_equal. dlia.
Qed.

Lemma scalar_values_flat_map (cps : list N) :
  forallb is_scalar cps = true -> scalar_values (flat_map utf16 cps) = cps.
Proof.
  induction cps as [|cp cps IH]; [reflexivity|].
  cbn [forallb flat_map]. intro S. apply andb_true_iff in S as [S1 S2].
  now rewrite (scalar_values_utf16 _ _ S1), (IH S2).
Qed.

Lemma decode_cons (d : decoder) (b : Byte.byte) (bytes : Buffer) :
  decode_bytes d (b :: bytes)
  = let '(d1, out1) := handler d (Byte.to_N b) in
    let '(d2, out2) := decode_bytes d1 bytes in
    (d2, out1 ++ out2).
Proof. reflexivity. Qed.

Lemma handler_start (byte : N) : handler start byte = lead byte.
Proof. reflexivity. Qed.

Lemma decode_encode (cp : N) (bytes : Buffer) :
  is_scalar cp = true ->
  decode_bytes start (encode cp ++ bytes)
  = let '(d, out) := decode_bytes start bytes in (d, cp :: out).
Proof.
  intro S. apply is_scalar_spec in S. unfold encode.
  destruct (N.ltb_spec cp 0x80) as [L1|L1];
    [|destruct (N.ltb_spec cp 0x800) as [L2|L2];
      [|destruct (N.ltb_spec cp 0x10000) as [L3|L3]]].
  - cbn [app]. rewrite decode_cons, to_N_byte_of, handler_start, lead_1 by lia.
    now destruct (decode_bytes start bytes).
  - cbn [app]. rewrite decode_cons, to_N_byte_of, handler_start, lead_2 by dlia.
    rewrite decode_cons, to_N_byte_of, handler_continue
      by (cbn [bytes_needed lower_boundary upper_boundary]; dlia).
    seen_step.
    destruct (decode_bytes start bytes). cbn [app]. f_equal. f_equal. dlia.
  - cbn [app]. rewrite decode_cons, to_N_byte_of, handler_start, lead_3 by dlia.
    rewrite decode_cons, to_N_byte_of by dlia.
    rewrite handler_continue;
      [|discriminate
       |cbn [lower_boundary upper_boundary];
        destruct (N.eqb_spec (0xE0 + cp / 4096) 0xE0),
                 (N.eqb_spec (0xE0 + cp / 4096) 0xED); dlia].
    seen_step.
    rewrite decode_cons, to_N_byte_of, handler_continue
      by (cbn [bytes_needed lower_boundary upper_boundary]; dlia).
    seen_step.
    destruct (decode_bytes start bytes). cbn [app]. f_equal. f_equal. dlia.
  - cbn [app]. rewrite decode_cons, to_N_byte_of, handler_start, lead_4 by dlia.
    rewrite decode_cons, to_N_byte_of by dlia.
    rewrite handler_continue;
      [|discriminate
       |cbn [lower_boundary upper_boundary];
        destruct (N.eqb_spec (0xF0 + cp / 262144) 0xF0),
                 (N.eqb_spec (0xF0 + cp / 262144) 0xF4); dlia].
    seen_step.
    rewrite decode_cons, to_N_byte_of, handler_continue
      by (cbn [bytes_needed lower_boundary upper_boundary]; dlia).
    seen_step.
    rewrite decode_cons, to_N_byte_of, handler_continue
      by (cbn [bytes_needed lower_boundary upper_boundary]; dlia).
    seen_step.
    destruct (decode_bytes start bytes). cbn [app]. f_equal. f_equal. dlia.
Qed.

Lemma decode_flat_map_encode (cps : list N) :
  forallb is_scalar cps = true ->
  decode_bytes start (flat_map encode cps) = (start, cps).
Proof.
  induction cps as [|cp cps IH]; [reflexivity|].
  cbn [forallb flat_map]. intro S. apply andb_true_iff in S as [S1 S2].
  now rewrite (decode_encode _ _ S1), (IH S2).
Qed.

End Utf8Facts.

(** A string made of scalar values is the text of the [Buffer] made
    from it. *)
Lemma Buffer_round_trip (cps : list N) :
  forallb Utf8.is_scalar cps = true ->
  Buffer_toString (Buffer_from (flat_map Utf8.utf16 cps)) = flat_map Utf8.utf16 cps.
Proof.
  intro S. unfold Buffer_toString, Buffer_from.
  rewrite (scalar_values_flat_map _ S), (decode_flat_map_encode _ S).
  cbn. now rewrite app_nil_r.
Qed.

Lemma strip_BOM_scalar (seen : bool) (cps : list N) :
  forallb Utf8.is_scalar cps = true ->
  forallb Utf8.is_scalar (strip_BOM seen cps) = true.
Proof.
  intro S. unfold strip_BOM. destruct seen; [exact S|].
  destruct cps as [|cp cps]; [reflexivity|].
  destruct (N.eqb cp 0xFEFF); [|exact S].
  cbn [forallb] in S. now apply andb_true_iff in S as [_ S].
Qed.

Lemma strip_BOM_app (seen : bool) (a b : list N) :
  strip_BOM seen (a ++ b)
  = strip_BOM seen a ++ strip_BOM (match a with [] => seen | _ :: _ => true end) b.
Proof.
  unfold strip_BOM. destruct seen; [now destruct a|].
  destruct a as [|cp a]; [reflexivity|]. cbn [app].
  now destruct (N.eqb cp 0xFEFF).
Qed.

(** Decoding in stream mode does not depend on where the bytes are cut. *)
Lemma TextDecoder_decode_app (td : TextDecoder) (a b : Buffer) :
  TextDecoder_decode td (a ++ b)
  = let '(td1, s1) := TextDecoder_decode td a in
    let '(td2, s2) := TextDecoder_decode td1 b in
    (td2, s1 ++ s2).
Proof.
  unfold TextDecoder_decode. rewrite decode_bytes_app.
  destruct (Utf8.decode_bytes (td_decoder td) a) as [d1 out1]. cbn [td_decoder BOM_seen].
  destruct (Utf8.decode_bytes d1 b) as [d2 out2].
  rewrite strip_BOM_app, flat_map_app. f_equal. f_equal.
  destruct out1, out2; reflexivity.
Qed.

(** What [decode] returns is made of scalar values, and the decoder
    stays in one of its states. *)
Lemma TextDecoder_decode_ok (td : TextDecoder) (value : Buffer) :
  decoder_ok (td_decoder td) ->
  decoder_ok (td_decoder (fst (TextDecoder_decode td value)))
  /\ exists cps, forallb Utf8.is_scalar cps = true
                 /\ snd (TextDecoder_decode td value) = flat_map Utf8.utf16 cps.
Proof.
  intro Ok. unfold TextDecoder_decode.
  destruct (decode_bytes_ok value _ Ok) as [Ok1 S1].
  destruct (Utf8.decode_bytes (td_decoder td) value) as [d cps]. cbn [fst snd] in *.
  split; [exact Ok1|]. exists (strip_BOM (BOM_seen td) cps).
  split; [now apply strip_BOM_scalar|reflexivity].
Qed.

Section TranscoderFacts.

Variable H : Host.
Variable m : Markers.

Lemma on_events_app (st : TState) (e1 e2 : list jsstring) :
  on_events H m st (e1 ++ e2)
  = continue (on_events H m st e1) (fun st' => on_events H m st' e2).
Proof.
  revert st; induction e1 as [|e e1 IH]; intro st.
  - unfold continue. simpl. destruct (on_events H m st e2); reflexivity.
  - simpl. destruct (next (on_event H m st e)) as [st'|] eqn:N.
    + rewrite IH. unfold continue. simpl.
      destruct (next (on_events H m st' e1)) as [st''|] eqn:N'; simpl.
      * now rewrite app_assoc.
      * now rewrite N'.
    + unfold continue. now rewrite N.
Qed.

(** Feeding the chunks of a stream is processing the frames of its text. *)
Lemma feed_frames (values : list Buffer) (td : TextDecoder) (buffer : jsstring)
      (st : TState) :
  decoder_ok (td_decoder td) ->
  indexOf NLNL buffer = None ->
  feed H m td buffer st values
  = on_events H m st
      (fst (frames (buffer ++ snd (TextDecoder_decode td (concat values))))).
Proof.
  revert td buffer st; induction values as [|v values IH]; intros td buffer st Ok B.
  - cbn [feed concat]. unfold TextDecoder_decode. cbn [Utf8.decode_bytes snd].
    assert (strip_BOM (BOM_seen td) [] = []) as -> by now destruct (BOM_seen td).
    cbn [flat_map]. rewrite app_nil_r, (frames_none _ B). reflexivity.
  - cbn [feed concat]. rewrite TextDecoder_decode_app.
    destruct (TextDecoder_decode_ok td v Ok) as (Ok1 & cps & Sc & Es).
    destruct (TextDecoder_decode td v) as [td1 s]. cbn [fst snd] in Ok1, Es.
    unfold transformer_write, transform.
    rewrite Es, (Buffer_round_trip _ Sc), <- Es.
    rewrite pushText_frames.
    destruct (TextDecoder_decode td1 (concat values)) as [td2 s2] eqn:E2.
    cbn [snd]. rewrite app_assoc, (frames_app (buffer ++ s) s2).
    pose proof (frames_rest (buffer ++ s)) as R.
    destruct (frames (buffer ++ s)) as [e1 r1]. cbn [snd] in R.
    specialize (IH td1 r1). rewrite E2 in IH. cbn [snd] in IH.
    destruct (frames (r1 ++ s2)) as [e2 r2]. cbn [fst] in *.
    rewrite on_events_app. unfold continue.
    destruct (next (on_events H m st e1)) as [st'|]; [|reflexivity].
    now rewrite (IH st' Ok1 R).
Qed.

End TranscoderFacts.

Lemma run_frames (H : Host) (m : Markers) (values : list Buffer) :
  run H m values
  = match next (on_events H m initial (fst (frames (received_text values)))) with
    | Some st =>
        pushes (on_events H m initial (fst (frames (received_text values))))
        ++ pushes (flush H m st)
    | None => pushes (on_events H m initial (fst (frames (received_text values))))
    end.
Proof.
  unfold run, received_text.
  now rewrite (feed_frames H m values TextDecoder_new [] initial start_ok eq_refl).
Qed.

(** C1: however the bytes of an event stream are cut into chunks, a cut
    in the middle of a character, of a marker or of a frame separator
    included, the transcoder pushes the same sequence of events, hence
    the same tool calls and the same residual text, as when the whole
    stream arrives in one chunk: what it pushes is what the handlers
    push on the frames of the text of the whole stream, followed by what
    [flush] pushes. *)
Theorem run_chunking_invariant (H : Host) (m : Markers) (values : list Buffer) :
  run H m values = run H m [concat values]
  /\ run H m values
     = match next (on_events H m initial (fst (frames (received_text values)))) with
       | Some st =>
           pushes (on_events H m initial (fst (frames (received_text values))))
           ++ pushes (flush H m st)
       | None => pushes (on_events H m initial (fst (frames (received_text values))))
       end.
Proof.
  split; [|apply run_frames].
  rewrite !run_frames. unfold received_text. cbn [concat]. now rewrite app_nil_r.
Qed.

(** A cut inside the first character of the call-start marker, which
    takes three bytes: the first part alone is not the encoding of a
    text, and the run over the two parts is the run over the whole
    stream, with the event that carries the call. *)
Lemma cut_inside_marker_character :
  let b := Buffer_from (concat Examples.chunks_with_call) in
  Utf8.encode (hd 0%N (TC_START Examples.M)) = firstn 3 (skipn 73 b)
  /\ existsb (N.eqb Utf8.REPLACEMENT) (Buffer_toString (firstn 74 b)) = true
  /\ run Examples.H Examples.M [firstn 74 b; skipn 74 b] = run Examples.H Examples.M [b]
  /\ existsb carries_tool_calls (run Examples.H Examples.M [firstn 74 b; skipn 74 b])
     = true.
Proof. cbv zeta. repeat split; vm_compute; reflexivity. Qed.

(** ** End of stream without an envelope *)

Section NoEnvelope.

Variable H : Host.
Variable m : Markers.

Lemma on_done_no_envelope (st : TState) :
  lastEnvelope st = JNull ->
  on_done H m st = {| pushes := [PushText (sseEncodeData DONE)]; next := Some st |}.
Proof.
  intro E. unfold on_done. rewrite E. simpl truthy. rewrite !andb_false_r.
  destruct (nonempty (toolBuffer st)); reflexivity.
Qed.

Lemma flush_no_envelope (st : TState) :
  lastEnvelope st = JNull ->
  flush H m st = {| pushes := []; next := Some st |}.
Proof.
  intro E. unfold flush. rewrite E. simpl truthy.
  rewrite !andb_false_r. reflexivity.
Qed.

Lemma on_event_not_envelope (st : TState) (e : jsstring) :
  lastEnvelope st = JNull ->
  not_envelope H e = true ->
  exists s, on_event H m st e = {| pushes := [PushText s]; next := Some st |}.
Proof.
  intros E N. unfold on_event. unfold not_envelope in N.
  destruct (isDoneEvent e).
  - rewrite on_done_no_envelope by assumption. eauto.
  - simpl in N. rewrite N. eexists. reflexivity.
Qed.

Lemma on_events_not_envelope (evs : list jsstring) (st : TState) :
  lastEnvelope st = JNull ->
  (forall e, In e evs -> not_envelope H e = true) ->
  next (on_events H m st evs) = Some st
  /\ forall p, In p (pushes (on_events H m st evs)) -> is_json_push p = false.
Proof.
  intros E. induction evs as [|e evs IH]; intro A.
  - simpl. split; [reflexivity|]. intros p [].
  - destruct (on_event_not_envelope st e E (A e (or_introl eq_refl))) as [s Hs].
    simpl. rewrite Hs. simpl.
    destruct IH as [N P]; [intros e' He'; apply A; now right|].
    split; [exact N|]. intros p [<-|Hp]; [reflexivity|]. now apply P.
Qed.

End NoEnvelope.

(** C10: while no frame has been decoded as a JSON envelope
    ([lastEnvelope] is still [null]) the end of the stream, with or
    without the sentinel, emits neither a residual-content event nor a
    tool-call event, whatever the pending tail and the tool buffer hold:
    the [[DONE]] branch pushes the sentinel only and [flush] pushes
    nothing.  A whole stream without an envelope therefore yields no JSON
    event at all. *)
Theorem no_envelope_no_synthesis (H : Host) (m : Markers) :
  (forall st,
      lastEnvelope st = JNull ->
      pushes (on_done H m st) = [PushText (sseEncodeData DONE)]
      /\ pushes (flush H m st) = [])
  /\ (forall values,
        (forall e, In e (fst (frames (received_text values))) ->
                   not_envelope H e = true) ->
        forall p, In p (run H m values) -> is_json_push p = false).
Proof.
  split.
  - intros st E. now rewrite on_done_no_envelope, flush_no_envelope.
  - intros values A p. rewrite run_frames.
    destruct (on_events_not_envelope H m (fst (frames (received_text values))) initial
                eq_refl A) as [N P].
    rewrite N, flush_no_envelope by reflexivity. simpl. rewrite app_nil_r.
    apply P.
Qed.

Lemma no_envelope_no_synthesis_witness :
  (forall e, In e (fst (frames (received_text
                                  (List.map Buffer_from Examples.chunks_no_envelope)))) ->
             not_envelope Examples.H e = true)
  /\ run Examples.H Examples.M (List.map Buffer_from Examples.chunks_no_envelope)
     = [ PushText (lit ": keep-alive" ++ NLNL);
         PushText (lit "data: not json" ++ NLNL);
         PushText (sseEncodeData DONE) ]
  /\ forall p,
       In p (run Examples.H Examples.M
               (List.map Buffer_from Examples.chunks_no_envelope)) ->
       is_json_push p = false.
Proof.
  assert (forall e, In e (fst (frames (received_text
                                         (List.map Buffer_from
                                            Examples.chunks_no_envelope)))) ->
                    not_envelope Examples.H e = true) as A.
  { intros e He. vm_compute in He.
    repeat (destruct He as [<-|He]; [vm_compute; reflexivity|]). contradiction. }
  split; [exact A|]. split; [vm_compute; reflexivity|].
  destruct (no_envelope_no_synthesis Examples.H Examples.M) as [_ R].
  exact (R (List.map Buffer_from Examples.chunks_no_envelope) A).
Defined.

(** ** The suffix hold-back of the streaming transformer *)

Lemma endsWith_spec (s p : jsstring) :
  endsWith s p = true <-> exists a, s = a ++ p.
Proof.
  unfold endsWith. split.
  - intro E. apply andb_true_iff in E as [L E]. apply str_eqb_eq in E.
    exists (firstn (length s - length p) s).
    transitivity (firstn (length s - length p) s ++ skipn (length s - length p) s).
    + symmetry. apply firstn_skipn.
    + f_equal. exact E.
  - intros [a ->]. rewrite length_app. apply andb_true_iff. split.
    + apply Nat.leb_le. lia.
    + replace (length a + length p - length p) with (length a) by lia.
      rewrite skipn_app, skipn_all, Nat.sub_diag. simpl. apply str_eqb_refl.
Qed.

Lemma indexOf_Some_iff (p s : jsstring) (i : nat) :
  indexOf p s = Some i
  <-> i <= length s /\ startsWith p (skipn i s) = true
      /\ forall j, j < i -> startsWith p (skipn j s) = false.
Proof.
  split.
  - intro E. destruct (indexOf_Some_split _ _ _ E) as [L S].
    repeat split; try assumption. now apply indexOf_Some_first.
  - revert i; induction s as [|c s IH]; intros i (L & Hst & F).
    + simpl in L. assert (i = 0) as -> by lia. simpl in Hst.
      rewrite indexOf_unfold. now rewrite Hst.
    + rewrite indexOf_unfold. destruct i as [|i].
      * simpl in Hst. now rewrite Hst.
      * pose proof (F 0 (Nat.lt_0_succ _)) as F0. simpl in F0. rewrite F0.
        rewrite (IH i); [reflexivity|]. simpl in L, Hst.
        repeat split; [lia|assumption|].
        intros j Hj. apply (F (S j)). lia.
Qed.

Lemma indexOf_None_iff_all (p s : jsstring) :
  indexOf p s = None <-> forall j, startsWith p (skipn j s) = false.
Proof.
  split; [apply indexOf_None_all|].
  intro A. destruct (indexOf p s) as [i|] eqn:E; [|reflexivity].
  destruct (indexOf_Some_split _ _ _ E) as [_ S]. now rewrite A in S.
Qed.

Lemma firstn_firstn_le (i j : nat) (l : jsstring) :
  i <= j -> firstn i (firstn j l) = firstn i l.
Proof. intro L. rewrite firstn_firstn. now rewrite Nat.min_l. Qed.

Lemma length_firstn_lt (i : nat) (l : jsstring) :
  i < length l -> length (firstn i l) = i.
Proof. intro L. rewrite length_firstn. lia. Qed.

Section HoldBack.

Variable marker : jsstring.
Hypothesis marker_nonempty : marker <> [].

Lemma marker_length : 0 < length marker.
Proof. destruct marker; [contradiction|simpl; lia]. Qed.

Lemma EndsWithPrefix_le (text : jsstring) (i : nat) :
  EndsWithPrefix marker text i -> i <= length text.
Proof.
  intros [L [a ->]]. rewrite length_app, length_firstn_lt by assumption. lia.
Qed.

(** A prefix of the marker at the end of the text is a proper prefix of
    the marker again when cut. *)
Lemma prefix_of_prefix (l x : jsstring) (j : nat) :
  firstn j marker = l ++ x -> l = firstn (length l) marker.
Proof.
  intro E. assert (length l <= j) as L.
  { apply (f_equal (@length _)) in E. rewrite length_app, length_firstn in E. lia. }
  rewrite <- (firstn_firstn_le (length l) j marker L), E.
  rewrite firstn_app, Nat.sub_diag, firstn_all. simpl. now rewrite app_nil_r.
Qed.

Lemma findPartial_loop_spec (text : jsstring) (k : nat) :
  k < length marker ->
  exists i,
    i <= k /\ findPartial_loop k text marker = length text - i
    /\ EndsWithPrefix marker text i
    /\ forall j, j <= k -> EndsWithPrefix marker text j -> j <= i.
Proof.
  induction k as [|k IH]; intro L.
  - exists 0. split; [lia|]. split; [simpl; lia|]. split.
    + split; [assumption|]. exists text. simpl. now rewrite app_nil_r.
    + intros j Hj _. exact Hj.
  - change (findPartial_loop (S k) text marker)
      with (if endsWith text (firstn (S k) marker) then length text - S k
            else findPartial_loop k text marker).
    destruct (endsWith text (firstn (S k) marker)) eqn:E.
    + exists (S k). split; [lia|]. split; [reflexivity|]. split.
      * split; [assumption|]. now apply endsWith_spec.
      * intros j Hj _. exact Hj.
    + destruct IH as (i & Li & Ei & Pi & Mi); [lia|].
      exists i. split; [lia|]. split; [assumption|]. split; [assumption|].
      intros j Hj Pj. destruct (Nat.eq_dec j (S k)) as [->|N].
      * destruct Pj as [_ Pj]. apply endsWith_spec in Pj. congruence.
      * apply Mi; [lia|assumption].
Qed.

(** [findPartialMatchEndIndex] cuts the text before the longest proper
    prefix of the marker it ends with. *)
Lemma findPartialMatchEndIndex_spec (text : jsstring) :
  exists a i,
    text = a ++ firstn i marker
    /\ i < length marker
    /\ firstn (findPartialMatchEndIndex text marker) text = a
    /\ skipn (findPartialMatchEndIndex text marker) text = firstn i marker
    /\ forall j, EndsWithPrefix marker text j -> j <= i.
Proof.
  pose proof marker_length as ML.
  destruct (findPartial_loop_spec text (length marker - 1)) as (i & Li & Ei & Pi & Mi);
    [lia|].
  destruct Pi as [Lt [a Ha]].
  exists a, i. unfold findPartialMatchEndIndex. rewrite Ei.
  assert (length text - i = length a) as ->.
  { rewrite Ha, length_app, length_firstn_lt by assumption. lia. }
  repeat split; try assumption.
  - rewrite Ha, firstn_app, Nat.sub_diag, firstn_all. simpl. now rewrite app_nil_r.
  - rewrite Ha, skipn_app, Nat.sub_diag, skipn_all. reflexivity.
  - intros j Pj. apply Mi; [destruct Pj; lia|assumption].
Qed.

Lemma Held_nil : Held marker [] [].
Proof.
  split.
  - exists 0. split; [apply marker_length|reflexivity].
  - intros j Pj. apply EndsWithPrefix_le in Pj. exact Pj.
  - change ([] ++ []) with (@nil jschar). rewrite indexOf_unfold.
    destruct marker; [contradiction|reflexivity].
Qed.

Lemma app_is_firstn (x l : jsstring) : x = firstn (length x) (x ++ l).
Proof. now rewrite firstn_app, Nat.sub_diag, firstn_all, app_nil_r. Qed.

(** An occurrence of the marker in the text extended by [c] lies in
    [p ++ c]. *)
Lemma Held_occurrence (e p c : jsstring) (j : nat) :
  Held marker e p ->
  startsWith marker (skipn j ((e ++ p) ++ c)) = true ->
  length e <= j /\ startsWith marker (skipn (j - length e) (p ++ c)) = true.
Proof.
  intros [(h & Lh & Hp) HL HF] S.
  destruct (Nat.le_gt_cases (length e) j) as [Le|Gt].
  - split; [assumption|].
    rewrite <- app_assoc, skipn_app in S.
    rewrite skipn_all2 in S by lia. exact S.
  - exfalso.
    pose proof (proj1 (indexOf_None_iff_all _ _) HF j) as F.
    rewrite skipn_app in S. replace (j - length (e ++ p)) with 0 in S
      by (rewrite length_app; lia).
    simpl skipn in S. apply startsWith_spec in S as [u Hu].
    apply app_eq_app in Hu as [l [[Hl Hc]|[Hl Hc]]].
    + assert (startsWith marker (skipn j (e ++ p)) = true) as T.
      { apply startsWith_spec. exists l. exact Hl. }
      congruence.
    + destruct l as [|x l].
      * assert (startsWith marker (skipn j (e ++ p)) = true) as T.
        { apply startsWith_spec. exists []. rewrite app_nil_r in *. now symmetry. }
        congruence.
      * assert (length (skipn j (e ++ p)) <= length p) as B.
        { apply HL. split.
          - rewrite Hl, length_app. simpl. lia.
          - exists (firstn j (e ++ p)).
            assert (firstn (length (skipn j (e ++ p))) marker = skipn j (e ++ p)) as Fx.
            { rewrite Hl at 1. symmetry. apply app_is_firstn. }
            rewrite Fx. symmetry. apply firstn_skipn. }
        rewrite length_skipn, length_app in B. lia.
Qed.

(** Without a hit in [p ++ c], the marker does not occur in the extended
    text, and the extended text ends with the same proper prefixes of the
    marker as [p ++ c]. *)
Lemma Held_free_step (e p c : jsstring) :
  Held marker e p ->
  indexOf marker (p ++ c) = None ->
  indexOf marker ((e ++ p) ++ c) = None.
Proof.
  intros HH N. apply indexOf_None_iff_all. intro j.
  destruct (startsWith marker (skipn j ((e ++ p) ++ c))) eqn:S; [|reflexivity].
  destruct (Held_occurrence e p c j HH S) as [_ S'].
  now rewrite (proj1 (indexOf_None_iff_all _ _) N) in S'.
Qed.

Lemma Held_hit_step (e p c : jsstring) (k : nat) :
  Held marker e p ->
  indexOf marker (p ++ c) = Some k ->
  indexOf marker ((e ++ p) ++ c) = Some (length e + k).
Proof.
  intros HH E. apply indexOf_Some_iff in E as (L & S & F).
  apply indexOf_Some_iff. repeat split.
  - rewrite <- app_assoc, length_app. lia.
  - rewrite <- app_assoc, skipn_app, skipn_all2 by lia.
    replace (length e + k - length e) with k by lia. exact S.
  - intros j Hj.
    destruct (startsWith marker (skipn j ((e ++ p) ++ c))) eqn:S'; [|reflexivity].
    destruct (Held_occurrence e p c j HH S') as [Le S''].
    rewrite F in S'' by lia. discriminate.
Qed.

Lemma Held_suffix_step (e p c : jsstring) (j : nat) :
  Held marker e p ->
  EndsWithPrefix marker ((e ++ p) ++ c) j ->
  EndsWithPrefix marker (p ++ c) j.
Proof.
  intros [(h & Lh & Hp) HL HF] [Lj [a Ha]]. split; [assumption|].
  rewrite <- app_assoc in Ha.
  apply app_eq_app in Ha as [l [[Hl Hc]|[Hl Hc]]].
  - (* the prefix reaches into [e]: then it is the whole of [p ++ c] *)
    assert (length (l ++ p) <= length p) as B.
    { apply HL. split.
      - apply (f_equal (@length _)) in Hc.
        rewrite length_firstn_lt, !length_app in Hc by assumption.
        rewrite length_app. lia.
      - exists a. rewrite Hl, <- app_assoc. f_equal.
        apply (prefix_of_prefix (l ++ p) c j). now rewrite <- app_assoc. }
    rewrite length_app in B. destruct l; [|simpl in B; lia].
    exists []. simpl in *. now symmetry.
  - exists l. exact Hc.
Qed.

(** The state of the scan after more text without a hit. *)
Lemma Held_step (e p c : jsstring) :
  Held marker e p ->
  indexOf marker (p ++ c) = None ->
  Held marker (e ++ firstn (findPartialMatchEndIndex (p ++ c) marker) (p ++ c))
       (skipn (findPartialMatchEndIndex (p ++ c) marker) (p ++ c))
  /\ (e ++ firstn (findPartialMatchEndIndex (p ++ c) marker) (p ++ c))
     ++ skipn (findPartialMatchEndIndex (p ++ c) marker) (p ++ c)
     = (e ++ p) ++ c.
Proof.
  intros HH N.
  assert ((e ++ firstn (findPartialMatchEndIndex (p ++ c) marker) (p ++ c))
          ++ skipn (findPartialMatchEndIndex (p ++ c) marker) (p ++ c)
          = (e ++ p) ++ c) as Eq.
  { rewrite <- app_assoc, firstn_skipn. now rewrite app_assoc. }
  split; [|exact Eq].
  destruct (findPartialMatchEndIndex_spec (p ++ c)) as (a & i & Ha & Li & Fa & Sa & Ma).
  split.
  - exists i. split; [assumption|exact Sa].
  - intros j Pj. rewrite Eq in Pj.
    apply (Held_suffix_step e p c j HH) in Pj. apply Ma in Pj.
    rewrite Sa, length_firstn_lt by assumption. exact Pj.
  - rewrite Eq. now apply Held_free_step.
Qed.

End HoldBack.
(** ** The scan finds the regions of the grammar *)

Lemma re_match_lit (l : jsstring) (items : list re_item) (s : jsstring) :
  re_match (Lit l :: items) (l ++ s) = re_match items s.
Proof.
  cbn [re_match]. rewrite startsWith_app, skipn_app, skipn_all, Nat.sub_diag.
  reflexivity.
Qed.

Lemma greedy_ws_complete {R : Type} (k : jsstring -> option R) (w s : jsstring) (r : R) :
  forallb isWhiteSpace w = true ->
  match s with c :: _ => isWhiteSpace c = false | [] => True end ->
  k s = Some r ->
  greedy_ws k (w ++ s) = Some r.
Proof.
  intros W Hs K. induction w as [|c w IH].
  - cbn [app]. destruct s as [|c s]; [exact K|].
    cbn [greedy_ws]. now rewrite Hs.
  - cbn [forallb] in W. apply andb_true_iff in W as [Wc Ww].
    cbn [app greedy_ws]. now rewrite Wc, (IH Ww).
Qed.

Lemma lazy_any_complete {R : Type} (k : jsstring -> option R) (cap s : jsstring) (r : R) :
  (forall j, j < length cap -> k (skipn j (cap ++ s)) = None) ->
  k s = Some r ->
  lazy_any k (cap ++ s) = Some (cap, r).
Proof.
  intros N0 K. induction cap as [|c cap IH].
  - cbn [app]. destruct s; cbn [lazy_any]; now rewrite K.
  - cbn [app lazy_any].
    pose proof (N0 0 ltac:(cbn; lia)) as N1. cbn [skipn app] in N1. rewrite N1.
    rewrite IH; [reflexivity|].
    intros j Hj. apply (N0 (S j)). cbn. lia.
Qed.

Lemma solid_head (tok s : jsstring) :
  solid tok = true ->
  match tok ++ s with c :: _ => isWhiteSpace c = false | [] => True end.
Proof.
  destruct tok as [|c tok]; [discriminate|]. cbn. now intros ->%negb_true_iff.
Qed.

(** A token that ends [s ++ tok] at its first occurrence begins nowhere
    inside [s], whatever follows. *)
Lemma ends_at_first_no_start (tok s rest : jsstring) (j : nat) :
  ends_at_first tok s = true -> j < length s ->
  startsWith tok (skipn j (s ++ tok ++ rest)) = false.
Proof.
  unfold ends_at_first. intros E Hj.
  destruct (indexOf tok (s ++ tok)) as [i|] eqn:I; [|discriminate].
  apply Nat.eqb_eq in E. subst i.
  pose proof (indexOf_Some_first _ _ _ I j Hj) as F.
  rewrite app_assoc, skipn_app.
  replace (j - length (s ++ tok)) with 0 by (rewrite length_app; lia).
  cbn [skipn]. rewrite startsWith_app_long; [exact F|].
  rewrite length_skipn, length_app. lia.
Qed.

Section ParserComplete.

Variable H : Host.
Variable m : Markers.
Hypothesis markers_are_solid : markers_solid m = true.

Lemma token_solid (tok : jsstring) : In tok (tokens m) -> solid tok = true.
Proof.
  intro I. unfold markers_solid in markers_are_solid.
  rewrite forallb_forall in markers_are_solid. now apply markers_are_solid.
Qed.

Lemma token_nonempty (tok : jsstring) : In tok (tokens m) -> tok <> [].
Proof. intros I ->. now pose proof (token_solid [] I). Qed.

Lemma start_solid : TC_START m <> [].
Proof. apply token_nonempty. cbn. tauto. Qed.


(** The regular expression matches a region of the grammar whose name
    and arguments end at the first token that can end them, and captures
    this name and these arguments. *)
Lemma re_match_region (b : Block) (post : jsstring) :
  region_ok m b = true ->
  re_match (call_regex m) (region_text m b ++ post)
  = Some ([blk_name b; blk_args b], post).
Proof.
  unfold region_ok. rewrite !andb_true_iff. intros [[[[W1 W2] W3] An] Aa].
  unfold call_regex, region_text. rewrite <- !app_assoc.
  destruct b as [before w1 name w2 args w3]. cbn [blk_ws1 blk_ws2 blk_ws3 blk_name blk_args] in *.
  assert (re_match [Lit (TC_END m)] (TC_END m ++ post) = Some ([], post)) as E1.
  { now rewrite re_match_lit. }
  assert (re_match [WsStar; Lit (TC_END m)] (w3 ++ TC_END m ++ post)
          = Some ([], post)) as E2.
  { cbn [re_match]. apply greedy_ws_complete; [exact W3| |exact E1].
    apply solid_head, token_solid. cbn. tauto. }
  assert (re_match [Lit (ARGS_END m); WsStar; Lit (TC_END m)]
            (ARGS_END m ++ w3 ++ TC_END m ++ post) = Some ([], post)) as E3.
  { now rewrite re_match_lit. }
  assert (re_match [LazyAny; Lit (ARGS_END m); WsStar; Lit (TC_END m)]
            (args ++ ARGS_END m ++ w3 ++ TC_END m ++ post)
          = Some ([args], post)) as E4.
  { cbn [re_match].
    rewrite (lazy_any_complete _ args _ ([], post)); [reflexivity| |exact E3].
    intros j Hj. cbn [re_match].
    now rewrite ends_at_first_no_start. }
  assert (re_match [Lit (ARGS_START m); LazyAny; Lit (ARGS_END m); WsStar; Lit (TC_END m)]
            (ARGS_START m ++ args ++ ARGS_END m ++ w3 ++ TC_END m ++ post)
          = Some ([args], post)) as E5.
  { now rewrite re_match_lit. }
  assert (re_match [WsStar; Lit (ARGS_START m); LazyAny; Lit (ARGS_END m); WsStar;
                    Lit (TC_END m)]
            (w2 ++ ARGS_START m ++ args ++ ARGS_END m ++ w3 ++ TC_END m ++ post)
          = Some ([args], post)) as E6.
  { cbn [re_match]. apply greedy_ws_complete; [exact W2| |exact E5].
    apply solid_head, token_solid. cbn. tauto. }
  assert (re_match [Lit (NAME_END m); WsStar; Lit (ARGS_START m); LazyAny;
                    Lit (ARGS_END m); WsStar; Lit (TC_END m)]
            (NAME_END m ++ w2 ++ ARGS_START m ++ args ++ ARGS_END m ++ w3
             ++ TC_END m ++ post)
          = Some ([args], post)) as E7.
  { now rewrite re_match_lit. }
  assert (re_match [LazyAny; Lit (NAME_END m); WsStar; Lit (ARGS_START m); LazyAny;
                    Lit (ARGS_END m); WsStar; Lit (TC_END m)]
            (name ++ NAME_END m ++ w2 ++ ARGS_START m ++ args ++ ARGS_END m ++ w3
             ++ TC_END m ++ post)
          = Some ([name; args], post)) as E8.
  { cbn [re_match].
    rewrite (lazy_any_complete _ name _ ([args], post)); [reflexivity| |exact E7].
    intros j Hj. cbn [re_match].
    now rewrite ends_at_first_no_start. }
  assert (re_match [Lit (NAME_START m); LazyAny; Lit (NAME_END m); WsStar;
                    Lit (ARGS_START m); LazyAny; Lit (ARGS_END m); WsStar;
                    Lit (TC_END m)]
            (NAME_START m ++ name ++ NAME_END m ++ w2 ++ ARGS_START m ++ args
             ++ ARGS_END m ++ w3 ++ TC_END m ++ post)
          = Some ([name; args], post)) as E9.
  { now rewrite re_match_lit. }
  rewrite re_match_lit. cbn [re_match].
  apply greedy_ws_complete; [exact W1| |exact E9].
  apply solid_head, token_solid. cbn. tauto.
Qed.

(** The scan of a text stops at a region that begins at the first
    call-start token of the text. *)
Lemma re_search_region (pre : jsstring) (b : Block) (post : jsstring) :
  region_ok m b = true ->
  indexOf (TC_START m) (pre ++ region_text m b ++ post) = Some (length pre) ->
  re_search (call_regex m) (pre ++ region_text m b ++ post)
  = Some (pre, [blk_name b; blk_args b], post).
Proof.
  intros Ok I. rewrite re_search_skip.
  - rewrite re_search_unfold, (re_match_region b post Ok). now rewrite app_nil_r.
  - intros j Hj. exact (indexOf_Some_first _ _ _ I j Hj).
Qed.

Lemma find_calls_region (pre : jsstring) (b : Block) (post : jsstring) (idx : nat) :
  region_ok m b = true ->
  indexOf (TC_START m) (pre ++ region_text m b ++ post) = Some (length pre) ->
  find_calls H m (pre ++ region_text m b ++ post) idx
  = match JSON_parse H (trim (blk_args b)) with
    | None => find_calls H m post idx
    | Some _ =>
        {| tc_id := call_id H idx;
           tc_name := trim (blk_name b);
           tc_arguments := trim (blk_args b) |}
          :: find_calls H m post (S idx)
    end.
Proof.
  intros Ok I. rewrite (find_calls_step H m start_solid).
  rewrite (re_search_region pre b post Ok I). reflexivity.
Qed.

Lemma replace_calls_region (pre : jsstring) (b : Block) (post : jsstring) :
  region_ok m b = true ->
  indexOf (TC_START m) (pre ++ region_text m b ++ post) = Some (length pre) ->
  replace_calls m (pre ++ region_text m b ++ post) = pre ++ replace_calls m post.
Proof.
  intros Ok I. rewrite (replace_calls_step m start_solid).
  now rewrite (re_search_region pre b post Ok I).
Qed.

End ParserComplete.

(** ** The scan misses no region of the grammar *)

Lemma greedy_ws_total {R : Type} (k : jsstring -> option R) (w s : jsstring) :
  forallb isWhiteSpace w = true -> k s <> None -> greedy_ws k (w ++ s) <> None.
Proof.
  intros W K. induction w as [|c w IH].
  - cbn [app]. destruct s as [|c s]; [exact K|]. cbn [greedy_ws].
    destruct (isWhiteSpace c); [|exact K].
    destruct (greedy_ws k s); [discriminate|exact K].
  - cbn [forallb] in W. apply andb_true_iff in W as [Wc Ww].
    cbn [app greedy_ws]. rewrite Wc.
    destruct (greedy_ws k (w ++ s)) eqn:E; [discriminate|]. now apply IH in Ww.
Qed.

Lemma lazy_any_total {R : Type} (k : jsstring -> option R) (cap s : jsstring) :
  k s <> None -> lazy_any k (cap ++ s) <> None.
Proof.
  intro K. induction cap as [|c cap IH].
  - cbn [app]. destruct s; cbn [lazy_any]; destruct (k _); congruence.
  - cbn [app lazy_any]. destruct (k (c :: cap ++ s)); [discriminate|].
    destruct (lazy_any k (cap ++ s)) as [[cap' r]|]; [discriminate|exact IH].
Qed.

Lemma re_match_total (items : list re_item) (region : jsstring) (caps : list jsstring)
      (rest : jsstring) :
  Matches items region caps -> re_match items (region ++ rest) <> None.
Proof.
  revert region caps. induction items as [|[l| |] items IH]; intros region caps M.
  - cbn. discriminate.
  - destruct M as (r & -> & M'). rewrite <- app_assoc, re_match_lit. now apply (IH r caps).
  - destruct M as (w & r & W & -> & M'). cbn [re_match]. rewrite <- app_assoc.
    apply greedy_ws_total; [exact W|]. now apply (IH r caps).
  - destruct M as (cap & caps' & r & -> & -> & M'). cbn [re_match]. rewrite <- app_assoc.
    pose proof (lazy_any_total (re_match items) cap (r ++ rest) (IH r caps' M')) as L.
    destruct (lazy_any (re_match items) (cap ++ r ++ rest)) as [[c [cs rs]]|];
      [discriminate|contradiction].
Qed.

Lemma Grammar_Matches (m : Markers) (region name args : jsstring) :
  Grammar m region name args -> Matches (call_regex m) region [name; args].
Proof.
  intros (w1 & w2 & w3 & W1 & W2 & W3 & ->).
  rewrite <- (app_nil_r (TC_END m)). unfold call_regex. cbn [Matches].
  eexists. split; [reflexivity|].
  exists w1. eexists. split; [exact W1|]. split; [reflexivity|].
  eexists. split; [reflexivity|].
  exists name. eexists. eexists. split; [reflexivity|]. split; [reflexivity|].
  eexists. split; [reflexivity|].
  exists w2. eexists. split; [exact W2|]. split; [reflexivity|].
  eexists. split; [reflexivity|].
  exists args. eexists. eexists. split; [reflexivity|]. split; [reflexivity|].
  eexists. split; [reflexivity|].
  exists w3. eexists. split; [exact W3|]. split; [reflexivity|].
  eexists. split; [reflexivity|]. split; reflexivity.
Qed.

Lemma re_search_total (items : list re_item) (pre s : jsstring) :
  re_match items s <> None -> re_search items (pre ++ s) <> None.
Proof.
  intro M. induction pre as [|c pre IH]; cbn [app]; rewrite re_search_unfold.
  - destruct (re_match items s) as [[caps rest]|]; [discriminate|contradiction].
  - destruct (re_match items (c :: pre ++ s)) as [[caps rest]|]; [discriminate|].
    destruct (re_search items (pre ++ s)) as [[[b caps] rest]|];
      [discriminate|exact IH].
Qed.

(** The scan finds nothing exactly in the texts in which no region of
    the grammar occurs. *)
Lemma re_search_None_iff (m : Markers) (s : jsstring) :
  re_search (call_regex m) s = None <-> region_free m s.
Proof.
  split.
  - intros E region name args G (pre & post & ->).
    apply (re_search_total (call_regex m) pre (region ++ post)); [|exact E].
    apply (re_match_total _ _ [name; args]). now apply Grammar_Matches.
  - intro F. destruct (re_search (call_regex m) s) as [[[b caps] rest]|] eqn:E;
      [exfalso|reflexivity].
    destruct (re_search_call_sound _ _ _ _ _ E) as (region & name & args & _ & -> & G).
    apply (F region name args G). now exists b, rest.
Qed.



(** ** [trim] *)









(** ** Texts made of call blocks *)

Lemma ends_at_first_indexOf (tok s rest : jsstring) :
  ends_at_first tok s = true -> indexOf tok (s ++ tok ++ rest) = Some (length s).
Proof.
  unfold ends_at_first. intro E.
  destruct (indexOf tok (s ++ tok)) as [i|] eqn:I; [|discriminate].
  apply Nat.eqb_eq in E. subst i. rewrite app_assoc. now apply indexOf_app_Some.
Qed.

Section Blocks.

Variable H : Host.
Variable m : Markers.
Hypothesis markers_are_solid : markers_solid m = true.

Lemma block_at_first_start (b : Block) (post : jsstring) :
  ends_at_first (TC_START m) (blk_before b) = true ->
  indexOf (TC_START m) (blk_before b ++ region_text m b ++ post)
  = Some (length (blk_before b)).
Proof.
  intro E. unfold region_text. rewrite <- !app_assoc.
  now apply ends_at_first_indexOf.
Qed.

Lemma find_calls_blocks (blocks : list Block) (tail : jsstring) (idx : nat) :
  forallb (region_ok m) blocks = true ->
  forallb (fun b => ends_at_first (TC_START m) (blk_before b)) blocks = true ->
  region_free m tail ->
  find_calls H m (blocks_text m blocks tail) idx = block_calls H blocks idx.
Proof.
  intros Ok Bf Ft. revert idx. induction blocks as [|b blocks IH]; intro idx.
  - cbn [blocks_text block_calls]. apply re_search_None_iff in Ft.
    rewrite (find_calls_step H m (start_solid m markers_are_solid)), Ft. reflexivity.
  - cbn [forallb] in Ok, Bf.
    apply andb_true_iff in Ok as [Ob Ok]. apply andb_true_iff in Bf as [Bb Bf].
    cbn [blocks_text block_calls].
    rewrite (find_calls_region H m markers_are_solid (blk_before b) b _ idx Ob
               (block_at_first_start b _ Bb)).
    unfold valid_args. destruct (JSON_parse H (trim (blk_args b)));
      rewrite (IH Ok Bf); reflexivity.
Qed.

Lemma replace_calls_blocks (blocks : list Block) (tail : jsstring) :
  forallb (region_ok m) blocks = true ->
  forallb (fun b => ends_at_first (TC_START m) (blk_before b)) blocks = true ->
  region_free m tail ->
  replace_calls m (blocks_text m blocks tail) = outside blocks tail.
Proof.
  intros Ok Bf Ft. induction blocks as [|b blocks IH].
  - cbn [blocks_text]. apply re_search_None_iff in Ft.
    rewrite (replace_calls_step m (start_solid m markers_are_solid)), Ft. reflexivity.
  - cbn [forallb] in Ok, Bf.
    apply andb_true_iff in Ok as [Ob Ok]. apply andb_true_iff in Bf as [Bb Bf].
    cbn [blocks_text].
    rewrite (replace_calls_region m markers_are_solid (blk_before b) b _ Ob
               (block_at_first_start b _ Bb)).
    rewrite (IH Ok Bf). unfold outside. cbn [List.map concat].
    now rewrite <- app_assoc.
Qed.


End Blocks.

Lemma all_draws_solid_checked : all_draws_solid = true.
Proof. vm_compute. reflexivity. Qed.

(** Every marker set [generateMarkers] can draw is made of tokens that
    are not empty and do not begin with white space. *)
Lemma generateMarkers_solid (r1 r2 r3 : nat) :
  r1 < length DELIMITER_SETS -> r2 < length SUFFIX_POOL -> r3 < length SUFFIX_POOL ->
  markers_solid (generateMarkers r1 r2 r3) = true.
Proof.
  intros L1 L2 L3. pose proof all_draws_solid_checked as A. unfold all_draws_solid in A.
  rewrite forallb_forall in A. specialize (A r1 ltac:(apply in_seq; lia)).
  rewrite forallb_forall in A. specialize (A r2 ltac:(apply in_seq; lia)).
  rewrite forallb_forall in A. apply (A r3). apply in_seq. lia.
Qed.

(** ** The text protocol parser *)






(** The residual of the witness keeps the call-start marker its tail
    quotes, and the second run still reports nothing. *)
Lemma residual_may_hold_start_marker :
  includes
    (cleanContent
       (parse Examples.H Examples.M
          (blocks_text Examples.M Examples.blocks_two Examples.tail_quoting_marker)))
    (TC_START Examples.M) = true
  /\ List.map tc_name
       (toolCalls
          (parse Examples.H Examples.M
             (blocks_text Examples.M Examples.blocks_two Examples.tail_quoting_marker)))
     = [lit "f"].
Proof. split; vm_compute; reflexivity. Qed.

(** [text_spliced] is a text made of one block, and meets every
    condition but the last: its outside text, joined, is a call block. *)
Lemma text_spliced_outside_is_a_block :
  Examples.text_spliced
  = blocks_text Examples.M Examples.blocks_spliced Examples.tail_spliced
  /\ forallb (region_ok Examples.M) Examples.blocks_spliced = true
  /\ forallb (fun b => ends_at_first (TC_START Examples.M) (blk_before b))
       Examples.blocks_spliced = true
  /\ region_free Examples.M Examples.tail_spliced
  /\ outside Examples.blocks_spliced Examples.tail_spliced
     = call_text Examples.M (lit "g") (lit "{}").
Proof.
  split; [vm_compute; reflexivity|].
  split; [vm_compute; reflexivity|].
  split; [vm_compute; reflexivity|].
  split; [apply re_search_None_iff; vm_compute; reflexivity|].
  vm_compute. reflexivity.
Qed.


(** ** Rewriting the text field of an envelope *)

Lemma obj_get_delete_same (k : jsstring) (o : jsobj) : obj_get k (obj_delete k o) = None.
Proof.
  induction o as [|[k' v] o IH]; simpl; [reflexivity|].
  destruct (str_eqb k' k) eqn:E; [assumption|]. simpl. now rewrite E.
Qed.

(** The shape of an envelope with a text field. *)
Lemma envelope_shape (parsed c0 : json) (rest : list json) (content : jsstring) :
  read parsed k_choices = Some (JArr (c0 :: rest)) ->
  get_opt (get_opt (Some c0) k_delta) k_content = Some (JStr content) ->
  exists o co d,
    parsed = JObj o /\ c0 = JObj co
    /\ obj_get (key_name k_choices) o = Some (JArr (JObj co :: rest))
    /\ obj_get (key_name k_delta) co = Some (JObj d)
    /\ obj_get (key_name k_content) d = Some (JStr content).
Proof.
  intros R C.
  apply get_opt_key_object in C as (d & Hd & Hc).
  apply get_opt_key_object in Hd as (co & Hco & Hd). injection Hco as ->.
  destruct parsed as [| | | |l|o]; try discriminate.
  simpl in R. exists o, co, d. auto.
Qed.

Lemma modify_choice0 (o : jsobj) (c0 c0' : json) (rest : list json)
      (f : json -> completion json) :
  obj_get (key_name k_choices) o = Some (JArr (c0 :: rest)) ->
  f c0 = Normal c0' ->
  modify [k_choices; Index 0] f (JObj o)
  = Normal (JObj (obj_set (key_name k_choices) (JArr (c0' :: rest)) o)).
Proof.
  intros Ho Hf. rewrite modify_cons.
  change (get (Some (JObj o)) k_choices)
    with (Normal (obj_get (key_name k_choices) o)).
  rewrite Ho. cbn [bind]. rewrite modify_cons.
  change (get (Some (JArr (c0 :: rest))) (Index 0)) with (Normal (Some c0)).
  cbn [bind modify]. rewrite Hf. reflexivity.
Qed.

Lemma primary_content_choice0 (o : jsobj) (c0 : json) (rest : list json) :
  primary_content (JObj (obj_set (key_name k_choices) (JArr (c0 :: rest)) o))
  = match get_opt (get_opt (Some c0) k_delta) k_content with
    | Some (JStr s) => s
    | _ => []
    end.
Proof.
  unfold primary_content.
  change (read (JObj (obj_set (key_name k_choices) (JArr (c0 :: rest)) o)) k_choices)
    with (obj_get (key_name k_choices)
            (obj_set (key_name k_choices) (JArr (c0 :: rest)) o)).
  now rewrite obj_get_set_same.
Qed.

Lemma patch_content_envelope (parsed c0 : json) (rest : list json)
      (content text : jsstring) :
  read parsed k_choices = Some (JArr (c0 :: rest)) ->
  get_opt (get_opt (Some c0) k_delta) k_content = Some (JStr content) ->
  exists evt, patch_content parsed text = Normal evt /\ primary_content evt = text.
Proof.
  intros R C.
  destruct (envelope_shape _ _ _ _ R C) as (o & co & d & -> & -> & Ho & Hd & Hc).
  unfold patch_content.
  erewrite modify_choice0;
    [|exact Ho
     |change (get (Some (JObj co)) k_delta) with (Normal (obj_get (key_name k_delta) co));
      rewrite Hd; reflexivity].
  eexists. split; [reflexivity|]. rewrite primary_content_choice0.
  change (get_opt (Some (JObj ?x)) k_delta) with (obj_get (key_name k_delta) x).
  rewrite obj_get_set_same.
  change (get_opt (Some (JObj ?x)) k_content) with (obj_get (key_name k_content) x).
  now rewrite obj_get_set_same.
Qed.

Lemma remove_content_envelope (parsed c0 : json) (rest : list json) (content : jsstring) :
  read parsed k_choices = Some (JArr (c0 :: rest)) ->
  get_opt (get_opt (Some c0) k_delta) k_content = Some (JStr content) ->
  exists evt, remove_content parsed = Normal evt /\ primary_content evt = [].
Proof.
  intros R C.
  destruct (envelope_shape _ _ _ _ R C) as (o & co & d & -> & -> & Ho & Hd & Hc).
  unfold remove_content.
  change (get_opt (get_opt (get_opt (Some (JObj o)) k_choices) (Index 0)) k_delta)
    with (get_opt (get_opt (obj_get (key_name k_choices) o) (Index 0)) k_delta).
  rewrite Ho.
  change (get_opt (get_opt (Some (JArr (JObj co :: rest))) (Index 0)) k_delta)
    with (obj_get (key_name k_delta) co).
  rewrite Hd. cbn [truthy is_object andb].
  change (modify [k_choices; Index 0; k_delta]
            (fun d0 => Normal (delete d0 (lit "content"))) (JObj o))
    with (modify [k_choices; Index 0]
            (modify [k_delta] (fun d0 => Normal (delete d0 (lit "content")))) (JObj o)).
  erewrite modify_choice0;
    [|exact Ho
     |rewrite modify_cons;
      change (get (Some (JObj co)) k_delta) with (Normal (obj_get (key_name k_delta) co));
      rewrite Hd; reflexivity].
  eexists. split; [reflexivity|]. rewrite primary_content_choice0.
  change (get_opt (Some (JObj ?x)) k_delta) with (obj_get (key_name k_delta) x).
  rewrite obj_get_set_same.
  change (get_opt (Some (delete (JObj d) (lit "content"))) k_content)
    with (obj_get (lit "content") (obj_delete (lit "content") d)).
  now rewrite obj_get_delete_same.
Qed.

(** The event [rewrite_content] pushes carries exactly [text]. *)
Lemma rewrite_content_envelope (parsed c0 : json) (rest : list json)
      (content text : jsstring) :
  read parsed k_choices = Some (JArr (c0 :: rest)) ->
  get_opt (get_opt (Some c0) k_delta) k_content = Some (JStr content) ->
  exists evt, rewrite_content parsed text = Normal [PushJson evt]
              /\ primary_content evt = text.
Proof.
  intros R C. unfold rewrite_content, cloneJson. destruct text as [|x text].
  - destruct (remove_content_envelope _ _ _ _ R C) as (evt & E & P).
    exists evt. cbn [nonempty]. unfold push_evt. rewrite E. auto.
  - destruct (patch_content_envelope _ _ _ _ (x :: text) R C) as (evt & E & P).
    exists evt. cbn [nonempty]. unfold push_evt. rewrite E. auto.
Qed.

(** ** The transformer tracks the text of its frames *)

Section Tracking.

Variable H : Host.
Variable m : Markers.
Hypothesis start_nonempty : TC_START m <> [].

Lemma skipn_app_plus (a b : jsstring) (k : nat) :
  skipn (length a + k) (a ++ b) = skipn k b.
Proof.
  rewrite skipn_app, skipn_all2 by lia.
  now replace (length a + k - length a) with k by lia.
Qed.

Lemma emit_one (st : TState) (ps : list pushed) :
  emit st [Normal ps] = {| pushes := ps; next := Some st |}.
Proof. unfold emit. simpl. now rewrite app_nil_r. Qed.

Lemma delivered_text_app (ps qs : list pushed) :
  delivered_text (ps ++ qs) = delivered_text ps ++ delivered_text qs.
Proof. unfold delivered_text. now rewrite map_app, concat_app. Qed.

Lemma delivered_text_one (evt : json) :
  delivered_text [PushJson evt] = primary_content evt.
Proof. unfold delivered_text. simpl. now rewrite app_nil_r. Qed.

Lemma Tracks_set_lastEnvelope (T E : jsstring) (st : TState) (parsed : json) :
  Tracks (TC_START m) T E st -> Tracks (TC_START m) T E (set_lastEnvelope st parsed).
Proof.
  intros [B TB HH ET|idx B P I EE TB].
  - now apply Tracks_scanning.
  - now apply Tracks_buffering with (idx := idx).
Qed.

(** A frame with a non-empty text field. *)
Lemma on_content_tracks (T E : jsstring) (st : TState) (parsed c0 : json)
      (rest : list json) (content : jsstring) :
  Tracks (TC_START m) T E st ->
  read parsed k_choices = Some (JArr (c0 :: rest)) ->
  get_opt (get_opt (Some c0) k_delta) k_content = Some (JStr content) ->
  exists ps st',
    on_content m st parsed content = {| pushes := ps; next := Some st' |}
    /\ Tracks (TC_START m) (T ++ content) (E ++ delivered_text ps) st'
    /\ lastEnvelope st' = lastEnvelope st.
Proof.
  intros Tr R C. unfold on_content.
  destruct Tr as [B TB HH ET|idx B P I EE TB].
  - rewrite B. unfold splitByMarker, startMarker, slice_to, slice_from.
    destruct (indexOf (TC_START m) (pendingText st ++ content)) as [k|] eqn:Ik.
    + destruct (rewrite_content_envelope _ _ _ _ (firstn k (pendingText st ++ content)) R C)
        as (evt & Ev & Pc).
      rewrite Ev, emit_one. eexists. eexists. split; [reflexivity|].
      split; [|reflexivity].
      rewrite delivered_text_one, Pc.
      pose proof (Held_hit_step (TC_START m) E _ content k HH Ik) as Hit.
      rewrite <- ET in Hit.
      apply Tracks_buffering with (idx := length E + k);
        cbn [bufferingTool pendingText toolBuffer]; try reflexivity.
      * exact Hit.
      * rewrite ET, <- app_assoc. symmetry. apply firstn_app_2.
      * rewrite ET, <- app_assoc. symmetry. apply skipn_app_plus.
    + destruct (rewrite_content_envelope _ _ _ _
                  (firstn (findPartialMatchEndIndex (pendingText st ++ content) (TC_START m))
                          (pendingText st ++ content)) R C)
        as (evt & Ev & Pc).
      rewrite Ev, emit_one. eexists. eexists. split; [reflexivity|].
      split; [|reflexivity].
      rewrite delivered_text_one, Pc.
      destruct (Held_step (TC_START m) start_nonempty E _ content HH Ik) as [HH' Eq].
      apply Tracks_scanning; cbn [bufferingTool pendingText toolBuffer];
        try assumption; try reflexivity.
      rewrite Eq. now rewrite ET.
  - rewrite B.
    destruct (remove_content_envelope _ _ _ _ R C) as (evt & Ev & Pc).
    unfold cloneJson, push_evt. rewrite Ev. cbn [bind]. rewrite emit_one.
    eexists. eexists. split; [reflexivity|]. split; [|reflexivity].
    rewrite delivered_text_one, Pc, app_nil_r.
    pose proof (indexOf_bound _ _ _ I) as Bd.
    apply Tracks_buffering with (idx := idx); cbn [bufferingTool pendingText toolBuffer].
    * reflexivity.
    * exact P.
    * now apply indexOf_app_Some.
    * rewrite firstn_app. replace (idx - length T) with 0 by lia.
      simpl. now rewrite app_nil_r.
    * rewrite skipn_app. replace (idx - length T) with 0 by lia.
      simpl. now rewrite TB.
Qed.

(** Any frame but the sentinel. *)
Lemma on_event_tracks (T E : jsstring) (st : TState) (e : jsstring) :
  Tracks (TC_START m) T E st ->
  isDoneEvent e = false ->
  exists ps st',
    on_event H m st e = {| pushes := ps; next := Some st' |}
    /\ Tracks (TC_START m) (T ++ frame_text H e) (E ++ delivered_text ps) st'
    /\ lastEnvelope st'
       = (if not_envelope H e then lastEnvelope st else parseJsonFromEvent H e).
Proof.
  intros Tr D. unfold on_event, frame_text, not_envelope. rewrite D. cbn [orb].
  destruct (negb (truthy (parseJsonFromEvent H e))
            || truthy_val (read (parseJsonFromEvent H e) (Key (lit "__raw")))) eqn:R.
  - rewrite emit_one. eexists. eexists. split; [reflexivity|].
    split; [|reflexivity]. now rewrite !app_nil_r.
  - set (parsed := parseJsonFromEvent H e) in *.
    assert (forall ps, delivered_text ps = [] -> primary_content parsed = [] ->
              exists ps' st',
                emit (set_lastEnvelope st parsed) [Normal ps]
                = {| pushes := ps'; next := Some st' |}
                /\ Tracks (TC_START m) (T ++ primary_content parsed)
                     (E ++ delivered_text ps') st'
                /\ lastEnvelope st' = parsed) as Pass.
    { intros ps Dp Pp. rewrite emit_one. eexists. eexists.
      split; [reflexivity|]. split; [|reflexivity].
      rewrite Dp, Pp, !app_nil_r. now apply Tracks_set_lastEnvelope. }
    unfold primary_content in *.
    destruct (read parsed k_choices) as [[| | | |[|c0 rest]|]|] eqn:Rc;
      try (apply Pass; [apply delivered_text_one|reflexivity]);
      try (apply Pass; [rewrite delivered_text_one; unfold primary_content;
                        rewrite Rc; reflexivity|reflexivity]).
    destruct (get_opt (get_opt (Some c0) k_delta) k_content) as [[| | |[|c s]| |]|] eqn:Cc;
      try (apply Pass; [rewrite delivered_text_one; unfold primary_content;
                        rewrite Rc, Cc; reflexivity|reflexivity]).
    destruct (on_content_tracks T E (set_lastEnvelope st parsed) parsed c0 rest (c :: s)
                (Tracks_set_lastEnvelope _ _ _ parsed Tr) Rc Cc)
      as (ps & st' & Ev & Tr' & L).
    exists ps, st'. auto.
Qed.

End Tracking.
(** ** The text delivered before the stream ends *)

Section TrackingStream.

Variable H : Host.
Variable m : Markers.
Hypothesis start_nonempty : TC_START m <> [].

Lemma on_events_tracks (evs : list jsstring) (T E : jsstring) (st : TState) :
  Tracks (TC_START m) T E st ->
  Forall (fun e => isDoneEvent e = false) evs ->
  exists ps st',
    on_events H m st evs = {| pushes := ps; next := Some st' |}
    /\ Tracks (TC_START m) (T ++ concat (List.map (frame_text H) evs))
         (E ++ delivered_text ps) st'
    /\ lastEnvelope st' = last_envelope H evs (lastEnvelope st).
Proof.
  revert T E st; induction evs as [|e evs IH]; intros T E st Tr A.
  - exists [], st. simpl. rewrite !app_nil_r. auto.
  - inversion A as [|e' evs' D A']; subst.
    destruct (on_event_tracks H m start_nonempty T E st e Tr D)
      as (ps & st1 & Ev & Tr1 & L1).
    destruct (IH _ _ _ Tr1 A') as (qs & st2 & Evs & Tr2 & L2).
    exists (ps ++ qs), st2. simpl on_events. rewrite Ev. cbn [next pushes].
    rewrite Evs. cbn [next pushes]. split; [reflexivity|]. split.
    + simpl concat. rewrite delivered_text_app, !app_assoc. exact Tr2.
    + rewrite L2, L1. reflexivity.
Qed.

Lemma Tracks_initial : Tracks (TC_START m) [] [] initial.
Proof.
  apply Tracks_scanning; try reflexivity. now apply Held_nil.
Qed.


End TrackingStream.


(** ** Frames that carry text *)



Section FromMarker.

Variable H : Host.
Variable m : Markers.
Hypothesis start_nonempty : TC_START m <> [].

Lemma parse_nil : parse H m [] = {| toolCalls := []; cleanContent := [] |}.
Proof.
  rewrite (parse_no_start H m start_nonempty []); [reflexivity|].
  rewrite indexOf_unfold. destruct (TC_START m); [contradiction|reflexivity].
Qed.

(** The calls of a text are those of its part from the first call-start
    marker on. *)
Lemma find_calls_from_marker (text : jsstring) (idx : nat) :
  find_calls H m (from_marker m text) idx = find_calls H m text idx.
Proof.
  unfold from_marker. destruct (indexOf (TC_START m) text) as [k|] eqn:I.
  - assert (re_search (call_regex m) text
            = match re_search (call_regex m) (skipn k text) with
              | Some (before, caps, rest) => Some (firstn k text ++ before, caps, rest)
              | None => None
              end) as Sk.
    { rewrite <- (firstn_skipn k text) at 1. apply re_search_skip.
      intros j Hj. rewrite firstn_skipn.
      apply (indexOf_Some_first _ _ _ I). rewrite length_firstn in Hj. lia. }
    rewrite (find_calls_step H m start_nonempty text), Sk.
    rewrite (find_calls_step H m start_nonempty (skipn k text)).
    destruct (re_search (call_regex m) (skipn k text)) as [[[b caps] rest]|];
      reflexivity.
  - rewrite (find_calls_step H m start_nonempty text).
    rewrite (find_calls_step H m start_nonempty []).
    rewrite (re_search_no_start m text I).
    rewrite (re_search_no_start m []); [reflexivity|].
    rewrite indexOf_unfold. destruct (TC_START m); [contradiction|reflexivity].
Qed.

Lemma emit_three (st : TState) (a b c : list pushed) :
  emit st [Normal a; Normal b; Normal c]
  = {| pushes := a ++ b ++ c; next := Some st |}.
Proof. unfold emit. simpl. now rewrite app_nil_r. Qed.

Lemma emit_two (st : TState) (a b : list pushed) :
  emit st [Normal a; Normal b] = {| pushes := a ++ b; next := Some st |}.
Proof. unfold emit. simpl. now rewrite app_nil_r. Qed.

End FromMarker.

(** ** Patching the last envelope at the end of the stream *)

Lemma patchable_shape (parsed : json) (choice : jsobj) (rest : list json) :
  read parsed k_choices = Some (JArr (JObj choice :: rest)) ->
  exists o, parsed = JObj o
            /\ obj_get (key_name k_choices) o = Some (JArr (JObj choice :: rest)).
Proof. destruct parsed as [| | | | |o]; try discriminate. intro R. now exists o. Qed.

Lemma Patchable_truthy (j : json) : Patchable j -> truthy j = true.
Proof.
  intros (choice & rest & R & _).
  now destruct (patchable_shape _ _ _ R) as (o & -> & _).
Qed.


Lemma patch_content_patchable (parsed : json) (choice : jsobj) (rest : list json)
      (text : jsstring) :
  read parsed k_choices = Some (JArr (JObj choice :: rest)) ->
  delta_ok choice = true ->
  exists evt, patch_content parsed text = Normal evt /\ primary_content evt = text.
Proof.
  intros R D. destruct (patchable_shape _ _ _ R) as (o & -> & Ho).
  unfold delta_ok in D. unfold patch_content.
  destruct (obj_get (lit "delta") choice) as [[| | | | |d]|] eqn:Hd; try discriminate D;
    (erewrite modify_choice0;
     [|exact Ho
      |change (get (Some (JObj choice)) k_delta)
         with (Normal (obj_get (lit "delta") choice));
       rewrite Hd; reflexivity]);
    (eexists; split; [reflexivity|]; rewrite primary_content_choice0;
     change (get_opt (Some (JObj ?x)) k_delta) with (obj_get (key_name k_delta) x);
     rewrite obj_get_set_same;
     change (get_opt (Some (JObj ?x)) k_content) with (obj_get (key_name k_content) x);
     now rewrite obj_get_set_same).
Qed.

(** The tool-call event is the envelope with the calls put in the
    [delta] of its first choice: the text field of the envelope stays. *)
Lemma injectToolCallsEvent_patchable (parsed : json) (choice : jsobj)
      (rest : list json) (tcs : list ToolCall) :
  read parsed k_choices = Some (JArr (JObj choice :: rest)) ->
  delta_ok choice = true ->
  exists evt, injectToolCallsEvent parsed tcs = Normal evt
              /\ primary_tool_calls evt = Some (JArr (indexed_calls 0 tcs))
              /\ primary_content evt = primary_content parsed.
Proof.
  intros R D. destruct (patchable_shape _ _ _ R) as (o & -> & Ho).
  unfold delta_ok in D.
  unfold injectToolCallsEvent, cloneJson, primary_content at 2. cbn [truthy].
  change (read (JObj o) k_choices) with (obj_get (key_name k_choices) o).
  rewrite Ho. cbn [bind truthy].
  change (read (JObj choice) k_delta) with (obj_get (lit "delta") choice).
  change (get_opt (Some (JObj choice)) k_delta) with (obj_get (lit "delta") choice).
  destruct (obj_get (lit "delta") choice) as [[| | | | |d]|] eqn:Hd; try discriminate D;
    cbn [truthy is_object andb write bind list_set];
    (eexists; split; [reflexivity|]; split;
     [unfold primary_tool_calls|unfold primary_content];
     change (read (JObj ?x) k_choices) with (obj_get (key_name k_choices) x);
     rewrite obj_get_set_same;
     change (get_opt (Some (JObj ?x)) k_delta) with (obj_get (key_name k_delta) x);
     rewrite obj_get_set_other by (intro E; vm_compute in E; discriminate);
     rewrite obj_get_set_same).
  - change (get_opt (Some (JObj ?x)) k_tool_calls) with (obj_get (key_name k_tool_calls) x).
    now rewrite obj_get_set_same.
  - reflexivity.
  - change (get_opt (Some (JObj ?x)) k_tool_calls) with (obj_get (key_name k_tool_calls) x).
    now rewrite obj_get_set_same.
  - change (get_opt (Some (JObj ?x)) k_content) with (obj_get (key_name k_content) x).
    rewrite obj_get_set_other by (intro E; vm_compute in E; discriminate).
    reflexivity.
  - change (get_opt (Some (JObj ?x)) k_tool_calls) with (obj_get (key_name k_tool_calls) x).
    now rewrite obj_get_set_same.
  - reflexivity.
Qed.

Lemma emit_skip (st : TState) (steps : list (completion (list pushed))) :
  emit st (Normal [] :: steps) = emit st steps.
Proof. unfold emit. cbn [emit_all]. now destruct (emit_all steps). Qed.

Section EndOfStream.

Variable H : Host.
Variable m : Markers.
Hypothesis start_nonempty : TC_START m <> [].


(** The end of the stream, for a transformer that tracked the text [T]:
    what the sentinel makes it push, and what [flush] pushes. *)
Lemma stream_end (T E : jsstring) (st : TState) :
  Tracks (TC_START m) T E st ->
  (T <> [] -> Patchable (lastEnvelope st)) ->
  exists tail_events residual_events tool_events,
    on_done H m st
    = {| pushes := tail_events ++ residual_events ++ tool_events
                   ++ [PushText (sseEncodeData DONE)];
         next := Some st |}
    /\ flush H m st
       = {| pushes := tail_events ++ residual_events ++ tool_events;
            next := Some st |}
    /\ E ++ delivered_text tail_events = before_marker m T
    /\ delivered_text residual_events = trim (replace_calls m (from_marker m T))
    /\ match find_calls H m T 0 with
       | [] => tool_events = []
       | _ :: _ =>
           exists evt,
             tool_events = [PushJson evt]
             /\ primary_tool_calls evt
                = Some (JArr (indexed_calls 0 (find_calls H m T 0)))
             /\ primary_content evt = primary_content (lastEnvelope st)
       end.
Proof.
  intros Tr Sh. rewrite <- (find_calls_from_marker H m start_nonempty T 0).
  change (trim (replace_calls m (from_marker m T)))
    with (cleanContent (parse H m (from_marker m T))).
  change (find_calls H m (from_marker m T) 0)
    with (toolCalls (parse H m (from_marker m T))).
  unfold on_done, flush.
  destruct Tr as [B TB HH ET|idx B P I EE TB].
  - assert (indexOf (TC_START m) T = None) as I by (rewrite ET; apply (held_free HH)).
    unfold before_marker, from_marker.
    rewrite I, (parse_nil H m start_nonempty), TB, B. cbn [nonempty andb negb].
    destruct (pendingText st) as [|x p] eqn:Ep.
    + cbn [nonempty andb]. rewrite emit_one. exists [], [], []. unfold emit. simpl.
      repeat split. now rewrite ET, !app_nil_r.
    + assert (T <> []) as NT by (rewrite ET; destruct E; discriminate).
      destruct (Sh NT) as (choice & rest & R & D).
      rewrite (Patchable_truthy _ (Sh NT)). cbn [nonempty andb]. unfold cloneJson.
      destruct (patch_content_patchable _ _ _ (x :: p) R D) as (evt & Ev & Pc).
      unfold push_evt. rewrite Ev. cbn [bind]. rewrite emit_two, emit_one.
      exists [PushJson evt], [], []. simpl app. repeat split.
      rewrite delivered_text_one, Pc. now rewrite ET.
  - pose proof (indexOf_Some_split _ _ _ I) as [Li St].
    assert (exists x tb, toolBuffer st = x :: tb) as (x & tb & Etb).
    { rewrite TB. apply startsWith_spec in St as [u Hu]. rewrite Hu.
      destruct (TC_START m) as [|x mk]; [contradiction|]. simpl. eauto. }
    assert (T <> []) as NT.
    { intros ->. rewrite TB in Etb. destruct idx; discriminate. }
    destruct (Sh NT) as (choice & rest & R & D).
    unfold before_marker, from_marker. rewrite I, <- TB, <- EE.
    assert (nonempty (toolBuffer st) = true) as Ne by now rewrite Etb.
    rewrite Ne, P, (Patchable_truthy _ (Sh NT)), !andb_true_r. unfold cloneJson.
    rewrite R. cbn [truthy_val truthy get_opt read nth_error nonempty andb].
    set (r := parse H m (toolBuffer st)).
    assert (exists residual_events,
              (if nonempty (cleanContent r)
               then push_evt (patch_content (lastEnvelope st) (cleanContent r))
               else Normal [])
              = Normal residual_events
              /\ delivered_text residual_events = cleanContent r)
      as (res & Eres & Dres).
    { destruct (cleanContent r) as [|y cc] eqn:Ecc.
      - exists []. auto.
      - destruct (patch_content_patchable _ _ _ (y :: cc) R D) as (evt & Ev & Pc).
        exists [PushJson evt]. cbn [nonempty]. unfold push_evt. rewrite Ev.
        split; [reflexivity|]. now rewrite delivered_text_one. }
    assert (exists tool_events,
              (if nonempty (toolCalls r)
               then push_evt (injectToolCallsEvent (lastEnvelope st) (toolCalls r))
               else Normal [])
              = Normal tool_events
              /\ match toolCalls r with
                 | [] => tool_events = []
                 | _ :: _ =>
                     exists evt,
                       tool_events = [PushJson evt]
                       /\ primary_tool_calls evt
                          = Some (JArr (indexed_calls 0 (toolCalls r)))
                       /\ primary_content evt = primary_content (lastEnvelope st)
                 end)
      as (tls & Etls & Dtls).
    { destruct (toolCalls r) as [|tc tcs] eqn:Etc.
      - exists []. auto.
      - destruct (injectToolCallsEvent_patchable _ _ _ (tc :: tcs) R D)
          as (evt & Ev & Pt & Pc).
        exists [PushJson evt]. cbn [nonempty]. unfold push_evt. rewrite Ev.
        split; [reflexivity|]. exists evt. auto. }
    rewrite Eres, Etls, emit_three, emit_skip, emit_two.
    exists [], res, tls. simpl app. repeat split.
    + now rewrite app_nil_r.
    + exact Dres.
    + exact Dtls.
Qed.

End EndOfStream.

(** ** What the stream delivers, and when *)





(** The event with the calls repeats the text of the last frame: for a
    frame that holds prose and a complete call block, the second event
    pushed carries the calls and, as content, the whole frame text, its
    delimiter tokens included. *)
Lemma tool_call_event_repeats_last_frame :
  exists evt,
    nth_error (run Examples.H Examples.M
                 (List.map Buffer_from Examples.chunks_block_in_one_frame)) 1
    = Some (PushJson evt)
    /\ carries_tool_calls (PushJson evt) = true
    /\ primary_content evt = lit "Hello " ++ call_text Examples.M (lit "f") (lit "{}").
Proof.
  eexists. split; [vm_compute; reflexivity|]. split; vm_compute; reflexivity.
Qed.

(** ** A stream of text frames, against the finisher *)

Lemma carriesb_sound (H : Host) (e s : jsstring) :
  carriesb H e s = true -> carries H e s.
Proof.
  unfold carriesb, carries. intro E. apply andb_true_iff in E as [N E].
  apply negb_true_iff in N. split; [exact N|].
  destruct (read (parseJsonFromEvent H e) k_choices) as [[| | | |[|c0 rest]|]|];
    try discriminate.
  destruct (get_opt (get_opt (Some c0) k_delta) k_content) as [[| | |t| |]|] eqn:C;
    try discriminate.
  apply str_eqb_eq in E. subst t. exists c0, rest. auto.
Qed.






(** When no call is valid the two differ as well: for a block with
    invalid arguments the finisher returns the body with the text of the
    block, and the stream, fed one character per frame, delivers
    nothing. *)
Lemma invalid_call_stream_delivers_nothing :
  let text := call_text Examples.M (lit "g") (lit "{oops") in
  all_carry Examples.H (Examples.one_char_frames text) (List.map (fun c => [c]) text)
  = true
  /\ finish Examples.H Examples.M true (Examples.body_of text)
     = Normal (Examples.body_of text)
  /\ primary_message_content (Examples.body_of text) = Some (JStr text)
  /\ delivered_text
       (pushes (on_events Examples.H Examples.M initial
                  (Examples.one_char_frames text ++ [Examples.done_frame])))
     = [].
Proof. cbv zeta. repeat split; vm_compute; reflexivity. Qed.
(** ** The request transformer *)

Lemma obj_get_delete_other (k k' : jsstring) (o : jsobj) :
  k <> k' -> obj_get k' (obj_delete k o) = obj_get k' o.
Proof.
  intro N. induction o as [|[k0 v] o IH]; simpl; [reflexivity|].
  destruct (str_eqb k0 k) eqn:E.
  - apply str_eqb_eq in E. subst k0. rewrite IH.
    destruct (str_eqb k k') eqn:E'; [|reflexivity].
    apply str_eqb_eq in E'. contradiction.
  - simpl. now rewrite IH.
Qed.

Lemma map_completion_app {A B : Type} (f : A -> completion B) (l1 l2 : list A)
      (r1 r2 : list B) :
  map_completion f l1 = Normal r1 ->
  map_completion f l2 = Normal r2 ->
  map_completion f (l1 ++ l2) = Normal (r1 ++ r2).
Proof.
  revert r1; induction l1 as [|x l1 IH]; intros r1 E1 E2.
  - injection E1 as <-. exact E2.
  - simpl in *. destruct (f x) as [y|]; [|discriminate]. cbn [bind] in *.
    destruct (map_completion f l1) as [ys|]; [|discriminate]. cbn [bind] in *.
    injection E1 as <-. now rewrite (IH ys eq_refl E2).
Qed.

Lemma map_completion_all {A B : Type} (f : A -> completion B) (l : list A) :
  (forall x, In x l -> exists y, f x = Normal y) ->
  exists r, map_completion f l = Normal r.
Proof.
  induction l as [|x l IH]; intro A0.
  - now exists [].
  - destruct (A0 x (or_introl eq_refl)) as [y Hy].
    destruct IH as [r Hr]; [intros z Hz; apply A0; now right|].
    exists (y :: r). simpl. now rewrite Hy, Hr.
Qed.

Section RequestFacts.

Variable H : Host.
Variable m : Markers.

Lemma or_empty_str (s : jsstring) : or_empty H (Some (JStr s)) = s.
Proof. destruct s; reflexivity. Qed.

Lemma tool_line_ok (t : json) :
  tool_ok t = true -> exists line, tool_line H t = Normal line.
Proof.
  unfold tool_ok, tool_line. intro E.
  destruct t as [| | | | |o]; try (cbv in E; discriminate).
  change (get (Some (JObj o)) k_function) with (Normal (read (JObj o) k_function)).
  destruct (read (JObj o) k_function) as [f|]; [|discriminate].
  cbn [bind]. destruct f; try discriminate; eexists; reflexivity.
Qed.

Lemma getSystemPrompt_ok (tools : list json) :
  forallb tool_ok tools = true -> exists p, getSystemPrompt H m tools = Normal p.
Proof.
  intro A. unfold getSystemPrompt.
  destruct (map_completion_all (tool_line H) tools) as [r Hr].
  - intros t Ht. apply tool_line_ok. rewrite forallb_forall in A. now apply A.
  - rewrite Hr. eexists. reflexivity.
Qed.

(** A message that is not part of a tool exchange is rewritten without
    an error. *)
Lemma rewrite_message_plain (prompt : jsstring) (msg : json) :
  is_null msg = false ->
  in_history msg = false ->
  exists o, rewrite_message H m true prompt msg = Normal o.
Proof.
  intros NN NH. unfold rewrite_message.
  assert (get (Some msg) k_role = Normal (read msg k_role)) as ->
      by (destruct msg; try reflexivity; discriminate).
  cbn [bind].
  assert (get_opt (Some msg) k_role = read msg k_role) as Er
      by (destruct msg; reflexivity).
  assert (get_opt (Some msg) k_tool_calls = read msg k_tool_calls) as Et
      by (destruct msg; reflexivity).
  unfold in_history in NH. rewrite Er, Et in NH.
  apply orb_false_elim in NH as [NT NA].
  destruct (is_str (read msg k_role) (lit "system")); [eexists; reflexivity|].
  rewrite NA, NT. eexists. reflexivity.
Qed.

Lemma is_str_user (v : jsval) :
  is_str v (lit "user") = true ->
  is_str v (lit "system") = false /\ is_str v (lit "assistant") = false
  /\ is_str v (lit "tool") = false.
Proof.
  destruct v as [[| | |t| |]|]; try discriminate. simpl. intro E.
  apply str_eqb_eq in E. subst t. repeat split; reflexivity.
Qed.

Lemma rewrite_message_user (hasTools : bool) (prompt : jsstring) (msg : json) :
  is_str (get_opt (Some msg) k_role) (lit "user") = true ->
  exists o, msg = JObj o
            /\ rewrite_message H m hasTools prompt msg = Normal o
            /\ is_str (obj_get (lit "role") o) (lit "user") = true.
Proof.
  intro U. destruct msg as [| | |s|l|o]; try discriminate.
  exists o. split; [reflexivity|].
  change (get_opt (Some (JObj o)) k_role) with (obj_get (lit "role") o) in U.
  split; [|exact U].
  unfold rewrite_message.
  change (get (Some (JObj o)) k_role) with (Normal (obj_get (lit "role") o)).
  cbn [bind]. destruct (is_str_user _ U) as (S1 & S2 & S3).
  rewrite S1, S2, S3. reflexivity.
Qed.

Lemma is_str_eq (v : jsval) (a : jsstring) :
  is_str v a = true -> v = Some (JStr a).
Proof.
  destruct v as [[| | |t| |]|]; try discriminate. unfold is_str. intro E.
  apply str_eqb_eq in E. now subst.
Qed.

Lemma strict_eq_str (a : jsstring) (v : jsval) :
  strict_eq (Some (JStr a)) v = true -> v = Some (JStr a).
Proof.
  destruct v as [[| | |t| |]|]; try discriminate. unfold strict_eq. intro E.
  apply str_eqb_eq in E. now subst.
Qed.

Lemma obj_get_role_message (role content : jsstring) :
  obj_get (lit "role") (message role content) = Some (JStr role).
Proof. reflexivity. Qed.

Lemma obj_get_content_message (role content : jsstring) :
  obj_get (lit "content") (message role content) = Some (JStr content).
Proof. reflexivity. Qed.

Lemma obj_set_content_message (role content text : jsstring) :
  obj_set (lit "content") (JStr text) (message role content) = message role text.
Proof. reflexivity. Qed.

(** The same-role merge of a list that ends with the one-shot pair and
    the final user message. *)
Lemma merge_loop_one_shot (front : list jsobj) (current lastOutMsg : jsobj) :
  is_str (obj_get (lit "role") lastOutMsg) (lit "user") = true ->
  exists pre a x,
    merge_loop H current
      (front ++ [ message (lit "assistant") (fakeAssistantContent H m);
                  message (lit "user") (fakeToolResult H m);
                  lastOutMsg ])
    = pre ++ [ a;
               message (lit "user")
                 (fakeToolResult H m ++ NLNL
                  ++ or_empty H (obj_get (lit "content") lastOutMsg)) ]
    /\ is_str (obj_get (lit "role") a) (lit "assistant") = true
    /\ obj_get (lit "content") a = Some (JStr (x ++ fakeAssistantContent H m)).
Proof.
  intro U. apply is_str_eq in U. revert current.
  induction front as [|f front IH]; intro current.
  - simpl app. cbn [merge_loop]. rewrite obj_get_role_message.
    destruct (strict_eq (Some (JStr (lit "assistant"))) (obj_get (lit "role") current))
      eqn:Ea.
    + (* the pair follows an assistant message *)
      apply strict_eq_str in Ea.
      set (current' := obj_set (lit "content") _ current).
      assert (obj_get (lit "role") current' = Some (JStr (lit "assistant"))) as Rc.
      { unfold current'. rewrite obj_get_set_other; [exact Ea|].
        intro E. vm_compute in E. discriminate. }
      rewrite obj_get_role_message, Rc.
      change (strict_eq (Some (JStr (lit "user"))) (Some (JStr (lit "assistant"))))
        with false.
      cbv iota. cbn [merge_loop]. rewrite U.
      change (strict_eq (Some (JStr (lit "user"))) (Some (JStr (lit "user"))))
        with true.
      cbv iota.
      exists [], current', (or_empty H (obj_get (lit "content") current) ++ NLNL).
      split; [|split].
      * rewrite obj_get_content_message, or_empty_str, obj_set_content_message.
        reflexivity.
      * rewrite Rc. reflexivity.
      * unfold current'. rewrite obj_get_set_same, obj_get_content_message, or_empty_str.
        now rewrite <- app_assoc.
    + cbn [merge_loop]. rewrite !obj_get_role_message.
      change (strict_eq (Some (JStr (lit "user"))) (Some (JStr (lit "assistant"))))
        with false.
      cbv iota. cbn [merge_loop]. rewrite U.
      change (strict_eq (Some (JStr (lit "user"))) (Some (JStr (lit "user"))))
        with true.
      cbv iota.
      exists [current], (message (lit "assistant") (fakeAssistantContent H m)), [].
      split; [|split]; try reflexivity.
      rewrite obj_get_content_message, or_empty_str, obj_set_content_message.
      reflexivity.
  - simpl app. cbn [merge_loop].
    destruct (strict_eq (obj_get (lit "role") f) (obj_get (lit "role") current)).
    + apply IH.
    + destruct (IH f) as (pre & a & x & E & Ra & Ca).
      exists (current :: pre), a, x. rewrite E. auto.
Qed.

End RequestFacts.

Section OneShot.

Variable H : Host.
Variable m : Markers.

Lemma hasToolHistory_messages (body : json) (msgs : list json) :
  read body k_messages = Some (JArr msgs) ->
  hasToolHistory body = existsb in_history msgs.
Proof.
  intro R. unfold hasToolHistory.
  assert (get_opt (Some body) k_messages = read body k_messages) as ->
      by (destruct body; reflexivity).
  rewrite R. reflexivity.
Qed.

Lemma last_snoc {A : Type} (l : list A) (x d : A) : last (l ++ [x]) d = x.
Proof. apply last_last. Qed.

Lemma inject_one_shot_snoc (front : list jsobj) (lastOutMsg : jsobj) :
  is_str (obj_get (lit "role") lastOutMsg) (lit "user") = true ->
  inject_one_shot H m (front ++ [lastOutMsg])
  = front ++ [ message (lit "assistant") (fakeAssistantContent H m);
               message (lit "user") (fakeToolResult H m);
               lastOutMsg ].
Proof.
  intro U. unfold inject_one_shot. rewrite rev_app_distr. cbn [rev app].
  now rewrite U, rev_involutive.
Qed.

Lemma mergeAdjacentMessages_one_shot (front : list jsobj) (lastOutMsg : jsobj) :
  is_str (obj_get (lit "role") lastOutMsg) (lit "user") = true ->
  exists pre a x,
    mergeAdjacentMessages H
      (front ++ [ message (lit "assistant") (fakeAssistantContent H m);
                  message (lit "user") (fakeToolResult H m);
                  lastOutMsg ])
    = pre ++ [ a;
               message (lit "user")
                 (fakeToolResult H m ++ NLNL
                  ++ or_empty H (obj_get (lit "content") lastOutMsg)) ]
    /\ is_str (obj_get (lit "role") a) (lit "assistant") = true
    /\ obj_get (lit "content") a = Some (JStr (x ++ fakeAssistantContent H m)).
Proof.
  intro U. destruct front as [|f front].
  - pose proof (is_str_eq _ _ U) as U'.
    exists [], (message (lit "assistant") (fakeAssistantContent H m)), [].
    simpl app. unfold mergeAdjacentMessages. cbn [merge_loop].
    rewrite !obj_get_role_message, U'.
    change (strict_eq (Some (JStr (lit "user"))) (Some (JStr (lit "assistant"))))
      with false.
    change (strict_eq (Some (JStr (lit "user"))) (Some (JStr (lit "user"))))
      with true.
    cbv iota.
    rewrite obj_get_content_message, or_empty_str, obj_set_content_message.
    auto.
  - simpl app. unfold mergeAdjacentMessages. now apply merge_loop_one_shot.
Qed.

Lemma transformRequest_result_fields (request : jsobj) (merged : json) :
  let body' := JObj (obj_delete (lit "tool_choice")
                       (obj_delete (lit "tools")
                          (obj_set (lit "messages") merged request))) in
  read body' k_messages = Some merged
  /\ read body' k_tools = None
  /\ read body' (Key (lit "tool_choice")) = None.
Proof.
  cbv zeta. unfold read, key_name, k_messages, k_tools. repeat split.
  - rewrite !obj_get_delete_other by (intro E; vm_compute in E; discriminate).
    apply obj_get_set_same.
  - rewrite obj_get_delete_other by (intro E; vm_compute in E; discriminate).
    apply obj_get_delete_same.
  - apply obj_get_delete_same.
Qed.

End OneShot.

(** C4 (as amended): for a request with a non-empty list of well-formed
    tools, no message of a tool exchange in its history and a final
    message from the user, the transformation succeeds and the
    transformed request ends with an assistant message whose text ends
    with the fabricated call, followed by one user message whose text is
    the fabricated result, a blank line and the text of the original
    final user message: the same-role merge joins the fabricated user
    turn with the real one.  No [tools] and no [tool_choice] field is
    left, so the schema of the fictional tool remains only as text of the
    prompt. *)
Theorem one_shot_merged_into_final_turns (H : Host) (m : Markers)
        (body t lastMsg : json) (tools init : list json) :
  get_opt (Some body) k_tools = Some (JArr (t :: tools)) ->
  forallb tool_ok (t :: tools) = true ->
  read body k_messages = Some (JArr (init ++ [lastMsg])) ->
  forallb (fun msg => negb (is_null msg)) init = true ->
  hasToolHistory body = false ->
  is_str (get_opt (Some lastMsg) k_role) (lit "user") = true ->
  exists body' pre a x,
    upstream_body H m true body = Normal body'
    /\ read body' k_messages
       = Some (JArr (List.map JObj
                       (pre ++ [ a;
                                 message (lit "user")
                                   (fakeToolResult H m ++ NLNL
                                    ++ or_empty H (read lastMsg k_content)) ])))
    /\ is_str (obj_get (lit "role") a) (lit "assistant") = true
    /\ obj_get (lit "content") a = Some (JStr (x ++ fakeAssistantContent H m))
    /\ read body' k_tools = None
    /\ read body' (Key (lit "tool_choice")) = None.
Proof.
  intros Tl Tok Rm Nn Nh U.
  destruct body as [| | | | |request]; try discriminate.
  (* the last message is passed through *)
  destruct (rewrite_message_user H m true) with (msg := lastMsg) (prompt := @nil jschar)
    as (lo & El & _ & Ul); [exact U|]. subst lastMsg.
  rewrite (hasToolHistory_messages _ _ Rm) in Nh.
  rewrite existsb_app in Nh. apply orb_false_elim in Nh as [Nh _].
  unfold upstream_body, requestHasTools. rewrite Tl. cbn [andb is_nonempty_array orb].
  unfold transformRequest.
  change (get (Some (JObj request)) k_messages)
    with (Normal (read (JObj request) k_messages)).
  rewrite Rm. cbn [bind truthy].
  rewrite (hasToolHistory_messages _ _ Rm), existsb_app, Nh.
  cbn [existsb orb]. 
  assert (in_history (JObj lo) = false) as Nl.
  { unfold in_history. destruct (is_str_user _ U) as (_ & S2 & S3).
    now rewrite S2, S3. }
  rewrite Nl. cbn [orb negb andb].
  rewrite map_app. simpl map. rewrite last_snoc, U.
  assert (read (JObj request) k_tools = Some (JArr (t :: tools))) as Rt by exact Tl.
  rewrite Rt. cbn [array_items].
  assert (forallb tool_ok ((t :: tools) ++ [SCIFI_TOOL_DEF]) = true) as Tok'.
  { rewrite forallb_app, Tok. reflexivity. }
  destruct (getSystemPrompt_ok H m _ Tok') as [prompt Ep].
  change (nonempty ((t :: tools) ++ [SCIFI_TOOL_DEF])) with true. cbv iota.
  rewrite Ep. cbn [bind iterate].
  (* every message is rewritten *)
  destruct (map_completion_all (rewrite_message H m true prompt) init) as [outs Eo].
  { intros msg Hm. apply rewrite_message_plain.
    - rewrite forallb_forall in Nn. specialize (Nn msg Hm). now apply negb_true_iff in Nn.
    - destruct (in_history msg) eqn:Eh; [|reflexivity].
      assert (existsb in_history init = true) as X; [|congruence].
      apply existsb_exists. eauto. }
  destruct (rewrite_message_user H m true prompt (JObj lo) U) as (lo' & [= <-] & El & _).
  assert (map_completion (rewrite_message H m true prompt) (init ++ [JObj lo])
          = Normal (outs ++ [lo])) as Eall.
  { apply map_completion_app; [exact Eo|]. simpl. now rewrite El. }
  rewrite Eall. cbn [bind].
  match goal with
  | |- context [inject_one_shot H m ?l] =>
      assert (exists front : list jsobj, l = front ++ [lo]) as [front ->]
  end.
  { destruct (_ && _).
    - exists (message (lit "system") prompt :: outs). reflexivity.
    - exists outs. reflexivity. }
  rewrite inject_one_shot_snoc by exact Ul.
  destruct (mergeAdjacentMessages_one_shot H m front lo Ul) as (pre & a & x & Em & Ra & Ca).
  rewrite Em. cbn [spread].
  destruct (transformRequest_result_fields request
              (JArr (List.map JObj
                       (pre ++ [a; message (lit "user")
                                     (fakeToolResult H m ++ NLNL
                                      ++ or_empty H (obj_get (lit "content") lo))]))))
    as (F1 & F2 & F3).
  eexists. exists pre, a, x. split; [reflexivity|].
  split; [exact F1|]. auto.
Qed.

Lemma one_shot_merged_into_final_turns_witness :
  let lastMsg := JObj [ (lit "role", str "user");
                        (lit "content", str "Weather in Paris?") ] in
  let init := [ JObj [ (lit "role", str "user"); (lit "content", str "Hi") ];
                JObj [ (lit "role", str "assistant");
                       (lit "content", str "Hello!") ] ] in
  get_opt (Some Examples.request_one_shot) k_tools
  = Some (JArr [Examples.weather_tool])
  /\ forallb tool_ok [Examples.weather_tool] = true
  /\ read Examples.request_one_shot k_messages = Some (JArr (init ++ [lastMsg]))
  /\ forallb (fun msg => negb (is_null msg)) init = true
  /\ hasToolHistory Examples.request_one_shot = false
  /\ is_str (get_opt (Some lastMsg) k_role) (lit "user") = true
  /\ exists body' pre a x,
       upstream_body Examples.H Examples.M true Examples.request_one_shot
       = Normal body'
       /\ read body' k_messages
          = Some (JArr (List.map JObj
                          (pre ++ [ a;
                                    message (lit "user")
                                      (fakeToolResult Examples.H Examples.M ++ NLNL
                                       ++ or_empty Examples.H
                                            (read lastMsg k_content)) ])))
       /\ is_str (obj_get (lit "role") a) (lit "assistant") = true
       /\ obj_get (lit "content") a
          = Some (JStr (x ++ fakeAssistantContent Examples.H Examples.M))
       /\ read body' k_tools = None
       /\ read body' (Key (lit "tool_choice")) = None.
Proof.
  cbv zeta.
  repeat (split; [vm_compute; reflexivity|]).
  apply (one_shot_merged_into_final_turns Examples.H Examples.M
           Examples.request_one_shot Examples.weather_tool
           (JObj [ (lit "role", str "user");
                   (lit "content", str "Weather in Paris?") ])
           []
           [ JObj [ (lit "role", str "user"); (lit "content", str "Hi") ];
             JObj [ (lit "role", str "assistant");
                    (lit "content", str "Hello!") ] ]);
    vm_compute; reflexivity.
Defined.

Lemma last_map_snoc3 {A B : Type} (f : A -> B) (pre : list A) (a b c : A) (d : B) :
  last (List.map f (pre ++ [a; b; c])) d = f c.
Proof.
  change (pre ++ [a; b; c]) with (pre ++ [a; b] ++ [c]).
  rewrite app_assoc, map_app. cbn [List.map]. apply last_last.
Qed.

(** C4, as stated, fails: for a conversation [user; assistant; user] with
    one tool the transformed request does not end with the fabricated
    pair followed by the original final user message.  Its last message
    is one user message that holds the fabricated result and, after a
    blank line, the user's text. *)
Lemma one_shot_pair_not_separate :
  exists body' msgs,
    upstream_body Examples.H Examples.M true Examples.request_one_shot
    = Normal body'
    /\ read body' k_messages = Some (JArr msgs)
    /\ length msgs = 4
    /\ forall pre,
         msgs <> List.map JObj
                   (pre ++ [ message (lit "assistant")
                               (fakeAssistantContent Examples.H Examples.M);
                             message (lit "user")
                               (fakeToolResult Examples.H Examples.M);
                             message (lit "user") (lit "Weather in Paris?") ]).
Proof.
  eexists. eexists. split; [vm_compute; reflexivity|].
  split; [vm_compute; reflexivity|].
  split; [reflexivity|].
  intros pre E. apply (f_equal (fun l => last l JNull)) in E.
  rewrite last_map_snoc3 in E. vm_compute in E. discriminate.
Qed.

(** ** History clean-up when tools are off *)

(** Texts free of a token made of characters outside ASCII. *)

Lemma ascii_non_ascii (c : jschar) (l tok : jsstring) :
  is_ascii l = true -> non_ascii tok = true -> In c l -> In c tok -> False.
Proof.
  unfold is_ascii, non_ascii. rewrite !forallb_forall. intros A N Hl Ht.
  specialize (A c Hl). specialize (N c Ht).
  apply N.ltb_lt in A. apply N.leb_le in N. lia.
Qed.

(** A token outside ASCII cannot straddle an ASCII separator. *)
Lemma Substring_sep (tok a sep b : jsstring) :
  non_ascii tok = true -> is_ascii sep = true -> sep <> [] ->
  Substring tok (a ++ sep ++ b) -> Substring tok a \/ Substring tok b.
Proof.
  intros N A Ne (pre & post & E).
  symmetry in E. apply app_eq_app in E as [l [[Ep E]|[Ea E]]].
  - (* the token starts at or after the end of [a] *)
    apply app_eq_app in E as [k [[Es E]|[El E]]].
    + destruct k as [|c k].
      * right. exists [], post. symmetry. exact E.
      * destruct tok as [|c' tok]; [left; exists [], a; reflexivity|].
        exfalso. injection E as -> _.
        apply (ascii_non_ascii c sep (c :: tok) A N); [|now left].
        subst sep. apply in_or_app. right. now left.
    + right. exists k, post. exact E.
  - (* the token starts inside [a] *)
    apply app_eq_app in E as [k [[Et E]|[El E]]].
    + destruct k as [|c k].
      * left. exists pre, []. rewrite app_nil_r in Et. subst. now rewrite app_nil_r.
      * exfalso. destruct sep as [|c' sep]; [congruence|].
        injection E as -> _.
        apply (ascii_non_ascii c (c :: sep) tok A N); [now left|].
        subst tok. apply in_or_app. right. now left.
    + left. exists pre, k. subst. reflexivity.
Qed.

Lemma Substring_ascii (tok l : jsstring) :
  non_ascii tok = true -> is_ascii l = true -> Substring tok l -> tok = [].
Proof.
  intros N A (pre & post & E). destruct tok as [|c tok]; [reflexivity|].
  exfalso. apply (ascii_non_ascii c l (c :: tok) A N); [|now left].
  subst l. apply in_or_app. right. now left.
Qed.

Section FreeOf.

Variable tok : jsstring.
Hypothesis tok_non_ascii : non_ascii tok = true.
Hypothesis tok_nonempty : tok <> [].

Lemma Free_nil : Free tok [].
Proof.
  intros (pre & post & E). symmetry in E.
  apply app_eq_nil in E as [_ E]. apply app_eq_nil in E as [E _]. contradiction.
Qed.

Lemma Free_ascii (l : jsstring) : is_ascii l = true -> Free tok l.
Proof. intros A S. now apply tok_nonempty, (Substring_ascii tok l). Qed.

Lemma Free_sep (a sep b : jsstring) :
  is_ascii sep = true -> sep <> [] ->
  Free tok a -> Free tok b -> Free tok (a ++ sep ++ b).
Proof.
  intros A Ne Fa Fb S.
  destruct (Substring_sep tok a sep b tok_non_ascii A Ne S); contradiction.
Qed.

Lemma Free_join (names : list jsstring) :
  Forall (Free tok) names -> Free tok (join (lit ", ") names).
Proof.
  induction 1 as [|n names Fn Fs IH]; [apply Free_nil|].
  destruct names as [|n' names]; [exact Fn|].
  change (join (lit ", ") (n :: n' :: names))
    with (n ++ lit ", " ++ join (lit ", ") (n' :: names)).
  apply Free_sep; [reflexivity|discriminate|exact Fn|exact IH].
Qed.

End FreeOf.

Lemma free_of_spec (m : Markers) (s : jsstring) :
  free_of m s = true <-> forall tok, In tok (tokens m) -> ~ Substring tok s.
Proof.
  unfold free_of. rewrite forallb_forall. split; intros F tok Ht.
  - intro S. apply includes_true_iff in S. specialize (F tok Ht).
    rewrite S in F. discriminate.
  - destruct (includes s tok) eqn:E; [|reflexivity].
    apply includes_true_iff in E. now destruct (F tok Ht).
Qed.

(** The rewriting of one message when tools are off. *)

Lemma is_str_other (v : jsval) (a b : jsstring) :
  is_str v a = true -> str_eqb a b = false -> is_str v b = false.
Proof. intros E N. apply is_str_eq in E. subst v. exact N. Qed.

Lemma map_completion_Forall2 {A B : Type} (f : A -> completion B) (l : list A) :
  (forall x, In x l -> exists y, f x = Normal y) ->
  exists r, map_completion f l = Normal r
            /\ Forall2 (fun x y => f x = Normal y) l r.
Proof.
  induction l as [|x l IH]; intro A0.
  - exists []. split; [reflexivity|constructor].
  - destruct (A0 x (or_introl eq_refl)) as [y Ey].
    destruct IH as (r & Er & F); [intros; apply A0; now right|].
    exists (y :: r). split; [simpl; now rewrite Ey, Er|now constructor].
Qed.

Lemma Forall2_In_l {A B : Type} (R : A -> B -> Prop) (l : list A) (r : list B) (x : A) :
  Forall2 R l r -> In x l -> exists y, In y r /\ R x y.
Proof.
  induction 1 as [|a b l r Rab F IH]; intros [].
  - subst. exists b. split; [now left|assumption].
  - destruct IH as (y & Hy & Rxy); [assumption|]. exists y. split; [now right|assumption].
Qed.

Lemma Forall2_In_r {A B : Type} (R : A -> B -> Prop) (l : list A) (r : list B) (y : B) :
  Forall2 R l r -> In y r -> exists x, In x l /\ R x y.
Proof.
  induction 1 as [|a b l r Rab F IH]; intros [].
  - subst. exists a. split; [now left|assumption].
  - destruct IH as (x & Hx & Rxy); [assumption|]. exists x. split; [now right|assumption].
Qed.

Section HistoryOff.

Variable H : Host.
Variable m : Markers.

Lemma called_names_ok (calls : list json) :
  forallb call_ok calls = true ->
  map_completion (called_name) calls = Normal (List.map function_name calls).
Proof.
  induction calls as [|tc calls IH]; [reflexivity|].
  cbn [forallb]. intro E. apply andb_true_iff in E as [Ok E].
  cbn [map_completion List.map]. rewrite (IH E).
  unfold call_ok in Ok. apply andb_true_iff in Ok as [Nn _].
  destruct tc; try discriminate; reflexivity.
Qed.

Lemma template_text_of (names : list jsval) :
  forallb opt_string names = true ->
  List.map (template H) (filter truthy_val names)
  = List.map text_of (filter truthy_val names).
Proof.
  induction names as [|v names IH]; [reflexivity|].
  cbn [forallb]. intro E. apply andb_true_iff in E as [Ok E].
  cbn [filter]. destruct (truthy_val v) eqn:T; [|now apply IH].
  cbn [List.map]. rewrite (IH E).
  destruct v as [[| | |s| |]|]; try discriminate; reflexivity.
Qed.

Lemma opt_string_name (v : jsval) :
  opt_string v = true ->
  truthy_val v = nonempty (text_of v)
  /\ (truthy_val v = true -> template H v = text_of v).
Proof.
  destruct v as [[| | |s| |]|]; try discriminate; intros _; split;
    try reflexivity; try discriminate.
Qed.

Lemma or_empty_text_of (v : jsval) :
  opt_string v = true -> or_empty H v = text_of v.
Proof.
  destruct v as [[| | |s| |]|]; try discriminate; intros _; try reflexivity.
  apply or_empty_str.
Qed.

(** The four cases of the loop body for a well-formed message. *)
Lemma rewrite_message_off (msg : json) :
  message_ok msg = true ->
  (is_str (read msg k_role) (lit "tool") = true
   /\ rewrite_message H m false [] msg
      = Normal (message (lit "user") (result_note msg)))
  \/ (has_calls msg = true
      /\ rewrite_message H m false [] msg
         = Normal (message (lit "assistant")
                     (text_of (read msg k_content) ++ NLNL ++ calls_note msg)))
  \/ (is_str (read msg k_role) (lit "tool") = false
      /\ has_calls msg = false
      /\ rewrite_message H m false [] msg
         = Normal (message (lit "system") (text_of (read msg k_content))))
  \/ (is_str (read msg k_role) (lit "tool") = false
      /\ has_calls msg = false
      /\ exists o, msg = JObj o
                   /\ rewrite_message H m false [] msg = Normal o
                   /\ opt_string (obj_get (lit "content") o) = true
                   /\ obj_get (lit "tool_calls") o = None).
Proof.
  destruct msg as [| | | | |o]; try discriminate.
  unfold message_ok, rewrite_message, has_calls.
  change (get (Some (JObj o)) k_role) with (Normal (obj_get (lit "role") o)).
  change (read (JObj o) k_role) with (obj_get (lit "role") o).
  change (read (JObj o) k_content) with (obj_get (lit "content") o).
  change (read (JObj o) k_tool_calls) with (obj_get (lit "tool_calls") o).
  cbn [bind nonempty].
  destruct (is_str (obj_get (lit "role") o) (lit "tool")) eqn:Rt.
  - (* a tool result *)
    intro Ok. apply andb_true_iff in Ok as [Ok Oid].
    apply andb_true_iff in Ok as [Oc On].
    left. split; [reflexivity|].
    rewrite (is_str_other _ _ (lit "system") Rt eq_refl).
    rewrite (is_str_other _ _ (lit "assistant") Rt eq_refl).
    cbn [andb]. f_equal. unfold result_note, result_name. f_equal.
    change (read (JObj o) k_name) with (obj_get (lit "name") o).
    change (read (JObj o) (Key (lit "tool_call_id")))
      with (obj_get (lit "tool_call_id") o).
    change (read (JObj o) k_content) with (obj_get (lit "content") o).
    destruct (opt_string_name _ On) as [Tn En].
    destruct (opt_string_name _ Oid) as [Ti Ei].
    rewrite Tn, Ti.
    assert (match obj_get (lit "content") o with
            | Some (JStr s) => s
            | v => stringified H v
            end = text_of (obj_get (lit "content") o)) as ->.
    { destruct (obj_get (lit "content") o) as [[| | |s| |]|]; try discriminate.
      reflexivity. }
    rewrite <- Tn, <- Ti.
    destruct (truthy_val (obj_get (lit "name") o)) eqn:T1.
    { now rewrite (En eq_refl). }
    destruct (truthy_val (obj_get (lit "tool_call_id") o)) eqn:T2.
    { now rewrite (Ei eq_refl). }
    reflexivity.
  - destruct (is_str (obj_get (lit "role") o) (lit "assistant")
              && is_nonempty_array (obj_get (lit "tool_calls") o)) eqn:Hc.
    + (* an assistant message with calls *)
      intro Ok. apply andb_true_iff in Ok as [Oc Ocalls].
      right. left. split; [reflexivity|].
      apply andb_true_iff in Hc as [Ra _].
      rewrite (is_str_other _ _ (lit "system") Ra eq_refl).
      rewrite (called_names_ok _ Ocalls). cbn [bind].
      rewrite (or_empty_text_of _ Oc). unfold calls_note, called_names.
      change (read (JObj o) k_tool_calls) with (obj_get (lit "tool_calls") o).
      rewrite template_text_of; [reflexivity|].
      rewrite forallb_forall in Ocalls |- *. intros v Hv.
      apply in_map_iff in Hv as (tc & <- & Htc).
      specialize (Ocalls tc Htc). unfold call_ok in Ocalls.
      now apply andb_true_iff in Ocalls as [_ ?].
    + intro Ok. apply andb_true_iff in Ok as [Oc Oa].
      right. right.
      destruct (is_str (obj_get (lit "role") o) (lit "system")) eqn:Rs.
      * left. split; [reflexivity|]. split; [reflexivity|].
        rewrite (or_empty_text_of _ Oc), app_nil_r. reflexivity.
      * right. split; [reflexivity|]. split; [reflexivity|].
        exists o. split; [reflexivity|]. split; [reflexivity|].
        split; [exact Oc|]. now destruct (obj_get (lit "tool_calls") o).
Qed.

End HistoryOff.

Lemma content_text_message (role text : jsstring) :
  content_text (message role text) = text.
Proof. reflexivity. Qed.

Lemma Substring_refl (s : jsstring) : Substring s s.
Proof. exists [], []. now rewrite app_nil_r. Qed.

Section MergeFacts.

Variable H : Host.

(** A property of messages kept by the join of two of them is kept by
    the merge. *)
Lemma merge_loop_Forall (P : jsobj -> Prop) :
  (forall a b, P a -> P b ->
     P (obj_set (lit "content")
          (JStr (or_empty H (obj_get (lit "content") a) ++ NLNL
                 ++ or_empty H (obj_get (lit "content") b)))
          a)) ->
  forall rest current,
    P current -> Forall P rest -> Forall P (merge_loop H current rest).
Proof.
  intros Join. induction rest as [|msg rest IH]; intros current Pc Pr.
  - now constructor.
  - inversion Pr as [|? ? Pm Pr']; subst. cbn [merge_loop].
    destruct (strict_eq _ _).
    + apply IH; [now apply Join|assumption].
    + constructor; [assumption|now apply IH].
Qed.

Lemma mergeAdjacentMessages_Forall (P : jsobj -> Prop) :
  (forall a b, P a -> P b ->
     P (obj_set (lit "content")
          (JStr (or_empty H (obj_get (lit "content") a) ++ NLNL
                 ++ or_empty H (obj_get (lit "content") b)))
          a)) ->
  forall messages, Forall P messages -> Forall P (mergeAdjacentMessages H messages).
Proof.
  intros Join [|first rest] F; [constructor|].
  inversion F; subst. now apply merge_loop_Forall.
Qed.

(** The text of every message is part of the text of a merged message of
    the same role. *)
Lemma merge_loop_text (rest : list jsobj) :
  forall current x r,
    In x (current :: rest) ->
    obj_get (lit "role") x = Some (JStr r) ->
    exists y, In y (merge_loop H current rest)
              /\ obj_get (lit "role") y = Some (JStr r)
              /\ Substring (or_empty H (obj_get (lit "content") x))
                           (or_empty H (obj_get (lit "content") y)).
Proof.
  induction rest as [|msg rest IH]; intros current x r Hin Hr.
  - destruct Hin as [<-|[]]. exists current.
    split; [now left|]. split; [exact Hr|apply Substring_refl].
  - cbn [merge_loop].
    destruct (strict_eq (obj_get (lit "role") msg) (obj_get (lit "role") current))
      eqn:E.
    + set (current' := obj_set (lit "content") _ current).
      assert (obj_get (lit "role") current' = obj_get (lit "role") current) as Rc.
      { unfold current'. apply obj_get_set_other.
        intro X. vm_compute in X. discriminate. }
      assert (or_empty H (obj_get (lit "content") current')
              = or_empty H (obj_get (lit "content") current) ++ NLNL
                ++ or_empty H (obj_get (lit "content") msg)) as Tc.
      { unfold current'. now rewrite obj_get_set_same, or_empty_str. }
      destruct Hin as [<-|[<-|Hin]].
      * destruct (IH current' current' r) as (y & Hy & Ry & Sy).
        { now left. }
        { now rewrite Rc. }
        exists y. split; [exact Hy|]. split; [exact Ry|].
        eapply Substring_trans; [|exact Sy]. rewrite Tc.
        exists [], (NLNL ++ or_empty H (obj_get (lit "content") msg)). reflexivity.
      * rewrite Hr in E. apply strict_eq_str in E.
        destruct (IH current' current' r) as (y & Hy & Ry & Sy).
        { now left. }
        { now rewrite Rc. }
        exists y. split; [exact Hy|]. split; [exact Ry|].
        eapply Substring_trans; [|exact Sy]. rewrite Tc.
        exists (or_empty H (obj_get (lit "content") current) ++ NLNL), [].
        now rewrite app_nil_r, <- app_assoc.
      * apply (IH current' x r); [now right|exact Hr].
    + destruct Hin as [<-|Hin].
      * exists current. split; [now left|]. split; [exact Hr|apply Substring_refl].
      * destruct (IH msg x r Hin Hr) as (y & Hy & Ry & Sy).
        exists y. split; [now right|]. now split.
Qed.

Lemma mergeAdjacentMessages_text (messages : list jsobj) (x : jsobj) (r : jsstring) :
  In x messages ->
  obj_get (lit "role") x = Some (JStr r) ->
  exists y, In y (mergeAdjacentMessages H messages)
            /\ obj_get (lit "role") y = Some (JStr r)
            /\ Substring (or_empty H (obj_get (lit "content") x))
                         (or_empty H (obj_get (lit "content") y)).
Proof.
  destruct messages as [|first rest]; [intros []|]. apply merge_loop_text.
Qed.

End MergeFacts.

Section HistoryOffClean.

Variable H : Host.
Variable m : Markers.

Lemma message_clean_Free (msg : json) (tok s : jsstring) :
  message_clean m msg = true ->
  In tok (tokens m) -> In s (message_texts msg) -> Free tok s.
Proof.
  unfold message_clean. rewrite forallb_forall. intros C Ht Hs.
  specialize (C s Hs). now apply (proj1 (free_of_spec m s) C).
Qed.

Lemma called_names_texts (msg : json) (n : jsstring) :
  In n (called_names msg) -> In n (message_texts msg).
Proof.
  unfold called_names, message_texts. intro Hn.
  apply in_map_iff in Hn as (v & <- & Hv). apply filter_In in Hv as [Hv _].
  apply in_map_iff in Hv as (tc & <- & Htc).
  apply in_or_app. right. apply in_map_iff. now exists tc.
Qed.

(** The message written for a well-formed message has no structured tool
    field, and no delimiter token if the message has none. *)
Lemma rewrite_message_off_plain (msg : json) (o : jsobj) :
  message_ok msg = true ->
  rewrite_message H m false [] msg = Normal o ->
  plain_message o = true.
Proof.
  intros Ok E.
  destruct (rewrite_message_off H m msg Ok)
    as [[_ E']|[[_ E']|[(_ & _ & E')|(Rt & _ & o' & -> & E' & Oc & Oa)]]];
    rewrite E' in E; injection E as <-; try reflexivity.
  unfold plain_message. rewrite Oc, Oa.
  change (read (JObj o') k_role) with (obj_get (lit "role") o') in Rt.
  now rewrite Rt.
Qed.

Lemma rewrite_message_off_clean (msg : json) (o : jsobj) :
  markers_non_ascii m = true ->
  message_ok msg = true ->
  message_clean m msg = true ->
  rewrite_message H m false [] msg = Normal o ->
  free_of m (content_text o) = true.
Proof.
  intros Na Ok C E. apply free_of_spec. intros tok Ht.
  assert (non_ascii tok = true) as N.
  { unfold markers_non_ascii in Na. rewrite forallb_forall in Na. now apply Na. }
  assert (forall s, In s (message_texts msg) -> Free tok s) as F.
  { intros s Hs. now apply (message_clean_Free msg tok s C). }
  assert (Free tok (text_of (read msg k_content))) as Fc.
  { apply F. now left. }
  assert (tok <> []) as Ne.
  { intros ->. apply Fc. exists [], (text_of (read msg k_content)). reflexivity. }
  fold (Free tok (content_text o)).
  destruct (rewrite_message_off H m msg Ok)
    as [[_ E']|[[_ E']|[(_ & _ & E')|(_ & _ & o' & -> & E' & _ & _)]]];
    rewrite E' in E; injection E as <-.
  - (* a tool result *)
    rewrite content_text_message. unfold result_note.
    change (Free tok ([] ++ lit "[Tool result: "
                      ++ (result_name msg ++ (lit "]" ++ [LF])
                          ++ text_of (read msg k_content)))).
    apply Free_sep; [exact N|reflexivity|discriminate|now apply Free_nil|].
    apply Free_sep; [exact N|reflexivity|discriminate| |exact Fc].
    unfold result_name.
    destruct (nonempty (text_of (read msg k_name))).
    { apply F. right. now left. }
    destruct (nonempty (text_of (read msg (Key (lit "tool_call_id"))))).
    { apply F. right. right. now left. }
    now apply Free_ascii.
  - (* an assistant message with calls *)
    rewrite content_text_message. unfold calls_note.
    change (Free tok (text_of (read msg k_content)
                      ++ (NLNL ++ lit "[Called tools: ")
                      ++ (join (lit ", ") (called_names msg) ++ lit "]" ++ []))).
    apply Free_sep; [exact N|reflexivity|discriminate|exact Fc|].
    apply Free_sep; [exact N|reflexivity|discriminate| |now apply Free_nil].
    apply Free_join; [exact N|exact Ne|].
    apply Forall_forall. intros n Hn. apply F. now apply called_names_texts.
  - rewrite content_text_message. exact Fc.
  - exact Fc.
Qed.

(** The join of two messages without structured tool fields is such a
    message. *)
Lemma plain_join (a b : jsobj) :
  plain_message a = true -> plain_message b = true ->
  plain_message
    (obj_set (lit "content")
       (JStr (or_empty H (obj_get (lit "content") a) ++ NLNL
              ++ or_empty H (obj_get (lit "content") b)))
       a) = true.
Proof.
  intros Pa Pb. unfold plain_message in Pa |- *.
  apply andb_true_iff in Pa as [Pa Ra]. apply andb_true_iff in Pa as [Ca Ta].
  rewrite obj_get_set_same.
  rewrite !obj_get_set_other by (intro X; vm_compute in X; discriminate).
  now rewrite Ta, Ra.
Qed.

(** The join of two such messages without delimiter token is such a
    message. *)
Lemma plain_clean_join (a b : jsobj) :
  markers_non_ascii m = true ->
  plain_message a = true /\ free_of m (content_text a) = true ->
  plain_message b = true /\ free_of m (content_text b) = true ->
  plain_message
    (obj_set (lit "content")
       (JStr (or_empty H (obj_get (lit "content") a) ++ NLNL
              ++ or_empty H (obj_get (lit "content") b)))
       a) = true
  /\ free_of m
       (content_text
          (obj_set (lit "content")
             (JStr (or_empty H (obj_get (lit "content") a) ++ NLNL
                    ++ or_empty H (obj_get (lit "content") b)))
             a)) = true.
Proof.
  intros Na [Pa Fa] [Pb Fb].
  unfold plain_message in Pa, Pb |- *.
  apply andb_true_iff in Pa as [Pa Ra]. apply andb_true_iff in Pa as [Ca Ta].
  apply andb_true_iff in Pb as [Pb Rb]. apply andb_true_iff in Pb as [Cb Tb].
  unfold content_text.
  rewrite obj_get_set_same.
  rewrite !obj_get_set_other by (intro X; vm_compute in X; discriminate).
  rewrite Ta, Ra. split; [reflexivity|].
  rewrite (or_empty_text_of H _ Ca), (or_empty_text_of H _ Cb).
  apply free_of_spec. intros tok Ht.
  assert (non_ascii tok = true) as N.
  { unfold markers_non_ascii in Na. rewrite forallb_forall in Na. now apply Na. }
  apply Free_sep; [exact N|reflexivity|discriminate| |].
  - now apply (proj1 (free_of_spec m _) Fa).
  - now apply (proj1 (free_of_spec m _) Fb).
Qed.

End HistoryOffClean.

(** C8 (as amended): for a chat request with an empty tool list and a tool
    exchange in its history whose messages are well formed, the
    transformation succeeds; the transformed request has no [tools] and
    no [tool_choice] field; none of its messages has a [tool_calls] field
    or the role [tool]; the text of an assistant message with calls,
    followed by a blank line and the note [[Called tools: names]], is part
    of the text of an assistant message of the result, and the note
    [[Tool result: name]], a line break and the result of a tool message
    are part of the text of a user message of the result.  If moreover
    no text of the request holds a delimiter token, the tokens being made
    of characters outside ASCII, no message text of the result holds
    one. *)
Theorem history_collapsed_without_tools (H : Host) (m : Markers)
        (body : json) (msgs : list json) :
  is_nonempty_array (get_opt (Some body) k_tools) = false ->
  read body k_messages = Some (JArr msgs) ->
  hasToolHistory body = true ->
  forallb message_ok msgs = true ->
  exists body' outs,
    upstream_body H m true body = Normal body'
    /\ read body' k_messages = Some (JArr (List.map JObj outs))
    /\ read body' k_tools = None
    /\ read body' (Key (lit "tool_choice")) = None
    /\ (forall o, In o outs -> plain_message o = true)
    /\ (forall msg, In msg msgs -> has_calls msg = true ->
          exists o, In o outs
                    /\ is_str (obj_get (lit "role") o) (lit "assistant") = true
                    /\ Substring (text_of (read msg k_content) ++ NLNL
                                  ++ calls_note msg)
                                 (content_text o))
    /\ (forall msg, In msg msgs ->
          is_str (read msg k_role) (lit "tool") = true ->
          exists o, In o outs
                    /\ is_str (obj_get (lit "role") o) (lit "user") = true
                    /\ Substring (result_note msg) (content_text o))
    /\ (markers_non_ascii m = true ->
        forallb (message_clean m) msgs = true ->
        forall o, In o outs -> free_of m (content_text o) = true).
Proof.
  intros Nt Rm Hh Ok.
  destruct body as [| | | | |request]; try discriminate.
  rewrite forallb_forall in Ok.
  (* every message is rewritten *)
  destruct (map_completion_Forall2 (rewrite_message H m false []) msgs)
    as (outs & Eo & F2).
  { intros msg Hm.
    destruct (rewrite_message_off H m msg (Ok msg Hm))
      as [[_ E]|[[_ E]|[(_ & _ & E)|(_ & _ & o & _ & E & _)]]]; eauto. }
  assert (Forall (fun o => plain_message o = true) outs) as Po.
  { apply Forall_forall. intros o Ho.
    destruct (Forall2_In_r _ _ _ o F2 Ho) as (msg & Hm & E).
    now apply (rewrite_message_off_plain H m msg o (Ok msg Hm)). }
  assert (Forall (fun o => plain_message o = true)
                 (mergeAdjacentMessages H outs)) as Pm.
  { apply mergeAdjacentMessages_Forall; [|exact Po].
    intros a b Pa Pb. now apply plain_join. }
  rewrite Forall_forall in Pm.
  (* the text of a rewritten message in the merged list *)
  assert (forall msg role text,
            In msg msgs ->
            rewrite_message H m false [] msg = Normal (message role text) ->
            exists o, In o (mergeAdjacentMessages H outs)
                      /\ is_str (obj_get (lit "role") o) role = true
                      /\ Substring text (content_text o)) as Tx.
  { intros msg role text Hm E.
    destruct (Forall2_In_l _ _ _ msg F2 Hm) as (o1 & Ho1 & E1).
    rewrite E in E1. injection E1 as <-.
    destruct (mergeAdjacentMessages_text H outs (message role text) role Ho1 eq_refl)
      as (y & Hy & Ry & Sy).
    exists y. split; [exact Hy|]. split.
    - rewrite Ry. apply str_eqb_eq. reflexivity.
    - pose proof (Pm y Hy) as Py. unfold plain_message in Py.
      apply andb_true_iff in Py as [Py _]. apply andb_true_iff in Py as [Cy _].
      rewrite (or_empty_text_of H _ Cy) in Sy.
      change (or_empty H (obj_get (lit "content") (message role text)))
        with (or_empty H (Some (JStr text))) in Sy.
      rewrite or_empty_str in Sy. exact Sy. }
  (* the transformed request *)
  destruct (transformRequest_result_fields request
              (JArr (List.map JObj (mergeAdjacentMessages H outs))))
    as (F1 & F2' & F3).
  eexists. exists (mergeAdjacentMessages H outs). split.
  { unfold upstream_body, requestHasTools. rewrite Nt, Hh. cbn [andb orb].
    unfold transformRequest.
    change (get (Some (JObj request)) k_messages)
      with (Normal (read (JObj request) k_messages)).
    rewrite Rm. cbn [bind truthy andb iterate].
    rewrite Eo. cbn [bind nonempty]. rewrite andb_false_r. reflexivity. }
  split; [exact F1|]. split; [exact F2'|]. split; [exact F3|].
  split; [exact Pm|]. split; [|split].
  - intros msg Hm Hc.
    apply (Tx msg (lit "assistant")); [exact Hm|].
    destruct (rewrite_message_off H m msg (Ok msg Hm))
      as [[Rt _]|[[_ E]|[(_ & Hc' & _)|(_ & Hc' & _)]]];
      [|exact E|congruence|congruence].
    unfold has_calls in Hc. apply andb_true_iff in Hc as [Ra _].
    rewrite (is_str_other _ _ (lit "tool") Ra eq_refl) in Rt. discriminate.
  - intros msg Hm Rt.
    apply (Tx msg (lit "user")); [exact Hm|].
    destruct (rewrite_message_off H m msg (Ok msg Hm))
      as [[_ E]|[[Hc _]|[(Rt' & _)|(Rt' & _)]]];
      [exact E| |congruence|congruence].
    unfold has_calls in Hc. apply andb_true_iff in Hc as [Ra _].
    rewrite (is_str_other _ _ (lit "tool") Ra eq_refl) in Rt. discriminate.
  - intros Na Cl. rewrite forallb_forall in Cl.
    assert (Forall (fun o => plain_message o = true
                             /\ free_of m (content_text o) = true) outs) as Qo.
    { apply Forall_forall. intros o Ho.
      destruct (Forall2_In_r _ _ _ o F2 Ho) as (msg & Hm & E).
      split.
      - now apply (rewrite_message_off_plain H m msg o (Ok msg Hm)).
      - now apply (rewrite_message_off_clean H m msg o Na (Ok msg Hm) (Cl msg Hm)). }
    assert (Forall (fun o => plain_message o = true
                             /\ free_of m (content_text o) = true)
                   (mergeAdjacentMessages H outs)) as Qm.
    { apply mergeAdjacentMessages_Forall; [|exact Qo].
      intros a b Pa Pb. now apply plain_clean_join. }
    rewrite Forall_forall in Qm. intros o Ho. now destruct (Qm o Ho).
Qed.

(** Two requests: [request_history], whose final user message quotes
    the call-start token, and [request_history_clean], where no text
    holds a token. *)
Lemma history_collapsed_without_tools_witness :
  (let body := Examples.request_history in
   let msgs := array_items (read body k_messages) in
   is_nonempty_array (get_opt (Some body) k_tools) = false
   /\ read body k_messages = Some (JArr msgs)
   /\ hasToolHistory body = true
   /\ forallb message_ok msgs = true
   /\ forallb (message_clean Examples.M) msgs = false
   /\ exists body' outs,
        upstream_body Examples.H Examples.M true body = Normal body'
        /\ read body' k_messages = Some (JArr (List.map JObj outs))
        /\ read body' k_tools = None
        /\ read body' (Key (lit "tool_choice")) = None
        /\ (forall o, In o outs -> plain_message o = true)
        /\ (forall msg, In msg msgs -> has_calls msg = true ->
              exists o, In o outs
                        /\ is_str (obj_get (lit "role") o) (lit "assistant") = true
                        /\ Substring (text_of (read msg k_content) ++ NLNL
                                      ++ calls_note msg)
                                     (content_text o))
        /\ (forall msg, In msg msgs ->
              is_str (read msg k_role) (lit "tool") = true ->
              exists o, In o outs
                        /\ is_str (obj_get (lit "role") o) (lit "user") = true
                        /\ Substring (result_note msg) (content_text o)))
  /\ (let body := Examples.request_history_clean in
      let msgs := array_items (read body k_messages) in
      is_nonempty_array (get_opt (Some body) k_tools) = false
      /\ read body k_messages = Some (JArr msgs)
      /\ hasToolHistory body = true
      /\ forallb message_ok msgs = true
      /\ markers_non_ascii Examples.M = true
      /\ forallb (message_clean Examples.M) msgs = true
      /\ exists body' outs,
           upstream_body Examples.H Examples.M true body = Normal body'
           /\ read body' k_messages = Some (JArr (List.map JObj outs))
           /\ (forall o, In o outs -> plain_message o = true)
           /\ (forall o, In o outs -> free_of Examples.M (content_text o) = true)).
Proof.
  cbv zeta. split.
  - repeat (split; [vm_compute; reflexivity|]).
    destruct (history_collapsed_without_tools Examples.H Examples.M
                Examples.request_history
                (array_items (read Examples.request_history k_messages)))
      as (body' & outs & E & Rm & Rt & Rc & Pl & Cn & Tn & _);
      try (vm_compute; reflexivity).
    exists body', outs. auto 10.
  - repeat (split; [vm_compute; reflexivity|]).
    destruct (history_collapsed_without_tools Examples.H Examples.M
                Examples.request_history_clean
                (array_items (read Examples.request_history_clean k_messages)))
      as (body' & outs & E & Rm & _ & _ & Pl & _ & _ & Cl);
      try (vm_compute; reflexivity).
    exists body', outs. split; [exact E|]. split; [exact Rm|]. split; [exact Pl|].
    apply Cl; vm_compute; reflexivity.
Defined.

(** C8, as stated, fails: the request has an empty tool list and an
    assistant message with calls in its history, and its final user
    message quotes the call-start token; the text is passed through, so
    the transformed request holds the token. *)
Lemma history_text_keeps_delimiter_token :
  is_nonempty_array (get_opt (Some Examples.request_history) k_tools) = false
  /\ hasToolHistory Examples.request_history = true
  /\ exists body' msgs o,
       upstream_body Examples.H Examples.M true Examples.request_history
       = Normal body'
       /\ read body' k_messages = Some (JArr msgs)
       /\ In (JObj o) msgs
       /\ includes (content_text o) (TC_START Examples.M) = true.
Proof.
  split; [vm_compute; reflexivity|]. split; [vm_compute; reflexivity|].
  eexists. eexists. eexists.
  split; [vm_compute; reflexivity|]. split; [vm_compute; reflexivity|].
  split; [right; right; left; reflexivity|]. vm_compute. reflexivity.
Qed.

(** Every marker set that [generateMarkers] can draw is made of
    characters outside ASCII. *)
Lemma generateMarkers_non_ascii (r1 r2 r3 : nat) :
  r1 < length DELIMITER_SETS ->
  r2 < length SUFFIX_POOL ->
  r3 < length SUFFIX_POOL ->
  markers_non_ascii (generateMarkers r1 r2 r3) = true.
Proof.
  intros H1 H2 H3.
  assert (all_draws_non_ascii = true) as A by (vm_compute; reflexivity).
  unfold all_draws_non_ascii in A.
  assert (forall n k, n < k -> In n (seq 0 k)) as Hs by (intros; apply in_seq; lia).
  rewrite forallb_forall in A. specialize (A r1 (Hs _ _ H1)).
  rewrite forallb_forall in A. specialize (A r2 (Hs _ _ H2)).
  rewrite forallb_forall in A. exact (A r3 (Hs _ _ H3)).
Qed.

(** * Further properties of the code *)

(** ** SSE framing *)

Lemma skipn_firstn_app (j idx : nat) (b : jsstring) :
  j <= idx -> idx <= length b ->
  skipn j b = skipn j (firstn idx b) ++ skipn idx b.
Proof.
  intros Hj Hi. rewrite <- (firstn_skipn idx b) at 1.
  rewrite skipn_app.
  replace (j - length (firstn idx b)) with 0; [reflexivity|].
  rewrite length_firstn. lia.
Qed.

Lemma indexOf_firstn_None (p b : jsstring) (idx : nat) :
  p <> [] -> indexOf p b = Some idx -> indexOf p (firstn idx b) = None.
Proof.
  intros Np E. apply indexOf_None_iff_all. intro j.
  destruct (indexOf_Some_split _ _ _ E) as [Le _].
  destruct (Nat.lt_ge_cases j idx) as [Lt|Ge].
  - destruct (startsWith p (skipn j (firstn idx b))) eqn:S1; [|reflexivity].
    pose proof (indexOf_Some_first _ _ _ E j Lt) as F.
    rewrite (skipn_firstn_app j idx b) in F by lia.
    now rewrite (startsWith_app_true _ _ _ S1) in F.
  - rewrite skipn_all2 by (rewrite length_firstn; lia).
    destruct p; [congruence|reflexivity].
Qed.

Lemma indexOf_Some_decompose (p b : jsstring) (idx : nat) :
  indexOf p b = Some idx ->
  b = firstn idx b ++ p ++ skipn (idx + length p) b.
Proof.
  intro E. destruct (indexOf_Some_split _ _ _ E) as [_ S1].
  apply startsWith_skipn in S1.
  rewrite <- (firstn_skipn idx b) at 1. f_equal.
  rewrite S1 at 1. f_equal. rewrite skipn_skipn. f_equal. lia.
Qed.

Lemma frames_conserve (b : jsstring) :
  concat (List.map (fun e => e ++ NLNL) (fst (frames b))) ++ snd (frames b) = b
  /\ Forall (fun e => indexOf NLNL e = None) (fst (frames b)).
Proof.
  remember (length b) as n eqn:Hn. revert b Hn.
  induction n as [n IH] using lt_wf_ind. intros b ->.
  rewrite frames_step. destruct (indexOf NLNL b) as [idx|] eqn:E.
  - pose proof (indexOf_bound _ _ _ E) as B. change (length NLNL) with 2 in B.
    destruct (IH (length (skipn (idx + 2) b))) with (b := skipn (idx + 2) b)
      as [C F]; [rewrite length_skipn; lia|reflexivity|].
    destruct (frames (skipn (idx + 2) b)) as [events b'].
    cbn [fst snd] in *. split.
    + cbn [List.map concat]. rewrite <- !app_assoc, C.
      symmetry. exact (indexOf_Some_decompose _ _ _ E).
    + constructor; [|exact F].
      apply indexOf_firstn_None; [discriminate|exact E].
  - split; [reflexivity|constructor].
Qed.

(** [pushText] loses and invents no character: the frames it
    returns, each followed by the blank line that ended it, and the
    buffer it keeps make up the old buffer followed by the new text.  No
    frame holds a blank line, and neither does the buffer it keeps. *)
Theorem pushText_conserves_text (buffer text : jsstring) :
  concat (List.map (fun e => e ++ NLNL) (fst (pushText buffer text)))
  ++ snd (pushText buffer text)
  = buffer ++ text
  /\ Forall (fun e => indexOf NLNL e = None) (fst (pushText buffer text))
  /\ indexOf NLNL (snd (pushText buffer text)) = None.
Proof.
  rewrite pushText_frames.
  destruct (frames_conserve (buffer ++ text)) as [C F].
  split; [exact C|]. split; [exact F|apply frames_rest].
Qed.

(** What [sseEncodeData] writes is read back as one frame with one data
    line. *)

Lemma indexOf_no_LF (d t : jsstring) :
  forallb (fun c => negb (N.eqb c LF)) d = true ->
  indexOf NLNL (d ++ NLNL ++ t) = Some (length d).
Proof.
  induction d as [|c d IH]; intro N0.
  - reflexivity.
  - cbn [forallb] in N0. apply andb_true_iff in N0 as [Nc Nd].
    apply negb_true_iff in Nc.
    rewrite <- app_comm_cons, indexOf_unfold.
    cbn [NLNL startsWith]. rewrite N.eqb_sym, Nc. cbn [andb].
    fold NLNL. now rewrite (IH Nd).
Qed.

Lemma split_lines_aux_no_LF (cur d : jsstring) :
  forallb (fun c => negb (N.eqb c LF)) d = true ->
  split_lines_aux cur d = [cur ++ d].
Proof.
  revert cur. induction d as [|c d IH]; intros cur N0.
  - now rewrite app_nil_r.
  - cbn [forallb] in N0. apply andb_true_iff in N0 as [Nc Nd].
    apply negb_true_iff in Nc. cbn [split_lines_aux]. rewrite Nc.
    rewrite (IH _ Nd), <- app_assoc. reflexivity.
Qed.

(** A payload without line feed that [sseEncodeData] encodes is read
    back by [pushText] from an empty buffer as exactly one frame, nothing
    is left in the buffer, and [extractDataLines] finds in the frame one
    data line, the payload without its leading white space. *)
Theorem sseEncodeData_read_back (data : jsstring) :
  forallb (fun c => negb (N.eqb c LF)) data = true ->
  pushText [] (sseEncodeData data) = ([lit "data: " ++ data], [])
  /\ extractDataLines (lit "data: " ++ data) = [trimStart data]
  /\ isDoneEvent (lit "data: " ++ data) = str_eqb (trimStart data) DONE.
Proof.
  intro N0.
  assert (forallb (fun c => negb (N.eqb c LF)) (lit "data: " ++ data) = true) as N1.
  { rewrite forallb_app. apply andb_true_iff. split; [reflexivity|exact N0]. }
  assert (extractDataLines (lit "data: " ++ data) = [trimStart data]) as X.
  { unfold extractDataLines, split_lines.
    rewrite (split_lines_aux_no_LF [] _ N1). reflexivity. }
  split; [|split; [exact X|]].
  - rewrite pushText_frames. cbn [app]. unfold sseEncodeData.
    rewrite frames_step.
    replace (lit "data: " ++ data ++ NLNL)
      with ((lit "data: " ++ data) ++ NLNL ++ []) by now rewrite <- app_assoc.
    rewrite (indexOf_no_LF _ [] N1).
    set (frame := lit "data: " ++ data).
    assert (firstn (length frame) (frame ++ NLNL ++ []) = frame) as ->.
    { rewrite firstn_app, firstn_all, Nat.sub_diag. cbn [firstn]. apply app_nil_r. }
    assert (skipn (length frame + 2) (frame ++ NLNL ++ []) = []) as ->.
    { apply skipn_all2. rewrite !length_app. cbn [length NLNL]. lia. }
    reflexivity.
  - unfold isDoneEvent. rewrite X. reflexivity.
Qed.

Lemma sseEncodeData_read_back_witness :
  forallb (fun c => negb (N.eqb c LF)) DONE = true
  /\ pushText [] (sseEncodeData DONE) = ([lit "data: " ++ DONE], [])
  /\ extractDataLines (lit "data: " ++ DONE) = [trimStart DONE]
  /\ isDoneEvent (lit "data: " ++ DONE) = str_eqb (trimStart DONE) DONE.
Proof.
  split; [reflexivity|]. apply (sseEncodeData_read_back DONE). reflexivity.
Defined.

(** ** Frames that are not JSON envelopes *)

Section Passthrough.

Variable H : Host.
Variable m : Markers.

Lemma on_event_forward (st : TState) (e : jsstring) :
  isDoneEvent e = false ->
  not_envelope H e = true ->
  on_event H m st e = {| pushes := [PushText (e ++ NLNL)]; next := Some st |}.
Proof.
  intros D N. unfold not_envelope in N. rewrite D in N. cbn [orb] in N.
  unfold on_event. rewrite D, N. apply emit_one.
Qed.

Lemma on_events_forward (evs : list jsstring) (st : TState) :
  Forall (fun e => isDoneEvent e = false /\ not_envelope H e = true) evs ->
  on_events H m st evs
  = {| pushes := List.map (fun e => PushText (e ++ NLNL)) evs; next := Some st |}.
Proof.
  induction 1 as [|e evs [D N] F IH]; [reflexivity|].
  cbn [on_events]. rewrite (on_event_forward st e D N). cbn [next pushes].
  rewrite IH. reflexivity.
Qed.

Lemma wire_output_forward (evs : list jsstring) :
  wire_output H (List.map (fun e => PushText (e ++ NLNL)) evs)
  = concat (List.map (fun e => e ++ NLNL) evs).
Proof.
  unfold wire_output. rewrite map_map. reflexivity.
Qed.

End Passthrough.

(** A frame that is not the sentinel and has no data line, or whose
    data is not JSON, or whose data is a falsy JSON value ([null], [0],
    [false], the empty string), is forwarded as it came, with the blank
    line that ended it, whatever the state of the transformer, and the
    state is unchanged. *)
Theorem non_json_frame_forwarded (H : Host) (m : Markers) (st : TState)
        (e : jsstring) :
  isDoneEvent e = false ->
  extractDataLines e = []
  \/ JSON_parse H (join [LF] (extractDataLines e)) = None
  \/ (exists j, JSON_parse H (join [LF] (extractDataLines e)) = Some j
                /\ truthy j = false) ->
  on_event H m st e = {| pushes := [PushText (e ++ NLNL)]; next := Some st |}
  /\ wire H (PushText (e ++ NLNL)) = e ++ NLNL.
Proof.
  intros D C. split; [|reflexivity].
  apply on_event_forward; [exact D|].
  unfold not_envelope, parseJsonFromEvent. rewrite D. cbn [orb].
  destruct (extractDataLines e) as [|d ds] eqn:X; [reflexivity|].
  destruct C as [C|[C|(j & C & F)]]; [discriminate| |].
  - rewrite C. destruct e as [|c e']; [discriminate X|reflexivity].
  - rewrite C, F. reflexivity.
Qed.

Lemma non_json_frame_forwarded_witness :
  isDoneEvent (lit ": keep-alive") = false
  /\ (extractDataLines (lit ": keep-alive") = []
      \/ JSON_parse Examples.H (join [LF] (extractDataLines (lit ": keep-alive"))) = None
      \/ (exists j, JSON_parse Examples.H
                      (join [LF] (extractDataLines (lit ": keep-alive"))) = Some j
                    /\ truthy j = false))
  /\ on_event Examples.H Examples.M initial (lit ": keep-alive")
     = {| pushes := [PushText (lit ": keep-alive" ++ NLNL)]; next := Some initial |}
  /\ wire Examples.H (PushText (lit ": keep-alive" ++ NLNL))
     = lit ": keep-alive" ++ NLNL.
Proof.
  split; [reflexivity|]. split; [left; reflexivity|].
  apply (non_json_frame_forwarded Examples.H Examples.M initial (lit ": keep-alive"));
    [reflexivity|left; reflexivity].
Defined.

(** A stream none of whose frames is the sentinel or a JSON envelope
    reaches the client character for character, up to its last blank
    line: what the client receives, followed by the unfinished frame the
    transformer still holds when the stream ends, is the text of the
    bytes the upstream sent.  The unfinished frame is never forwarded. *)
Theorem non_json_stream_text (H : Host) (m : Markers) (values : list Buffer) :
  Forall (fun e => isDoneEvent e = false /\ not_envelope H e = true)
         (fst (frames (received_text values))) ->
  wire_output H (run H m values) ++ snd (frames (received_text values))
  = received_text values.
Proof.
  intro F. rewrite run_frames.
  rewrite (on_events_forward H m _ initial F). cbn [next pushes].
  rewrite (flush_no_envelope H m initial eq_refl). cbn [pushes].
  rewrite app_nil_r, wire_output_forward.
  apply (frames_conserve (received_text values)).
Qed.

Lemma non_json_stream_text_witness :
  let values := List.map Buffer_from
                  [lit ": keep"; lit "-alive" ++ NLNL ++ lit "data: par"] in
  Forall (fun e => isDoneEvent e = false /\ not_envelope Examples.H e = true)
         (fst (frames (received_text values)))
  /\ wire_output Examples.H (run Examples.H Examples.M values)
     ++ snd (frames (received_text values))
     = received_text values.
Proof.
  cbv zeta.
  assert (Forall (fun e => isDoneEvent e = false /\ not_envelope Examples.H e = true)
            (fst (frames (received_text
                            (List.map Buffer_from
                               [lit ": keep";
                                lit "-alive" ++ NLNL ++ lit "data: par"]))))) as F.
  { assert (fst (frames (received_text
                           (List.map Buffer_from
                              [lit ": keep"; lit "-alive" ++ NLNL ++ lit "data: par"])))
            = [lit ": keep-alive"]) as -> by (vm_compute; reflexivity).
    constructor; [split; vm_compute; reflexivity|constructor]. }
  split; [exact F|].
  exact (non_json_stream_text Examples.H Examples.M _ F).
Defined.

(** ** The rewrite of an envelope *)

Lemma obj_set_same_value (k : jsstring) (v : json) (o : jsobj) :
  obj_get k o = Some v -> obj_set k v o = o.
Proof.
  induction o as [|[k' v'] o IH]; [discriminate|].
  cbn [obj_get obj_set]. destruct (str_eqb k' k).
  - now intros [= ->].
  - intro E. now rewrite (IH E).
Qed.

Lemma patch_content_explicit (o co d : jsobj) (rest : list json) (text : jsstring) :
  obj_get (lit "choices") o = Some (JArr (JObj co :: rest)) ->
  obj_get (lit "delta") co = Some (JObj d) ->
  patch_content (JObj o) text
  = Normal (JObj (obj_set (lit "choices")
                    (JArr (JObj (obj_set (lit "delta")
                                   (JObj (obj_set (lit "content") (JStr text) d))
                                   (obj_set (lit "delta") (JObj d) co))
                           :: rest))
                    o)).
Proof.
  intros Ho Hd. unfold patch_content.
  erewrite modify_choice0;
    [reflexivity
    |exact Ho
    |change (get (Some (JObj co)) k_delta) with (Normal (obj_get (lit "delta") co));
     rewrite Hd; reflexivity].
Qed.

Lemma remove_content_explicit (o co d : jsobj) (rest : list json) :
  obj_get (lit "choices") o = Some (JArr (JObj co :: rest)) ->
  obj_get (lit "delta") co = Some (JObj d) ->
  remove_content (JObj o)
  = Normal (JObj (obj_set (lit "choices")
                    (JArr (JObj (obj_set (lit "delta")
                                   (JObj (obj_delete (lit "content") d)) co)
                           :: rest))
                    o)).
Proof.
  intros Ho Hd. unfold remove_content.
  change (get_opt (get_opt (get_opt (Some (JObj o)) k_choices) (Index 0)) k_delta)
    with (get_opt (get_opt (obj_get (lit "choices") o) (Index 0)) k_delta).
  rewrite Ho.
  change (get_opt (get_opt (Some (JArr (JObj co :: rest))) (Index 0)) k_delta)
    with (obj_get (lit "delta") co).
  rewrite Hd. cbn [truthy is_object andb].
  change (modify [k_choices; Index 0; k_delta]
            (fun d0 => Normal (delete d0 (lit "content"))) (JObj o))
    with (modify [k_choices; Index 0]
            (modify [k_delta] (fun d0 => Normal (delete d0 (lit "content")))) (JObj o)).
  erewrite modify_choice0;
    [reflexivity
    |exact Ho
    |rewrite modify_cons;
     change (get (Some (JObj co)) k_delta) with (Normal (obj_get (lit "delta") co));
     rewrite Hd; reflexivity].
Qed.

Ltac read_fields :=
  repeat match goal with
         | |- context [read (JObj ?a) ?k] =>
             change (read (JObj a) k) with (obj_get (key_name k) a)
         | |- context [get_opt (Some (JObj ?a)) ?k] =>
             change (get_opt (Some (JObj a)) k) with (obj_get (key_name k) a)
         end;
  cbn [key_name k_choices k_delta k_content k_tool_calls k_finish_reason].

(** The rewrite of an envelope touches [choices[0].delta.content]
    and nothing else: every other top-level field, every other choice,
    every other field of the first choice and every other field of its
    [delta] is read from the rewritten event as from the original one.
    The text field becomes the new text, or is removed when the new text
    is empty; a rewrite to the text the envelope already has gives the
    envelope back. *)
Theorem rewrite_content_touches_only_content
        (parsed c0 : json) (rest : list json) (content text : jsstring) :
  read parsed k_choices = Some (JArr (c0 :: rest)) ->
  get_opt (get_opt (Some c0) k_delta) k_content = Some (JStr content) ->
  exists evt c0',
    rewrite_content parsed text = Normal [PushJson evt]
    /\ read evt k_choices = Some (JArr (c0' :: rest))
    /\ (forall k, k <> lit "choices" -> read evt (Key k) = read parsed (Key k))
    /\ (forall k, k <> lit "delta" -> read c0' (Key k) = read c0 (Key k))
    /\ (forall k, k <> lit "content" ->
          get_opt (read c0' k_delta) (Key k) = get_opt (read c0 k_delta) (Key k))
    /\ get_opt (read c0' k_delta) k_content
       = (if nonempty text then Some (JStr text) else None)
    /\ (text = content -> content <> [] -> evt = parsed).
Proof.
  intros R C.
  destruct (envelope_shape _ _ _ _ R C) as (o & co & d & -> & -> & Ho & Hd & Hc).
  change (key_name k_choices) with (lit "choices") in Ho.
  change (key_name k_delta) with (lit "delta") in Hd.
  change (key_name k_content) with (lit "content") in Hc.
  unfold rewrite_content, cloneJson, push_evt. destruct text as [|x text].
  - cbn [nonempty]. rewrite (remove_content_explicit o co d rest Ho Hd). cbn [bind].
    eexists. eexists. split; [reflexivity|].
    split; [read_fields; apply obj_get_set_same|].
    split; [intros k Nk; read_fields; apply obj_get_set_other; congruence|].
    split; [intros k Nk; read_fields; apply obj_get_set_other; congruence|].
    split; [|split].
    + intros k Nk. read_fields. rewrite obj_get_set_same, Hd. read_fields.
      apply obj_get_delete_other. congruence.
    + read_fields. rewrite obj_get_set_same. read_fields. apply obj_get_delete_same.
    + intros <- N0. congruence.
  - cbn [nonempty]. rewrite (patch_content_explicit o co d rest (x :: text) Ho Hd).
    cbn [bind].
    eexists. eexists. split; [reflexivity|].
    split; [read_fields; apply obj_get_set_same|].
    split; [intros k Nk; read_fields; apply obj_get_set_other; congruence|].
    split.
    { intros k Nk. read_fields. rewrite !obj_get_set_other by congruence.
      reflexivity. }
    split; [|split].
    + intros k Nk. read_fields. rewrite obj_get_set_same, Hd. read_fields.
      apply obj_get_set_other. congruence.
    + read_fields. rewrite obj_get_set_same. read_fields. apply obj_get_set_same.
    + intros E _. rewrite <- E in Hc.
      rewrite (obj_set_same_value _ _ _ Hc).
      rewrite (obj_set_same_value _ _ _ Hd).
      rewrite (obj_set_same_value _ _ _ Hd).
      rewrite (obj_set_same_value _ _ _ Ho). reflexivity.
Qed.

Lemma rewrite_content_touches_only_content_witness :
  let parsed := Examples.envelope (lit "Hello") in
  let c0 := JObj [ (lit "index", JNum 0);
                   (lit "delta", JObj [ (lit "content", JStr (lit "Hello")) ]);
                   (lit "finish_reason", JNull) ] in
  read parsed k_choices = Some (JArr [c0])
  /\ get_opt (get_opt (Some c0) k_delta) k_content = Some (JStr (lit "Hello"))
  /\ exists evt c0',
       rewrite_content parsed (lit "Hel") = Normal [PushJson evt]
       /\ read evt k_choices = Some (JArr [c0'])
       /\ (forall k, k <> lit "choices" -> read evt (Key k) = read parsed (Key k))
       /\ (forall k, k <> lit "delta" -> read c0' (Key k) = read c0 (Key k))
       /\ (forall k, k <> lit "content" ->
             get_opt (read c0' k_delta) (Key k) = get_opt (read c0 k_delta) (Key k))
       /\ get_opt (read c0' k_delta) k_content
          = (if nonempty (lit "Hel") then Some (JStr (lit "Hel")) else None)
       /\ (lit "Hel" = lit "Hello" -> lit "Hello" <> [] -> evt = parsed).
Proof.
  cbv zeta. split; [reflexivity|]. split; [reflexivity|].
  apply (rewrite_content_touches_only_content
           (Examples.envelope (lit "Hello")) _ [] (lit "Hello") (lit "Hel"));
    reflexivity.
Defined.

Lemma rewrite_content_same (parsed c0 : json) (rest : list json) (content : jsstring) :
  read parsed k_choices = Some (JArr (c0 :: rest)) ->
  get_opt (get_opt (Some c0) k_delta) k_content = Some (JStr content) ->
  content <> [] ->
  rewrite_content parsed content = Normal [PushJson parsed].
Proof.
  intros R C N0.
  destruct (envelope_shape _ _ _ _ R C) as (o & co & d & -> & -> & Ho & Hd & Hc).
  change (key_name k_choices) with (lit "choices") in Ho.
  change (key_name k_delta) with (lit "delta") in Hd.
  change (key_name k_content) with (lit "content") in Hc.
  unfold rewrite_content, cloneJson, push_evt.
  destruct content as [|x content]; [congruence|]. cbn [nonempty].
  rewrite (patch_content_explicit o co d rest _ Ho Hd). cbn [bind].
  rewrite (obj_set_same_value _ _ _ Hc).
  rewrite (obj_set_same_value _ _ _ Hd).
  rewrite (obj_set_same_value _ _ _ Hd).
  rewrite (obj_set_same_value _ _ _ Ho). reflexivity.
Qed.

Lemma findPartial_loop_none (text marker : jsstring) (k : nat) :
  (forall i, 0 < i <= k -> endsWith text (firstn i marker) = false) ->
  findPartial_loop k text marker = length text.
Proof.
  induction k as [|k IH]; intro N0; [reflexivity|].
  cbn [findPartial_loop]. unfold slice_to. rewrite (N0 (S k)) by lia.
  apply IH. intros i Hi. apply N0. lia.
Qed.

(** A transformer that is scanning and holds nothing back forwards a
    frame unchanged, as the JSON document it decoded, when the text of
    the frame holds no call-start marker and does not end with the
    beginning of one.  Nothing is held back afterwards. *)
Theorem plain_frame_forwarded_unchanged (H : Host) (m : Markers) (st : TState)
        (e content : jsstring) :
  bufferingTool st = false ->
  pendingText st = [] ->
  carries H e content ->
  content <> [] ->
  indexOf (TC_START m) content = None ->
  (forall i, 0 < i < length (TC_START m) ->
             endsWith content (firstn i (TC_START m)) = false) ->
  on_event H m st e
  = {| pushes := [PushJson (parseJsonFromEvent H e)];
       next := Some {| pendingText := [];
                       bufferingTool := false;
                       toolBuffer := toolBuffer st;
                       lastEnvelope := parseJsonFromEvent H e |} |}.
Proof.
  intros B P [Ne (c0 & rest & Rc & Cc)] N0 I Pf.
  unfold not_envelope in Ne.
  apply orb_false_elim in Ne as [Ne R2]. apply orb_false_elim in Ne as [D R1].
  unfold on_event. rewrite D, R1, R2, Rc, Cc. cbn [orb].
  destruct content as [|c s]; [congruence|].
  unfold on_content. cbn [set_lastEnvelope bufferingTool pendingText toolBuffer lastEnvelope].
  rewrite B, P. cbn [app].
  unfold splitByMarker, startMarker. rewrite I.
  assert (findPartialMatchEndIndex (c :: s) (TC_START m) = length (c :: s)) as ->.
  { apply findPartial_loop_none. intros i Hi. apply Pf. lia. }
  unfold slice_to, slice_from. rewrite firstn_all, skipn_all.
  rewrite (rewrite_content_same _ _ _ _ Rc Cc) by discriminate.
  apply emit_one.
Qed.

Lemma plain_frame_forwarded_unchanged_witness :
  bufferingTool initial = false
  /\ pendingText initial = []
  /\ carries Examples.H (Examples.frame (lit "Hello")) (lit "Hello")
  /\ lit "Hello" <> []
  /\ indexOf (TC_START Examples.M) (lit "Hello") = None
  /\ (forall i, 0 < i < length (TC_START Examples.M) ->
                endsWith (lit "Hello") (firstn i (TC_START Examples.M)) = false)
  /\ on_event Examples.H Examples.M initial (Examples.frame (lit "Hello"))
     = {| pushes := [PushJson (parseJsonFromEvent Examples.H
                                 (Examples.frame (lit "Hello")))];
          next := Some {| pendingText := [];
                          bufferingTool := false;
                          toolBuffer := toolBuffer initial;
                          lastEnvelope := parseJsonFromEvent Examples.H
                                            (Examples.frame (lit "Hello")) |} |}.
Proof.
  assert (carries Examples.H (Examples.frame (lit "Hello")) (lit "Hello")) as C.
  { apply carriesb_sound. vm_compute. reflexivity. }
  assert (forall i, 0 < i < length (TC_START Examples.M) ->
                    endsWith (lit "Hello") (firstn i (TC_START Examples.M)) = false) as P.
  { intros i Hi. change (length (TC_START Examples.M)) with 3 in Hi.
    assert (i = 1 \/ i = 2) as [->| ->] by lia; reflexivity. }
  split; [reflexivity|]. split; [reflexivity|]. split; [exact C|].
  split; [discriminate|]. split; [reflexivity|]. split; [exact P|].
  apply (plain_frame_forwarded_unchanged Examples.H Examples.M initial
           (Examples.frame (lit "Hello")) (lit "Hello"));
    [reflexivity|reflexivity|exact C|discriminate|reflexivity|exact P].
Defined.

(** ** The synthesized tool-call event *)




(** ** Merging adjacent messages *)

Section MergeAlternate.

Variable H : Host.

Lemma merge_loop_head (rest : list jsobj) (current : jsobj) :
  exists y ys, merge_loop H current rest = y :: ys
               /\ obj_get (lit "role") y = obj_get (lit "role") current.
Proof.
  revert current. induction rest as [|msg rest IH]; intro current.
  - exists current, []. split; reflexivity.
  - cbn [merge_loop].
    destruct (strict_eq (obj_get (lit "role") msg) (obj_get (lit "role") current)).
    + destruct (IH (obj_set (lit "content")
                      (JStr (or_empty H (obj_get (lit "content") current) ++ NLNL
                             ++ or_empty H (obj_get (lit "content") msg)))
                      current)) as (y & ys & E & R).
      exists y, ys. split; [exact E|]. rewrite R.
      apply obj_get_set_other. intro X. vm_compute in X. discriminate.
    + exists current. eexists. split; reflexivity.
Qed.

Lemma merge_loop_alternate (rest : list jsobj) (current : jsobj) :
  roles_alternate (merge_loop H current rest) = true.
Proof.
  revert current. induction rest as [|msg rest IH]; intro current; [reflexivity|].
  cbn [merge_loop].
  destruct (strict_eq (obj_get (lit "role") msg) (obj_get (lit "role") current)) eqn:E.
  - apply IH.
  - pose proof (IH msg) as A.
    destruct (merge_loop_head rest msg) as (y & ys & Ey & Ry).
    rewrite Ey in A |- *.
    change (roles_alternate (current :: y :: ys))
      with (negb (strict_eq (obj_get (lit "role") y) (obj_get (lit "role") current))
            && roles_alternate (y :: ys)).
    now rewrite Ry, E, A.
Qed.

Lemma merge_loop_fixed (rest : list jsobj) (current : jsobj) :
  roles_alternate (current :: rest) = true ->
  merge_loop H current rest = current :: rest.
Proof.
  revert current. induction rest as [|msg rest IH]; intros current A; [reflexivity|].
  cbn [roles_alternate] in A. apply andb_true_iff in A as [N A].
  apply negb_true_iff in N. cbn [merge_loop]. rewrite N. now rewrite (IH msg A).
Qed.

End MergeAlternate.

(** What [mergeAdjacentMessages] returns has no two consecutive messages
    with identical roles; a list that has none is returned as it is; so
    merging twice is merging once. *)
Theorem mergeAdjacentMessages_idempotent (H : Host) (messages : list jsobj) :
  roles_alternate (mergeAdjacentMessages H messages) = true
  /\ (roles_alternate messages = true -> mergeAdjacentMessages H messages = messages)
  /\ mergeAdjacentMessages H (mergeAdjacentMessages H messages)
     = mergeAdjacentMessages H messages.
Proof.
  assert (forall l, roles_alternate l = true -> mergeAdjacentMessages H l = l) as Fx.
  { intros [|first rest] A; [reflexivity|]. now apply merge_loop_fixed. }
  assert (roles_alternate (mergeAdjacentMessages H messages) = true) as Al.
  { destruct messages as [|first rest]; [reflexivity|]. apply merge_loop_alternate. }
  split; [exact Al|]. split; [apply Fx|]. now apply Fx.
Qed.

Lemma mergeAdjacentMessages_idempotent_witness :
  let messages := [ message (lit "user") (lit "a");
                    message (lit "assistant") (lit "b");
                    message (lit "user") (lit "c") ] in
  roles_alternate messages = true
  /\ mergeAdjacentMessages Examples.H messages = messages
  /\ mergeAdjacentMessages Examples.H
       [ message (lit "user") (lit "a"); message (lit "user") (lit "c") ]
     = [ message (lit "user") (lit "a" ++ NLNL ++ lit "c") ].
Proof.
  cbv zeta. split; [reflexivity|]. split.
  - apply (mergeAdjacentMessages_idempotent Examples.H). reflexivity.
  - vm_compute. reflexivity.
Defined.

(** ** The calls written into the history are read back by [parse] *)

Lemma trimStart_all_ws (w : jsstring) :
  forallb isWhiteSpace w = true -> trimStart w = [].
Proof.
  induction w as [|c w IH]; [reflexivity|]. cbn [forallb trimStart].
  intro E. apply andb_true_iff in E as [Wc Ww]. now rewrite Wc, IH.
Qed.

Lemma trimStart_ws_app (w s : jsstring) :
  forallb isWhiteSpace w = true -> trimStart (w ++ s) = trimStart s.
Proof.
  induction w as [|c w IH]; [reflexivity|]. cbn [forallb app trimStart].
  intro E. apply andb_true_iff in E as [Wc Ww]. now rewrite Wc, IH.
Qed.

Lemma trimStart_app (s t : jsstring) :
  trimStart (s ++ t) = if nonempty (trimStart s) then trimStart s ++ t else trimStart t.
Proof.
  induction s as [|c s IH]; [reflexivity|]. cbn [app trimStart].
  destruct (isWhiteSpace c); [exact IH|reflexivity].
Qed.

(** White space at the end of a text does not change what [trim] gives. *)
Lemma trim_app_ws (s w : jsstring) :
  forallb isWhiteSpace w = true -> trim (s ++ w) = trim s.
Proof.
  intro W. unfold trim. rewrite trimStart_app.
  destruct (trimStart s) as [|c u] eqn:E; cbn [nonempty].
  - now rewrite (trimStart_all_ws w W).
  - unfold trimEnd. rewrite rev_app_distr. rewrite trimStart_ws_app; [reflexivity|].
    rewrite forallb_forall in W |- *. intros x Hx. apply W. now apply in_rev.
Qed.

Section RoundTrip.

Variable H : Host.
Variable m : Markers.
Hypothesis markers_are_solid : markers_solid m = true.

Lemma call_block_entry (id : jsstring) (call : jsstring * jsstring) :
  call_block H m (call_entry id call)
  = Normal ([LF] ++ region_text m (block_of_call call)).
Proof. reflexivity. Qed.

Lemma call_blocks_entries (calls : list (jsstring * (jsstring * jsstring))) :
  map_completion (call_block H m)
    (List.map (fun c => call_entry (fst c) (snd c)) calls)
  = Normal (List.map (fun c => [LF] ++ region_text m (block_of_call (snd c))) calls).
Proof.
  induction calls as [|c calls IH]; [reflexivity|].
  cbn [List.map map_completion]. rewrite call_block_entry, IH. reflexivity.
Qed.

Lemma concat_call_blocks (calls : list (jsstring * (jsstring * jsstring))) :
  concat (List.map (fun c => [LF] ++ region_text m (block_of_call (snd c))) calls)
  = blocks_text m (List.map (fun c => block_of_call (snd c)) calls) [].
Proof.
  induction calls as [|c calls IH]; [reflexivity|].
  cbn [List.map concat blocks_text blk_before block_of_call]. rewrite IH.
  now rewrite <- app_assoc.
Qed.

Lemma LF_before_start : ends_at_first (TC_START m) [LF] = true.
Proof.
  pose proof (token_solid m markers_are_solid (TC_START m)) as S.
  unfold ends_at_first. cbn [app]. rewrite indexOf_unfold.
  destruct (TC_START m) as [|c tok] eqn:E.
  - discriminate S. cbn. tauto.
  - assert (isWhiteSpace c = false) as W.
    { apply negb_true_iff. apply S. cbn. tauto. }
    cbn [startsWith].
    assert (N.eqb c LF = false) as ->.
    { destruct (N.eqb c LF) eqn:X; [|reflexivity].
      apply N.eqb_eq in X. subst c. discriminate W. }
    cbn [andb]. rewrite indexOf_unfold.
    assert (startsWith (c :: tok) (c :: tok) = true) as ->.
    { rewrite <- (app_nil_r (c :: tok)) at 2. apply startsWith_app. }
    reflexivity.
Qed.

End RoundTrip.

Lemma forallb_map_comp {A B : Type} (f : A -> B) (p : B -> bool) (l : list A) :
  forallb p (List.map f l) = forallb (fun x => p (f x)) l.
Proof. induction l as [|x l IH]; [reflexivity|]. cbn. now rewrite IH. Qed.

Lemma outside_call_blocks_ws (calls : list (jsstring * (jsstring * jsstring))) :
  forallb isWhiteSpace
    (concat (List.map blk_before (List.map (fun c => block_of_call (snd c)) calls)) ++ [])
  = true.
Proof. induction calls as [|c calls IH]; [reflexivity|exact IH]. Qed.

(** The call blocks [transformRequest] writes for the calls of an
    assistant message of the history, when tools are on, are read back by
    [parse]: for a message whose text holds no call-start marker and
    whose calls have names without name-end token and arguments without
    arguments-end token, the text written is the text of the message
    followed by one block per call, and [parse] finds in it the calls
    whose arguments are JSON, in order, with their names and arguments
    trimmed, and leaves the trimmed text of the message. *)
Theorem rendered_calls_parse_back (H : Host) (m : Markers) (prompt content : jsstring)
        (calls : list (jsstring * (jsstring * jsstring))) :
  markers_solid m = true ->
  calls <> [] ->
  ends_at_first (TC_START m) (content ++ [LF]) = true ->
  forallb (fun c => region_ok m (block_of_call (snd c))) calls = true ->
  exists text,
    rewrite_message H m true prompt (assistant_message content calls)
    = Normal (message (lit "assistant") text)
    /\ text = content
              ++ blocks_text m (List.map (fun c => block_of_call (snd c)) calls) []
    /\ toolCalls (parse H m text)
       = block_calls H (List.map (fun c => block_of_call (snd c)) calls) 0
    /\ cleanContent (parse H m text) = trim content.
Proof.
  intros So Ne Ec Ok.
  exists (content ++ blocks_text m (List.map (fun c => block_of_call (snd c)) calls) []).
  split; [|split; [reflexivity|]].
  - destruct calls as [|c calls]; [contradiction|].
    unfold rewrite_message.
    change (get (Some (assistant_message content (c :: calls))) k_role)
      with (Normal (Some (JStr (lit "assistant")))).
    cbn [bind].
    change (is_str (Some (JStr (lit "assistant"))) (lit "system")) with false.
    change (is_str (Some (JStr (lit "assistant"))) (lit "assistant")) with true.
    change (read (assistant_message content (c :: calls)) k_tool_calls)
      with (Some (JArr (List.map (fun c0 => call_entry (fst c0) (snd c0)) (c :: calls)))).
    change (read (assistant_message content (c :: calls)) k_content)
      with (Some (JStr content)).
    cbn [is_nonempty_array List.map andb array_items].
    change (call_entry (fst c) (snd c)
            :: List.map (fun c0 => call_entry (fst c0) (snd c0)) calls)
      with (List.map (fun c0 => call_entry (fst c0) (snd c0)) (c :: calls)).
    rewrite (call_blocks_entries H m (c :: calls)). cbn [bind].
    rewrite (concat_call_blocks m (c :: calls)), or_empty_str. reflexivity.
  - destruct calls as [|c calls]; [contradiction|].
    cbn [forallb] in Ok. apply andb_true_iff in Ok as [Oc Ok].
    set (rest := List.map (fun c0 => block_of_call (snd c0)) calls).
    set (first := {| blk_before := content ++ [LF];
                     blk_ws1 := [LF];
                     blk_name := fst (snd c);
                     blk_ws2 := [LF];
                     blk_args := snd (snd c);
                     blk_ws3 := [LF] |}).
    assert (content ++ blocks_text m (List.map (fun c0 => block_of_call (snd c0))
                                        (c :: calls)) []
            = blocks_text m (first :: rest) []) as ->.
    { cbn [List.map blocks_text blk_before block_of_call first]. fold rest.
      now rewrite <- !app_assoc. }
    assert (forallb (region_ok m) (first :: rest) = true) as Ok'.
    { cbn [forallb]. apply andb_true_iff. split; [exact Oc|].
      unfold rest. now rewrite forallb_map_comp. }
    assert (forallb (fun b => ends_at_first (TC_START m) (blk_before b)) (first :: rest)
            = true) as Bf.
    { cbn [forallb first blk_before]. rewrite Ec. cbn [andb].
      unfold rest. rewrite forallb_map_comp. apply forallb_forall. intros x _.
      apply (LF_before_start m So). }
    assert (region_free m []) as Ft.
    { apply re_search_None_iff. apply re_search_no_start.
      rewrite indexOf_unfold.
      destruct (TC_START m) eqn:E; [|reflexivity].
      now destruct (start_solid m So). }
    unfold parse. cbn [toolCalls cleanContent].
    rewrite (find_calls_blocks H m So (first :: rest) [] 0 Ok' Bf Ft).
    rewrite (replace_calls_blocks m So (first :: rest) [] Ok' Bf Ft).
    split; [reflexivity|].
    unfold outside. cbn [List.map concat blk_before first]. rewrite <- !app_assoc.
    apply trim_app_ws. apply (outside_call_blocks_ws ((c :: calls))).
Qed.

Lemma rendered_calls_parse_back_witness :
  let args := lit "{" ++ dq ++ lit "city" ++ dq ++ lit ":" ++ dq ++ lit "Paris" ++ dq
              ++ lit "}" in
  let calls := [ (lit "call_1", (lit "get_weather", args));
                 (lit "call_2", (lit "get_time", lit "{oops")) ] in
  markers_solid Examples.M = true
  /\ calls <> []
  /\ ends_at_first (TC_START Examples.M) (lit "Let me check." ++ [LF]) = true
  /\ forallb (fun c => region_ok Examples.M (block_of_call (snd c))) calls = true
  /\ exists text,
       rewrite_message Examples.H Examples.M true [] 
         (assistant_message (lit "Let me check.") calls)
       = Normal (message (lit "assistant") text)
       /\ List.map (fun tc => (tc_name tc, tc_arguments tc))
            (toolCalls (parse Examples.H Examples.M text))
          = [ (lit "get_weather", args) ]
       /\ cleanContent (parse Examples.H Examples.M text) = lit "Let me check.".
Proof.
  cbv zeta.
  split; [vm_compute; reflexivity|]. split; [discriminate|].
  split; [vm_compute; reflexivity|]. split; [vm_compute; reflexivity|].
  destruct (rendered_calls_parse_back Examples.H Examples.M []
              (lit "Let me check.")
              [ (lit "call_1",
                 (lit "get_weather",
                  lit "{" ++ dq ++ lit "city" ++ dq ++ lit ":" ++ dq ++ lit "Paris" ++ dq
                  ++ lit "}"));
                (lit "call_2", (lit "get_time", lit "{oops")) ])
    as (text & E & _ & Tc & Cc);
    [vm_compute; reflexivity|discriminate|vm_compute; reflexivity
    |vm_compute; reflexivity|].
  exists text. split; [exact E|]. split.
  - rewrite Tc. vm_compute. reflexivity.
  - rewrite Cc. vm_compute. reflexivity.
Defined.

(** ** The cut of a text into frames *)

Section Framing.

Variable H : Host.
Variable m : Markers.
Hypothesis start_nonempty : TC_START m <> [].

(** What a stream closed by the sentinel delivers, as a function of the
    text its frames carry. *)
Lemma stream_delivers (evs : list jsstring) (done : jsstring) :
  Forall (fun e => isDoneEvent e = false) evs ->
  isDoneEvent done = true ->
  (stream_text H evs <> [] -> Patchable (last_envelope H evs JNull)) ->
  exists content_events tool_events st,
    on_events H m initial (evs ++ [done])
    = {| pushes := content_events ++ tool_events ++ [PushText (sseEncodeData DONE)];
         next := Some st |}
    /\ delivered_text content_events
       = before_marker m (stream_text H evs)
         ++ trim (replace_calls m (from_marker m (stream_text H evs)))
    /\ List.map pushed_tool_calls tool_events
       = match toolCalls (parse H m (stream_text H evs)) with
         | [] => []
         | _ :: _ =>
             [Some (JArr (indexed_calls 0 (toolCalls (parse H m (stream_text H evs)))))]
         end.
Proof.
  intros A D Sh.
  destruct (on_events_tracks H m start_nonempty evs [] [] initial
              (Tracks_initial m start_nonempty) A)
    as (sent & st & Ev & Tr & L).
  cbn [app] in Tr. fold (stream_text H evs) in Tr.
  change (lastEnvelope initial) with JNull in L. rewrite <- L in Sh.
  destruct (stream_end H m start_nonempty _ _ st Tr Sh)
    as (tl & res & tls & Ed & _ & Bt & Rt & Tt).
  exists (sent ++ tl ++ res), tls, st. split; [|split].
  - rewrite on_events_app. unfold continue. rewrite Ev.
    cbn [next pushes on_events]. unfold on_event. rewrite D, Ed. cbn [next pushes].
    now rewrite app_nil_r, <- !app_assoc.
  - rewrite app_assoc, delivered_text_app, delivered_text_app, Rt. now rewrite Bt.
  - change (find_calls H m (stream_text H evs) 0)
      with (toolCalls (parse H m (stream_text H evs))) in Tt.
    destruct (toolCalls (parse H m (stream_text H evs))) as [|tc tcs].
    + now rewrite Tt.
    + destruct Tt as (evt & -> & Pt & _). cbn [List.map pushed_tool_calls].
      now rewrite Pt.
Qed.

End Framing.

(** The cut of a text into frames does not show in what is delivered:
    two streams whose frames carry the same text, each closed by a
    sentinel and with a last envelope that can be patched, deliver the
    same text in the events before the tool-call event, and the same
    calls. *)
Theorem framing_invisible (H : Host) (m : Markers)
        (evs1 evs2 : list jsstring) (done1 done2 : jsstring) :
  TC_START m <> [] ->
  Forall (fun e => isDoneEvent e = false) evs1 ->
  Forall (fun e => isDoneEvent e = false) evs2 ->
  isDoneEvent done1 = true ->
  isDoneEvent done2 = true ->
  stream_text H evs1 = stream_text H evs2 ->
  (stream_text H evs1 <> [] -> Patchable (last_envelope H evs1 JNull)) ->
  (stream_text H evs2 <> [] -> Patchable (last_envelope H evs2 JNull)) ->
  exists content1 tools1 st1 content2 tools2 st2,
    on_events H m initial (evs1 ++ [done1])
    = {| pushes := content1 ++ tools1 ++ [PushText (sseEncodeData DONE)];
         next := Some st1 |}
    /\ on_events H m initial (evs2 ++ [done2])
       = {| pushes := content2 ++ tools2 ++ [PushText (sseEncodeData DONE)];
            next := Some st2 |}
    /\ delivered_text content1 = delivered_text content2
    /\ List.map pushed_tool_calls tools1 = List.map pushed_tool_calls tools2.
Proof.
  intros NE A1 A2 D1 D2 E P1 P2.
  destruct (stream_delivers H m NE evs1 done1 A1 D1 P1) as (c1 & t1 & st1 & Ev1 & C1 & T1).
  destruct (stream_delivers H m NE evs2 done2 A2 D2 P2) as (c2 & t2 & st2 & Ev2 & C2 & T2).
  exists c1, t1, st1, c2, t2, st2.
  split; [exact Ev1|]. split; [exact Ev2|]. split.
  - now rewrite C1, C2, E.
  - now rewrite T1, T2, E.
Qed.

Lemma framing_invisible_witness :
  TC_START Examples.M <> []
  /\ Forall (fun e => isDoneEvent e = false) Examples.frames_split_marker
  /\ Forall (fun e => isDoneEvent e = false) [Examples.frame_with_block]
  /\ isDoneEvent Examples.done_frame = true
  /\ stream_text Examples.H Examples.frames_split_marker
     = stream_text Examples.H [Examples.frame_with_block]
  /\ exists content1 tools1 st1 content2 tools2 st2,
       on_events Examples.H Examples.M initial
         (Examples.frames_split_marker ++ [Examples.done_frame])
       = {| pushes := content1 ++ tools1 ++ [PushText (sseEncodeData DONE)];
            next := Some st1 |}
       /\ on_events Examples.H Examples.M initial
            ([Examples.frame_with_block] ++ [Examples.done_frame])
          = {| pushes := content2 ++ tools2 ++ [PushText (sseEncodeData DONE)];
               next := Some st2 |}
       /\ delivered_text content1 = delivered_text content2
       /\ List.map pushed_tool_calls tools1 = List.map pushed_tool_calls tools2.
Proof.
  assert (TC_START Examples.M <> []) as NE by discriminate.
  assert (Forall (fun e => isDoneEvent e = false) Examples.frames_split_marker) as A1
    by (repeat constructor).
  assert (Forall (fun e => isDoneEvent e = false) [Examples.frame_with_block]) as A2
    by (repeat constructor).
  assert (isDoneEvent Examples.done_frame = true) as D by (vm_compute; reflexivity).
  assert (stream_text Examples.H Examples.frames_split_marker
          = stream_text Examples.H [Examples.frame_with_block]) as E
    by (vm_compute; reflexivity).
  split; [exact NE|]. split; [exact A1|]. split; [exact A2|]. split; [exact D|].
  split; [exact E|].
  apply (framing_invisible Examples.H Examples.M Examples.frames_split_marker
           [Examples.frame_with_block] Examples.done_frame Examples.done_frame
           NE A1 A2 D D E).
  - intros _. eexists. eexists. split; vm_compute; reflexivity.
  - intros _. eexists. eexists. split; vm_compute; reflexivity.
Defined.

(** ** The tokens of a drawn marker set *)

Lemma generateMarkers_non_ascii_witness :
  3 < length DELIMITER_SETS
  /\ 0 < length SUFFIX_POOL
  /\ 1 < length SUFFIX_POOL
  /\ markers_non_ascii (generateMarkers 3 0 1) = true.
Proof.
  assert (3 < length DELIMITER_SETS) as L1 by (vm_compute; lia).
  assert (0 < length SUFFIX_POOL) as L2 by (vm_compute; lia).
  assert (1 < length SUFFIX_POOL) as L3 by (vm_compute; lia).
  split; [exact L1|]. split; [exact L2|]. split; [exact L3|].
  exact (generateMarkers_non_ascii 3 0 1 L1 L2 L3).
Defined.

Lemma generateMarkers_solid_witness :
  3 < length DELIMITER_SETS
  /\ 0 < length SUFFIX_POOL
  /\ 1 < length SUFFIX_POOL
  /\ markers_solid (generateMarkers 3 0 1) = true.
Proof.
  assert (3 < length DELIMITER_SETS) as L1 by (vm_compute; lia).
  assert (0 < length SUFFIX_POOL) as L2 by (vm_compute; lia).
  assert (1 < length SUFFIX_POOL) as L3 by (vm_compute; lia).
  split; [exact L1|]. split; [exact L2|]. split; [exact L3|].
  exact (generateMarkers_solid 3 0 1 L1 L2 L3).
Defined.
